(** * Playwrightium command engine: selector resolution, secret
      interpolation, the two command runners and the persistent session.

    The development embeds
      - [getLocator] and [browserSession.run]   (src/actions/browser-session.ts),
      - [executeShortcut.run]                   (src/actions/execute-shortcut.ts),
      - [interpolateSecrets], [interpolateSecretsInObject],
        [normalizeActionResult] and [runAction] (src/index.ts),
      - [closeBrowser.run]                      (src/actions/close-browser.ts),
      - [parseCliOptions], the argument loop of [handleSeedCommand] and the
        text of the prompts of [registerPrompts] (src/index.ts).

    Conventions of the embedding.
      - A JavaScript string is a [string]; each [ascii] stands for one code
        unit below 256.
      - A JSON number is an integer numeral, and stands for the Number that
        the numeral denotes.
      - A thrown [Error] is its message; a computation that may throw has a
        result in [string + A], [inl msg] being the throw.
      - The browser engine is external.  Its answers are given by oracles
        that read the whole history of engine events, so the history is the
        state of the browser and of its page.
      - Calls to [logger] only write to the transport; they always return and
        are left out.  The template literal of such a call is kept when its
        conversions to strings can throw.
      - JSON data are [JsValue]s; an object is the list of its own enumerable
        properties in enumeration order, each key once, and its prototype is
        [Object.prototype].  The objects that the interpolation builds can
        have another prototype; they are [PValue]s. *)

From Stdlib Require Import String Ascii List ZArith Lia Bool DecimalString.
From stdpp Require Import base option list strings gmap.
From Equations Require Import Equations.

Open Scope string_scope.

(* [simpl] may unfold an append whose first string is known. *)
#[local] Arguments String.append !s1 s2 : simpl nomatch.

(** ** Strings *)

Module Str.

(** [String.prototype.startsWith]. *)
Fixpoint startsWith (p s : string) : bool :=
  match p, s with
  | EmptyString, _ => true
  | String a p', String b s' => if Ascii.eqb a b then startsWith p' s' else false
  | String _ _, EmptyString => false
  end.

Fixpoint drop (n : nat) (s : string) : string :=
  match n, s with
  | O, _ => s
  | S n', String _ s' => drop n' s'
  | S _, EmptyString => EmptyString
  end.

(** [String.prototype.includes]. *)
Fixpoint includes (needle s : string) : bool :=
  startsWith needle s ||
  match s with
  | EmptyString => false
  | String _ s' => includes needle s'
  end.

(** [s.replace(pat, rep)] with a string pattern: only the first
    occurrence is replaced.  The replacement strings used by the program
    contain no [$]. *)
Fixpoint replace (pat rep s : string) : string :=
  if startsWith pat s then rep +:+ drop (String.length pat) s
  else match s with
       | EmptyString => EmptyString
       | String c s' => String c (replace pat rep s')
       end.

(** Longest prefix whose characters satisfy [p], and the rest. *)
Fixpoint span (p : ascii -> bool) (s : string) : string * string :=
  match s with
  | EmptyString => (EmptyString, EmptyString)
  | String c s' =>
      if p c then let (a, b) := span p s' in (String c a, b)
      else (EmptyString, s)
  end.

Fixpoint all (p : ascii -> bool) (s : string) : bool :=
  match s with
  | EmptyString => true
  | String c s' => p c && all p s'
  end.

(** The string without its last character, and that character. *)
Fixpoint unsnoc (s : string) : option (string * ascii) :=
  match s with
  | EmptyString => None
  | String c s' =>
      match unsnoc s' with
      | None => Some (EmptyString, c)
      | Some (i, l) => Some (String c i, l)
      end
  end.

Definition code (c : ascii) : nat := nat_of_ascii c.

Definition between (lo hi : nat) (c : ascii) : bool :=
  Nat.leb lo (code c) && Nat.leb (code c) hi.

(** The regular expression class [\w]: [A-Za-z0-9_]. *)
Definition is_word (c : ascii) : bool :=
  between 65 90 c || between 97 122 c || between 48 57 c || Nat.eqb (code c) 95.

(** Line terminators, which [.] does not match: LF and CR (U+2028 and
    U+2029 are above 255). *)
Definition is_line_terminator (c : ascii) : bool :=
  Nat.eqb (code c) 10 || Nat.eqb (code c) 13.

(** White space removed by [trim]: TAB, LF, VT, FF, CR, SP, NBSP. *)
Definition is_space (c : ascii) : bool :=
  between 9 13 c || Nat.eqb (code c) 32 || Nat.eqb (code c) 160.

Fixpoint trimStart (s : string) : string :=
  match s with
  | EmptyString => EmptyString
  | String c s' => if is_space c then trimStart s' else s
  end.

Fixpoint trimEnd (s : string) : string :=
  match s with
  | EmptyString => EmptyString
  | String c s' =>
      match trimEnd s' with
      | EmptyString => if is_space c then EmptyString else String c EmptyString
      | t => String c t
      end
  end.

(** [String.prototype.trim]. *)
Definition trim (s : string) : string := trimEnd (trimStart s).

Definition is_empty (s : string) : bool :=
  match s with EmptyString => true | _ => false end.

(** The double quote character. *)
Definition dquote : string := String "034"%char EmptyString.

(** A character occurs in a string. *)
Definition occurs (c : ascii) (s : string) : Prop :=
  exists a b, s = a +:+ String c b.

End Str.

(** ** Selector resolution (browser-session.ts, [getLocator]) *)

(** The Playwright locator that [getLocator] builds; building it performs
    no I/O. *)
Inductive Locator : Type :=
| Locator_css (selector : string)                    (* page.locator(selector) *)
| GetByRole (role : string) (name : option string)   (* page.getByRole(role[, {name}]) *)
| GetByTestId (testId : string)                      (* page.getByTestId(..) *)
| GetByPlaceholder (text : string)                   (* page.getByPlaceholder(..) *)
| GetByLabel (text : string)                         (* page.getByLabel(..) *)
| GetByText (text : string).                         (* page.getByText(..) *)

(** [selector.match(/^[.#[]/)]. *)
Definition matchCssLead (selector : string) : bool :=
  match selector with
  | String c _ => Ascii.eqb c "." || Ascii.eqb c "#" || Ascii.eqb c "["
  | EmptyString => false
  end.

(** The name part of the role pattern, matched against what follows the
    role: either nothing, or [\[(.+)\]] up to the end of the string.  [.+]
    is greedy, and the closing bracket must be the last character, so the
    name is everything between the opening bracket and the last character. *)
Definition matchRoleName (rest : string) : option (option string) :=
  match rest with
  | EmptyString => Some None
  | String c body =>
      if Ascii.eqb c "[" then
        match Str.unsnoc body with
        | Some (name, last) =>
            if Ascii.eqb last "]" && negb (Str.is_empty name)
               && Str.all (fun x => negb (Str.is_line_terminator x)) name
            then Some (Some name) else None
        | None => None
        end
      else None
  end.

(** [selector.match(/^role:(\w+)(?:\[(.+)\])?$/)]: the captured role and
    name.  [\w+] is followed by [\[] or the end of the string, neither of
    which is a word character, so the role is the longest run of word
    characters after the prefix. *)
Definition roleMatch (selector : string) : option (string * option string) :=
  if Str.startsWith "role:" selector then
    let (role, rest) := Str.span Str.is_word (Str.drop 5 selector) in
    if Str.is_empty role then None
    else match matchRoleName rest with
         | Some name => Some (role, name)
         | None => None
         end
  else None.

Definition getLocator (selector : string) : Locator :=
  (* 1. CSS selector *)
  if matchCssLead selector || Str.includes ">" selector || Str.includes "+" selector
  then Locator_css selector
  else
    (* 2. Role-based *)
    match roleMatch selector with
    | Some (role, name) =>
        match name with
        | Some n => if Str.is_empty n then GetByRole role None else GetByRole role (Some n)
        | None => GetByRole role None
        end
    | None =>
        (* 3. Test ID *)
        if Str.startsWith "testid:" selector
        then GetByTestId (Str.replace "testid:" "" selector)
        (* 4. Placeholder *)
        else if Str.startsWith "placeholder:" selector
        then GetByPlaceholder (Str.replace "placeholder:" "" selector)
        (* 5. Label *)
        else if Str.startsWith "label:" selector
        then GetByLabel (Str.replace "label:" "" selector)
        (* 6. Text content *)
        else GetByText selector
    end.

(** The shapes of selector that the rules of the resolver describe. *)

(** Rule 1: begins with [.], [#] or [[], or contains [>] or [+]. *)
Definition structural (s : string) : Prop :=
  (exists c t, s = String c t /\ (c = "."%char \/ c = "#"%char \/ c = "["%char))
  \/ Str.occurs ">" s \/ Str.occurs "+" s.

(** Rule 2: [role:<ROLE>] or [role:<ROLE>[<NAME>]], with a role of one or
    more word characters and a non-empty name on one line. *)
Inductive role_form : string -> string -> option string -> Prop :=
| role_plain (r : string) :
    r <> "" -> Str.all Str.is_word r = true ->
    role_form ("role:" +:+ r) r None
| role_named (r n : string) :
    r <> "" -> Str.all Str.is_word r = true ->
    n <> "" -> Str.all (fun x => negb (Str.is_line_terminator x)) n = true ->
    role_form ("role:" +:+ r +:+ "[" +:+ n +:+ "]") r (Some n).

(** Rules 3 to 5: a prefix and the remainder. *)
Definition prefixed (p s t : string) : Prop := s = p +:+ t.

Definition is_role_lookup (l : Locator) : Prop :=
  match l with GetByRole _ _ => True | _ => False end.

(** ** JSON values *)

#[local] Set Warnings "-register-all".

Inductive JsValue : Type :=
| VUndefined
| VNull
| VBool (b : bool)
| VNum (n : Z)
| VStr (s : string)
| VArr (items : list JsValue)
| VObj (props : list (string * JsValue)).

(** JavaScript truthiness, as used by [if (cmd.selector)]. *)
Definition truthy (v : JsValue) : bool :=
  match v with
  | VUndefined | VNull => false
  | VBool b => b
  | VNum n => negb (Z.eqb n 0)
  | VStr s => negb (Str.is_empty s)
  | VArr _ | VObj _ => true
  end.

(** The values that the deep interpolation returns.  Its objects are
    filled by assignments, and the assignment of the key [__proto__] sets
    the prototype: [proto] is [None] for [Object.prototype], and otherwise
    the object or [null] that was assigned.  The prototype of an array is
    [Array.prototype]. *)
Inductive PValue : Type :=
| PUndefined
| PNull
| PBool (b : bool)
| PNum (n : Z)
| PStr (s : string)
| PArr (items : list PValue)
| PObj (proto : option PValue) (props : list (string * PValue)).

(** A JSON value as a value of the interpolation: the same data, every
    object with the prototype [Object.prototype]. *)
Fixpoint embed (v : JsValue) : PValue :=
  match v with
  | VUndefined => PUndefined
  | VNull => PNull
  | VBool b => PBool b
  | VNum n => PNum n
  | VStr s => PStr s
  | VArr items => PArr (map embed items)
  | VObj props => PObj None (map (fun kv => (fst kv, embed (snd kv))) props)
  end.

(** [v[name]] for a [name] that the built-in prototypes do not define: an
    own property, or else the property of the prototype. *)
Fixpoint pget (name : string) (v : PValue) : PValue :=
  match v with
  | PObj proto props =>
      (fix own (l : list (string * PValue)) : PValue :=
         match l with
         | [] => match proto with Some p => pget name p | None => PUndefined end
         | (k, x) :: rest => if String.eqb k name then x else own rest
         end) props
  | _ => PUndefined
  end.

(** ** Secret interpolation (index.ts) *)

(** The VariableStore: the variables of the environment, a flat map from
    names to strings. *)
Abbreviation Env := (gmap string string).

(** The functions that [process.env] inherits from [Object.prototype]. *)
Definition Object_prototype_functions : list string :=
  ["__defineGetter__"; "__defineSetter__"; "hasOwnProperty"; "__lookupGetter__";
   "__lookupSetter__"; "isPrototypeOf"; "propertyIsEnumerable"; "toString"; "valueOf";
   "toLocaleString"].

(** What [process.env] inherits under a name, as a replacement text: the
    source text of a built-in function, and [Object.prototype] itself for
    the accessor [__proto__]. *)
Definition inherited (name : string) : option string :=
  if String.eqb name "constructor" then Some "function Object() { [native code] }"
  else if String.eqb name "__proto__" then Some "[object Object]"
  else if existsb (String.eqb name) Object_prototype_functions
  then Some ("function " +:+ name +:+ "() { [native code] }")
  else None.

(** [process.env[name]], [None] being [undefined]: the variable of this
    name, or else what the object inherits under this name. *)
Definition getenv (env : Env) (name : string) : option string :=
  match env !! name with
  | Some value => Some value
  | None => inherited name
  end.

(** What the global pattern [/\$\{\{([^}]+)\}\}/g] cuts a text into: the
    characters outside the matches, and for each match its capture. *)
Inductive Piece : Type :=
| Lit (c : ascii)
| Hole (varName : string).

(** A match of [\$\{\{([^}]+)\}\}] at the start of [s]: the capture and the
    text after the match.  [[^}]+] is greedy and must be followed by a
    closing brace, so the capture is the longest run without one. *)
Definition matchPlaceholder (s : string) : option (string * string) :=
  if Str.startsWith "${{" s then
    let (varName, rest) := Str.span (fun c => negb (Ascii.eqb c "}")) (Str.drop 3 s) in
    if negb (Str.is_empty varName) && Str.startsWith "}}" rest
    then Some (varName, Str.drop 2 rest)
    else None
  else None.

Definition inspect {A : Type} (a : A) : {b : A | a = b} := exist _ a eq_refl.

(** The matches are found from left to right, each search starting where
    the previous match ended. *)
Equations? scan (s : string) : list Piece by wf (String.length s) lt :=
  scan EmptyString := [];
  scan (String c s') with inspect (matchPlaceholder (String c s')) := {
    | exist _ (Some (varName, rest)) Heq := Hole varName :: scan rest;
    | exist _ None _ := Lit c :: scan s' }.
Proof.
  assert (Hspan : forall p t a b, Str.span p t = (a, b) ->
                    String.length t = String.length a + String.length b).
  { intros p t; induction t as [|x t IH]; intros a b; simpl.
    - intros [= <- <-]; reflexivity.
    - destruct (p x).
      + destruct (Str.span p t) as [a' b'] eqn:E. intros [= <- <-].
        simpl. rewrite (IH a' b' eq_refl). reflexivity.
      + intros [= <- <-]. reflexivity. }
  assert (Hdrop : forall n t, String.length (Str.drop n t) <= String.length t).
  { intros n; induction n as [|n IH]; intros [|x t]; simpl; try lia.
    specialize (IH t); lia. }
  unfold matchPlaceholder in Heq.
  destruct (Str.startsWith "${{" (String c s')); [|discriminate].
  destruct (Str.span _ (Str.drop 3 (String c s'))) as [a b] eqn:E.
  destruct (negb (Str.is_empty a) && Str.startsWith "}}" b); [|discriminate].
  injection Heq as <- <-.
  apply Hspan in E. change (Str.drop 3 (String c s')) with (Str.drop 2 s') in E.
  pose proof (Hdrop 2 s'). pose proof (Hdrop 2 b).
  change (String.length (Str.drop 2 b) < S (String.length s')). lia.
Qed.

(** The error thrown for a name under which [process.env] has nothing. *)
Definition missingVariable (name : string) : string :=
  "Environment variable " +:+ Str.dquote +:+ name +:+ Str.dquote +:+
  " is not defined. Make sure it's set in .env file at repository root".

(** The replacer callback is run on the matches from left to right; the
    first one that throws ends the replacement. *)
Fixpoint substitute (env : Env) (ps : list Piece) : string + string :=
  match ps with
  | [] => inr EmptyString
  | Lit c :: ps' =>
      match substitute env ps' with
      | inr t => inr (String c t)
      | inl e => inl e
      end
  | Hole varName :: ps' =>
      match getenv env (Str.trim varName) with
      | None => inl (missingVariable (Str.trim varName))
      | Some v =>
          match substitute env ps' with
          | inr t => inr (v +:+ t)
          | inl e => inl e
          end
      end
  end.

Definition interpolateSecrets (env : Env) (text : string) : string + string :=
  substitute env (scan text).

(** A loop that maps [f] over a list from left to right and stops at the
    first throw. *)
Section Traverse.
Context {A B : Type} (f : A -> string + B).

Fixpoint traverse (l : list A) : string + list B :=
  match l with
  | [] => inr []
  | x :: l' =>
      match f x with
      | inl e => inl e
      | inr y =>
          match traverse l' with
          | inl e => inl e
          | inr ys => inr (y :: ys)
          end
      end
  end.
End Traverse.

(** [result[key] = value] on the object that the loop fills, given by its
    prototype and its own properties.  The key [__proto__] reaches the
    setter of [Object.prototype], which takes an object or [null] as the new
    prototype and ignores any other value; any other key adds a property. *)
Definition assign (result : option PValue * list (string * PValue)) (key : string)
    (value : PValue) : option PValue * list (string * PValue) :=
  if String.eqb key "__proto__" then
    match value with
    | PNull | PArr _ | PObj _ _ => (Some value, snd result)
    | _ => result
    end
  else (fst result, (snd result ++ [(key, value)])%list).

(** The assignments of the loop, from [const result = {}]. *)
Definition assignments (entries : list (string * PValue)) : PValue :=
  let result := fold_left (fun r kv => assign r (fst kv) (snd kv)) entries (None, []) in
  PObj (fst result) (snd result).

(** Deep interpolation.  [obj.map] and [for (const key in obj)] visit the
    elements and the properties in order, and the first throw ends the
    walk. *)
Fixpoint interpolateSecretsInObject (env : Env) (obj : JsValue) : string + PValue :=
  match obj with
  | VStr s =>
      match interpolateSecrets env s with
      | inr t => inr (PStr t)
      | inl e => inl e
      end
  | VArr items =>
      match traverse (interpolateSecretsInObject env) items with
      | inr ys => inr (PArr ys)
      | inl e => inl e
      end
  | VObj props =>
      match
        traverse (fun kv : string * JsValue =>
                    match interpolateSecretsInObject env (snd kv) with
                    | inr y => inr (fst kv, y)
                    | inl e => inl e
                    end) props
      with
      | inr entries => inr (assignments entries)
      | inl e => inl e
      end
  | VUndefined => inr PUndefined
  | VNull => inr PNull
  | VBool b => inr (PBool b)
  | VNum n => inr (PNum n)
  end.

(** The strings of a value, in the order of the walk. *)
Fixpoint strings_of (v : JsValue) : list string :=
  match v with
  | VStr s => [s]
  | VArr items => flat_map strings_of items
  | VObj props => flat_map (fun kv => strings_of (snd kv)) props
  | _ => []
  end.

(** The variable names of the placeholders of a text, and of a value. *)
Fixpoint names_of_pieces (ps : list Piece) : list string :=
  match ps with
  | [] => []
  | Lit _ :: ps' => names_of_pieces ps'
  | Hole varName :: ps' => Str.trim varName :: names_of_pieces ps'
  end.

Definition placeholders (text : string) : list string := names_of_pieces (scan text).

Definition placeholders_of (v : JsValue) : list string :=
  flat_map placeholders (strings_of v).

(** The first name of a list under which [process.env] has nothing. *)
Fixpoint first_missing (env : Env) (names : list string) : option string :=
  match names with
  | [] => None
  | n :: names' =>
      match getenv env n with
      | None => Some n
      | Some _ => first_missing env names'
      end
  end.

(** *** What the pattern finds, said without the search *)

(** A placeholder starts the text: [${{], a name that is not empty and has
    no closing brace, and [}}]. *)
Definition placeholder_at (s : string) : Prop :=
  exists varName rest,
    s = "${{" +:+ varName +:+ "}}" +:+ rest /\ varName <> "" /\
    Str.all (fun c => negb (Ascii.eqb c "}")) varName = true.

(** No placeholder starts anywhere in the text. *)
Definition no_placeholder (s : string) : Prop :=
  forall a b, s = a +:+ b -> ~ placeholder_at b.

(** In the text [pre ${{varName}} post] the placeholder shown is the first
    match of the pattern: it is a placeholder, and none starts before
    it. *)
Definition first_placeholder (pre varName post : string) : Prop :=
  varName <> "" /\
  Str.all (fun c => negb (Ascii.eqb c "}")) varName = true /\
  forall a b, pre = a +:+ b -> b <> "" ->
    ~ placeholder_at (b +:+ "${{" +:+ varName +:+ "}}" +:+ post).

(** [placeholder_named s n]: the text [s] holds a placeholder for the name
    [n].  The matches of the global pattern are the first one and the
    matches of what follows it. *)
Inductive placeholder_named : string -> string -> Prop :=
| named_first pre varName post :
    first_placeholder pre varName post ->
    placeholder_named (pre +:+ "${{" +:+ varName +:+ "}}" +:+ post) (Str.trim varName)
| named_later pre varName post n :
    first_placeholder pre varName post ->
    placeholder_named post n ->
    placeholder_named (pre +:+ "${{" +:+ varName +:+ "}}" +:+ post) n.

(** [replaced env s t]: [t] is the text [s] with each placeholder replaced
    by what [process.env] has under its name. *)
Inductive replaced (env : Env) : string -> string -> Prop :=
| replaced_none s : no_placeholder s -> replaced env s s
| replaced_first pre varName post value t :
    first_placeholder pre varName post ->
    getenv env (Str.trim varName) = Some value ->
    replaced env post t ->
    replaced env (pre +:+ "${{" +:+ varName +:+ "}}" +:+ post) (pre +:+ value +:+ t).

(** [copy_of env v w]: [w] has the structure of [v], with the same leaves
    except that each string has its placeholders replaced; its objects
    have the keys of those of [v], in their order, and the prototype
    [Object.prototype]. *)
Inductive copy_of (env : Env) : JsValue -> PValue -> Prop :=
| copy_undefined : copy_of env VUndefined PUndefined
| copy_null : copy_of env VNull PNull
| copy_bool b : copy_of env (VBool b) (PBool b)
| copy_num n : copy_of env (VNum n) (PNum n)
| copy_str s t : replaced env s t -> copy_of env (VStr s) (PStr t)
| copy_arr items items' :
    Forall2 (copy_of env) items items' -> copy_of env (VArr items) (PArr items')
| copy_obj props props' :
    Forall2 (fun kv kv' => fst kv = fst kv' /\ copy_of env (snd kv) (snd kv')) props props' ->
    copy_of env (VObj props) (PObj None props').

(** No object of the value has a property named [__proto__]. *)
Fixpoint no_proto_key (v : JsValue) : bool :=
  match v with
  | VArr items => forallb no_proto_key items
  | VObj props =>
      forallb (fun kv => negb (String.eqb (fst kv) "__proto__") && no_proto_key (snd kv)) props
  | _ => true
  end.

(** ** JavaScript conversions used by the handlers *)

Definition dec (n : Z) : string := DecimalString.NilZero.string_of_int (Z.to_int n).

(** [Number::toString] on the Numbers that integer numerals denote. *)
Module Number.

#[local] Open Scope Z_scope.

(** The Number that a numeral [a >= 0] denotes: [a] itself below [2 ^ 53],
    and otherwise the nearest multiple of the unit in the last place of its
    53-bit significand, the even one of two.  [None] is [Infinity]. *)
Definition nearest (a : Z) : option Z :=
  if a <? 2 ^ 53 then Some a
  else
    let u := 2 ^ (Z.log2 a - 52) in
    let q := a / u in
    let r := a mod u in
    let q' := if (u <? 2 * r) || ((u =? 2 * r) && Z.odd q) then q + 1 else q in
    if 2 ^ 1024 <=? q' * u then None else Some (q' * u).

(** The integers that denote the Number [x >= 2 ^ 53]: those between the
    midpoints to its two neighbours, the midpoints included when the
    significand of [x] is even. *)
Definition denotes (x c : Z) : bool :=
  let u := 2 ^ (Z.log2 x - 52) in
  let m := x / u in
  let below := if m =? 2 ^ 52 then u / 2 else u in
  if Z.even m then (2 * x - below <=? 2 * c) && (2 * c <=? 2 * x + u)
  else (2 * x - below <? 2 * c) && (2 * c <? 2 * x + u).

(** The integer with the fewest significant digits that denotes [x], the
    closest to [x] of those, and the even one of two: the multiples of
    [10 ^ p] next to [x] are tried from [p] down to 0. *)
Fixpoint shortest (x : Z) (p : nat) : Z :=
  let pw := 10 ^ Z.of_nat p in
  let down := (x / pw) * pw in
  let up := down + pw in
  let chosen :=
    match denotes x down, denotes x up with
    | true, true =>
        if x - down <? up - x then Some down
        else if up - x <? x - down then Some up
        else if Z.even (down / pw) then Some down else Some up
    | true, false => Some down
    | false, true => Some up
    | false, false => None
    end in
  match chosen, p with
  | Some c, _ => c
  | None, S p' => shortest x p'
  | None, O => x
  end.

Fixpoint strip_zeros (fuel : nat) (c : Z) : Z :=
  match fuel with
  | O => c
  | S fuel' => if (c mod 10 =? 0) && negb (c =? 0) then strip_zeros fuel' (c / 10) else c
  end.

(** The text of an integer [c > 0] given by its shortest digits: all its
    digits below [10 ^ 21], and from there on the exponent form, [1e+21] or
    [1.5e+21]. *)
Definition digits (c : Z) : string :=
  if c <? 10 ^ 21 then dec c
  else
    let n := String.length (dec c) in
    match dec (strip_zeros n c) with
    | String d EmptyString => String d ("e+" +:+ dec (Z.of_nat n - 1))
    | String d rest => String d ("." +:+ rest +:+ "e+" +:+ dec (Z.of_nat n - 1))
    | EmptyString => EmptyString
    end.

Definition unsigned (a : Z) : string :=
  match nearest a with
  | None => "Infinity"
  | Some x => if x <? 2 ^ 53 then dec x else digits (shortest x (String.length (dec x)))
  end.

(** [String(n)] for the Number of the numeral [n]. *)
Definition toString (n : Z) : string :=
  if n <? 0 then "-" +:+ unsigned (- n) else unsigned n.

End Number.

(** [Object.hasOwn(obj, name)]. *)
Definition has_key (name : string) (props : list (string * JsValue)) : bool :=
  existsb (fun kv => String.eqb (fst kv) name) props.

(** The [TypeError] of a conversion to a primitive value. *)
Definition notPrimitive : string := "Cannot convert object to primitive value".

(** [String(v)], the conversion of template literals and of [+] with a
    string, [inl] being a [TypeError].  An object is converted by its
    [toString], which is the one of [Object.prototype] unless the object has
    a property of that name; such a property is JSON data and cannot be
    called, and the [valueOf] that is tried next returns the object itself.
    An array is converted by [join]. *)
Fixpoint toStr (v : JsValue) : string + string :=
  match v with
  | VUndefined => inr "undefined"
  | VNull => inr "null"
  | VBool true => inr "true"
  | VBool false => inr "false"
  | VNum n => inr (Number.toString n)
  | VStr s => inr s
  | VArr items =>
      (fix join (l : list JsValue) : string + string :=
         match l with
         | [] => inr EmptyString
         | x :: l' =>
             match (match x with VUndefined | VNull => inr EmptyString | _ => toStr x end) with
             | inl e => inl e
             | inr s =>
                 match l' with
                 | [] => inr s
                 | _ :: _ =>
                     match join l' with
                     | inl e => inl e
                     | inr t => inr (s +:+ "," +:+ t)
                     end
                 end
             end
         end) items
  | VObj props => if has_key "toString" props then inl notPrimitive else inr "[object Object]"
  end.

(** The values that [String(v)] converts: no object with a property named
    [toString], at the top or among the elements of arrays. *)
Fixpoint printable (v : JsValue) : bool :=
  match v with
  | VArr items => forallb printable items
  | VObj props => negb (has_key "toString" props)
  | _ => true
  end.

Fixpoint lookup_prop (name : string) (props : list (string * JsValue)) : JsValue :=
  match props with
  | [] => VUndefined
  | (k, v) :: rest => if String.eqb k name then v else lookup_prop name rest
  end.

(** The properties of an object; other values have none of those read. *)
Definition props_of (v : JsValue) : list (string * JsValue) :=
  match v with VObj props => props | _ => [] end.

(** [v.length], for a [v] that is neither [null] nor [undefined]. *)
Definition js_length (v : JsValue) : JsValue :=
  match v with
  | VStr s => VNum (Z.of_nat (String.length s))
  | VArr items => VNum (Z.of_nat (length items))
  | VObj props => lookup_prop "length" props
  | _ => VUndefined
  end.

(** [a || b]. *)
Definition js_or (a b : JsValue) : JsValue := if truthy a then a else b.

Definition is_undefined (v : JsValue) : bool :=
  match v with VUndefined => true | _ => false end.

(** ** Commands *)

(** A command is a JSON object, given by its properties: a [type] and the
    parameters of that type. *)
Definition Command : Type := list (string * JsValue).

(** [cmd.name]. *)
Definition prop (name : string) (cmd : Command) : JsValue := lookup_prop name cmd.

(** [case 'name':] of [switch (cmd.type)], a strict equality. *)
Definition type_is (name : string) (cmd : Command) : bool :=
  match prop "type" cmd with
  | VStr t => String.eqb t name
  | _ => false
  end.

(** ** The browser engine *)

(** Browsers, contexts and pages are known by their handles. *)
Definition Handle : Type := nat.

(** What a call is made on. *)
Inductive Receiver : Type :=
| Self                                  (* the page, context or browser itself *)
| Keyboard                              (* page.keyboard *)
| Accessibility                         (* page.accessibility *)
| OnLocator (l : Locator)               (* the locator returned by getLocator *)
| PageLocator (selector : JsValue)      (* page.locator(selector) *)
| PageGetByText (text : JsValue).       (* page.getByText(text) *)

(** The operations asked of the engine. *)
Inductive Event : Type :=
| Launch (browserName : string) (channel : option string) (headless : bool)
| NewContext (browser : Handle) (contextOptions : JsValue)
| NewPage (context : Handle)
| Call (target : Handle) (receiver : Receiver) (method : string) (args : list JsValue).

(** A computation that talks to the engine: it reads the history of events,
    throws or returns, and leaves a longer history. *)
Definition Eng (A : Type) : Type := list Event -> (string + A) * list Event.

Definition ret {A : Type} (a : A) : Eng A := fun h => (inr a, h).

Definition throw {A : Type} (msg : string) : Eng A := fun h => (inl msg, h).

(** A computation that does not talk to the engine. *)
Definition lift {A : Type} (r : string + A) : Eng A := fun h => (r, h).

Definition bind {A B : Type} (m : Eng A) (k : A -> Eng B) : Eng B :=
  fun h =>
    match m h with
    | (inr a, h') => k a h'
    | (inl e, h') => (inl e, h')
    end.

(** [try { m } catch (error) { handler(error.message) }]. *)
Definition try_catch {A : Type} (m : Eng A) (handler : string -> Eng A) : Eng A :=
  fun h =>
    match m h with
    | (inr a, h') => (inr a, h')
    | (inl e, h') => handler e h'
    end.

Notation "'do' x <- m ; k" := (bind m (fun x => k))
  (at level 10, x name, m at level 100, k at level 200, only parsing).
Notation "'perform' m ; k" := (bind m (fun _ => k))
  (at level 10, m at level 100, k at level 200, only parsing).

(** ** Results *)

(** An entry of the [results] of browser-session:
    [{ step, type, success: true, result }] or
    [{ step, type, success: false, error }]. *)
Inductive StepOutcome : Type :=
| StepOk (step : nat) (type : JsValue) (result : JsValue)
| StepFailed (step : nat) (type : JsValue) (error : string).



Definition outcome_success (o : StepOutcome) : bool :=
  match o with StepOk _ _ _ => true | StepFailed _ _ _ => false end.

(** The [structuredContent] that browser-session returns. *)
Record SessionResult : Type := {
  totalCommands : nat;
  succeeded : nat;
  failed : nat;
  finalUrl : JsValue;
  finalTitle : JsValue;
  pageSnapshot : JsValue;
  results : list StepOutcome
}.

(** An entry of the [results] of execute-shortcut:
    [{ step: i + 1, command: cmd.type, ...result }]. *)
Record ShortcutStep : Type := {
  shortcut_step : nat;
  shortcut_command : JsValue;
  shortcut_payload : JsValue
}.

(** A content item: a text, or the text [JSON.stringify(data, null, 2)]. *)
Inductive Content : Type :=
| Text (text : string)
| JsonText (data : JsValue).

Record CallToolResult : Type := {
  content : list Content;
  structuredContent : option JsValue;
  isError : option bool
}.

(** [ActionRunResult = void | string | ActionResponse | CallToolResult];
    the last two are objects, told apart by their [content] array. *)
Inductive ActionRunResult : Type :=
| RunVoid
| RunString (s : string)
| RunObject (message : option string) (content : option (list Content))
            (structuredContent : option JsValue) (isError : option bool).

(** ** Actions and the server *)

Record ActionContext : Type := {
  ctx_input : PValue;
  ctx_browser : Handle;
  ctx_context : Handle;
  ctx_page : Handle
}.

Record PlaywrightActionDefinition : Type := {
  name : string;
  browser : option string;
  headless : option bool;
  contextOptions : JsValue;
  run : ActionContext -> Eng ActionRunResult
}.

(** The module variables [persistentBrowser], [persistentContext] and
    [persistentPage], and the engine history. *)
Record ServerState : Type := {
  persistentBrowser : option Handle;
  persistentContext : option Handle;
  persistentPage : option Handle;
  history : list Event
}.

(** The three references of a state. *)
Definition session_of (s : ServerState) : option Handle * option Handle * option Handle :=
  (persistentBrowser s, persistentContext s, persistentPage s).

Definition unallocated : option Handle * option Handle * option Handle := (None, None, None).

(** [String.prototype.toLowerCase] on the letters A to Z; the result is
    compared with words of these letters only. *)
Definition lower_char (c : ascii) : ascii :=
  if Str.between 65 90 c then ascii_of_nat (Str.code c + 32) else c.

Fixpoint toLowerCase (s : string) : string :=
  match s with
  | EmptyString => EmptyString
  | String c s' => String (lower_char c) (toLowerCase s')
  end.

Definition toolError (message : string) : CallToolResult :=
  {| content := [Text message]; structuredContent := None; isError := Some true |}.

Definition normalizeActionResult (actionName : string) (result : ActionRunResult) : CallToolResult :=
  match result with
  | RunVoid =>
      {| content := [Text (actionName +:+ " completed.")];
         structuredContent := None; isError := None |}
  | RunString s =>
      if Str.is_empty s
      then {| content := [Text (actionName +:+ " completed.")];
              structuredContent := None; isError := None |}
      else {| content := [Text s]; structuredContent := None; isError := None |}
  | RunObject _ (Some c) sc ie =>
      (* isCallToolResult: returned as it is *)
      {| content := c; structuredContent := sc; isError := ie |}
  | RunObject message None sc ie =>
      let content :=
        match message with
        | Some m => if Str.is_empty m then [] else [Text m]
        | None => []
        end in
      let content :=
        match content with
        | [] => [Text (actionName +:+ " finished.")]
        | _ => content
        end in
      {| content := content; structuredContent := sc; isError := ie |}
  end.

(** The result of the [catch] of [runAction]. *)
Definition actionFailed (actionName message : string) : CallToolResult :=
  {| content := [Text ("Action " +:+ actionName +:+ " failed: " +:+ message)];
     structuredContent := None; isError := Some true |}.


(** The command types with a [case] in execute-shortcut. *)
Definition shortcut_types : list string :=
  ["navigate"; "click"; "fill"; "type"; "press_key"; "wait_for_selector";
   "wait_for_text"; "wait_for_timeout"; "screenshot"; "get_text"; "get_url";
   "get_title"].

(** ** Command-line options (index.ts, [parseCliOptions]) *)

Module Cli.

(** The variables of the loop; [actionRoot] and [baseDir] may be
    [undefined]. *)
Record Variables : Type := {
  var_actionRoot : option string;
  var_baseDir : option string;
  var_verbose : bool;
  var_headless : bool;
  var_browser : string
}.

(** [CliOptions]. *)
Record CliOptions : Type := {
  actionRoot : string;
  baseDir : string;
  verbose : bool;
  headless : bool;
  browser : string
}.

(** The functions of [node:path] and [process.cwd()], which are external. *)
Record Path : Type := {
  resolve : list string -> string;
  isAbsolute : string -> bool;
  normalize : string -> string;
  join : list string -> string;
  cwd : string
}.

Definition actionAliases : list string := ["--actions"; "--actions-dir"; "--workspace"; "-a"].
Definition baseAliases : list string := ["--base"; "--repo"; "--project"; "--working-dir"; "-C"].
Definition verboseAliases : list string := ["--verbose"; "-v"].
Definition headlessAliases : list string := ["--headless"; "-h"].
Definition browserAliases : list string := ["--browser"; "-b"].

(** [aliases.includes(key)]. *)
Definition includes (aliases : list string) (key : string) : bool :=
  existsb (String.eqb key) aliases.

Definition not_equals_sign (c : ascii) : bool := negb (Ascii.eqb c "=").

(** [arg.split('=', 2)], destructured as [[key, valueFromAssignment]]: the
    text before the first [=], and the text between the first [=] and the
    second one, or [undefined] when the argument has no [=]. *)
Definition splitAssignment (arg : string) : string * option string :=
  let (key, rest) := Str.span not_equals_sign arg in
  match rest with
  | EmptyString => (key, None)
  | String _ rest' => (key, Some (fst (Str.span not_equals_sign rest')))
  end.

(** [a ?? b]. *)
Definition nullish (a b : option string) : option string :=
  match a with Some v => Some v | None => b end.

(** [process.env.NAME === '1']. *)
Definition is_1 (value : option string) : bool :=
  match value with Some v => String.eqb v "1" | None => false end.

(** The variables before the loop, read from the environment. *)
Definition initial (env : Env) : Variables :=
  {| var_actionRoot := nullish (env !! "PLAYWRIGHIUM_ACTIONS_DIR") (env !! "PLAYWRIGHIUM_ROOT");
     var_baseDir := nullish (env !! "PLAYWRIGHIUM_BASE_DIR") (env !! "PLAYWRIGHIUM_PROJECT");
     var_verbose := is_1 (env !! "PLAYWRIGHIUM_VERBOSE");
     var_headless := is_1 (env !! "PLAYWRIGHIUM_HEADLESS");
     var_browser := match env !! "PLAYWRIGHIUM_BROWSER" with Some b => b | None => "chromium" end |}.

Definition set_actionRoot (value : string) (o : Variables) : Variables :=
  {| var_actionRoot := Some value; var_baseDir := var_baseDir o; var_verbose := var_verbose o;
     var_headless := var_headless o; var_browser := var_browser o |}.

Definition set_baseDir (value : string) (o : Variables) : Variables :=
  {| var_actionRoot := var_actionRoot o; var_baseDir := Some value; var_verbose := var_verbose o;
     var_headless := var_headless o; var_browser := var_browser o |}.

Definition set_verbose (o : Variables) : Variables :=
  {| var_actionRoot := var_actionRoot o; var_baseDir := var_baseDir o; var_verbose := true;
     var_headless := var_headless o; var_browser := var_browser o |}.

Definition set_headless (o : Variables) : Variables :=
  {| var_actionRoot := var_actionRoot o; var_baseDir := var_baseDir o; var_verbose := var_verbose o;
     var_headless := true; var_browser := var_browser o |}.

Definition set_browser (value : string) (o : Variables) : Variables :=
  {| var_actionRoot := var_actionRoot o; var_baseDir := var_baseDir o; var_verbose := var_verbose o;
     var_headless := var_headless o; var_browser := value |}.

(** [if (value) { x = value; }]. *)
Definition assign (set : string -> Variables -> Variables) (value : string) (o : Variables)
    : Variables :=
  if Str.is_empty value then o else set value o.

(** [for (let i = 0; i < args.length; i++)], from the argument at [i].  An
    option that takes a value and has no [=] reads [args[++i]]: the next
    argument is consumed, and there is none after the last one. *)
Fixpoint parseArgs (args : list string) (o : Variables) : Variables :=
  match args with
  | [] => o
  | arg :: rest =>
      let (key, valueFromAssignment) := splitAssignment arg in
      let taking (set : string -> Variables -> Variables) : Variables :=
        match valueFromAssignment with
        | Some value => parseArgs rest (assign set value o)
        | None =>
            match rest with
            | value :: rest' => parseArgs rest' (assign set value o)
            | [] => o
            end
        end in
      if includes actionAliases key then taking set_actionRoot
      else if includes baseAliases key then taking set_baseDir
      else if includes verboseAliases key then parseArgs rest (set_verbose o)
      else if includes headlessAliases key then parseArgs rest (set_headless o)
      else if includes browserAliases key then taking set_browser
      else parseArgs rest o
  end.

Definition parseCliOptions (path : Path) (env : Env) (args : list string) : CliOptions :=
  let o := parseArgs args (initial env) in
  let resolvedBase :=
    resolve path [match var_baseDir o with Some b => b | None => cwd path end] in
  let resolvedActions :=
    match var_actionRoot o with
    | Some a =>
        if negb (Str.is_empty a) then
          if isAbsolute path a then normalize path a else resolve path [resolvedBase; a]
        else join path [resolvedBase; ".playwright-mcp"]
    | None => join path [resolvedBase; ".playwright-mcp"]
    end in
  {| actionRoot := resolvedActions; baseDir := resolvedBase;
     verbose := var_verbose o; headless := var_headless o; browser := var_browser o |}.

(** The key of an argument is one of the aliases. *)
Definition is_alias (key : string) : bool :=
  includes actionAliases key || includes baseAliases key || includes verboseAliases key
  || includes headlessAliases key || includes browserAliases key.

(** A stand-in for [node:path] on plain POSIX paths, for the examples. *)
Definition posix : Path :=
  {| resolve := fun parts => String.concat "/" parts;
     isAbsolute := Str.startsWith "/";
     normalize := fun p => p;
     join := fun parts => String.concat "/" parts;
     cwd := "/repo" |}.

End Cli.

(** ** The seed command (index.ts, [handleSeedCommand]) *)

Module Seed.

Inductive LoopType : Type := copilot | claude.

Definition loop_name (t : LoopType) : string :=
  match t with copilot => "copilot" | claude => "claude" end.

(** [value === 'copilot' || value === 'claude']. *)
Definition loop_of (value : option string) : option LoopType :=
  match value with
  | Some v =>
      if String.eqb v "copilot" then Some copilot
      else if String.eqb v "claude" then Some claude
      else None
  | None => None
  end.

(** "Parse --loop argument": the loop over [args], from the argument at
    [i].  [arg.split('=')[1]] is the text between the first two [=]. *)
Fixpoint parseLoop (args : list string) (loopType : option LoopType) : option LoopType :=
  match args with
  | [] => loopType
  | arg :: rest =>
      if Str.startsWith "--loop=" arg then
        match loop_of (snd (Cli.splitAssignment arg)) with
        | Some t => parseLoop rest (Some t)
        | None => parseLoop rest loopType
        end
      else if String.eqb arg "--loop" then
        match rest with
        | value :: rest' =>
            match loop_of (Some value) with
            | Some t => parseLoop rest' (Some t)      (* i++ *)
            | None => parseLoop rest loopType
            end
        | [] => loopType
        end
      else parseLoop rest loopType
  end.

(** What [handleSeedCommand] seeds, or the exit with status 1 when no loop
    type was given. *)
Definition seedTarget (args : list string) : option LoopType := parseLoop args None.

End Seed.

(** ** Prompts (index.ts, [registerPrompts]) *)

Module Prompt.

(** [GetSubstitution] for a string pattern, which has no captures: in the
    replacement text [$$] is a dollar, [$&] the matched text, [$`] the text
    before the match and [$'] the text after it; any other [$] stands for
    itself. *)
Fixpoint getSubstitution (matched before after replacement : string) : string :=
  match replacement with
  | EmptyString => EmptyString
  | String c r =>
      if Ascii.eqb c "$" then
        match r with
        | EmptyString => String c EmptyString
        | String d r' =>
            if Ascii.eqb d "$" then String "$" (getSubstitution matched before after r')
            else if Ascii.eqb d "&" then matched +:+ getSubstitution matched before after r'
            else if Ascii.eqb d "`" then before +:+ getSubstitution matched before after r'
            else if Ascii.eqb d "'" then after +:+ getSubstitution matched before after r'
            else String c (getSubstitution matched before after r)
        end
      else String c (getSubstitution matched before after r)
  end.

(** [s.replace(pattern, replacement)] with two strings: the first
    occurrence of the pattern is replaced, [before] being the text already
    passed. *)
Fixpoint replaceFrom (pattern replacement before s : string) : string :=
  if Str.startsWith pattern s then
    let after := Str.drop (String.length pattern) s in
    before +:+ getSubstitution pattern before after replacement +:+ after
  else match s with
       | EmptyString => before
       | String c s' => replaceFrom pattern replacement (before +:+ String c EmptyString) s'
       end.

(** The text of the prompts [create-shortcut] and [create-script]:
    [template.replace('{{task}}', task)]. *)
Definition promptText (template task : string) : string :=
  replaceFrom "{{task}}" task EmptyString template.

End Prompt.

(** ** An example engine *)

(** A page on which [#go] is absent, so every call on a locator of [#go]
    times out, and whose [goto] refuses a URL that is not a string. *)
Module Example.

Definition is_go (selector : JsValue) : bool :=
  match selector with
  | VStr s => String.eqb s "#go"
  | _ => false
  end.

Definition on_go (receiver : Receiver) : bool :=
  match receiver with
  | OnLocator (Locator_css s) => String.eqb s "#go"
  | PageLocator selector => is_go selector
  | _ => false
  end.

Definition engine (h : list Event) (e : Event) : string + JsValue :=
  match e with
  | Call _ receiver method args =>
      if on_go receiver then inl "Timeout 30000ms exceeded."
      else if String.eqb method "goto" then
        match args with
        | VStr _ :: _ => inr VNull
        | _ => inl "page.goto: url: expected string, got undefined"
        end
      else if String.eqb method "url" then inr (VStr "https://a.test/")
      else if String.eqb method "title" then inr (VStr "A")
      else inr VUndefined
  | _ => inr VUndefined
  end.

(** Handles are numbered by the length of the history. *)
Definition create (h : list Event) (e : Event) : string + Handle := inr (length h).

Definition now (h : list Event) : Z := 0%Z.

Definition env : Env := {[ "HOST" := "h"; "PASSWORD" := "p$&${{HOST}} \ %" ]}.

Definition playwright_member (n : string) : bool :=
  String.eqb n "chromium" || String.eqb n "firefox" || String.eqb n "webkit".

(** The commands of the login scenario. *)
Definition login : list Command :=
  [ [("type", VStr "navigate"); ("url", VStr "https://a.test")];
    [("type", VStr "fill"); ("selector", VStr "#u"); ("value", VStr "bob")];
    [("type", VStr "click"); ("selector", VStr "#go")] ].

(** Every path leads to the shortcut file of the login scenario. *)
Definition shortcut_file (path : PValue) : string + string * string :=
  inr (".playwright-mcp/shortcuts/login.yaml", "commands: (login at ${{HOST}})").

Definition yaml_commands (text : string) : string + option (list Command) :=
  inr (Some login).


(** Arguments with a placeholder of a name without a value. *)
Definition secret_args : JsValue :=
  VObj [("commands",
         VArr [VObj [("type", VStr "fill"); ("selector", VStr "#u");
                     ("value", VStr "${{TOKEN}}")]])].

(** Arguments with a placeholder of a name that is no variable, and that
    [process.env] inherits. *)
Definition inherited_args : JsValue :=
  VObj [("commands",
         VArr [VObj [("type", VStr "fill"); ("selector", VStr "#u");
                     ("value", VStr "${{toString}}")]])].

(** Arguments with a command that has a property named [__proto__]. *)
Definition proto_args : JsValue :=
  VObj [("commands",
         VArr [VObj [("type", VStr "get_url"); ("__proto__", VStr "${{HOST}}")]])].

(** The history that the first two commands of the login scenario leave
    under execute-shortcut, and the history after the failed click. *)
Definition login_history : list Event :=
  [Call 2 Self "goto" [VStr "https://a.test"; VObj [("waitUntil", VStr "load")]];
   Call 2 Self "url" [];
   Call 2 (PageLocator (VStr "#u")) "fill" [VStr "bob"]].

Definition login_failed : list Event :=
  (login_history ++ [Call 2 (PageLocator (VStr "#go")) "click" []])%list.

(** A state with the session of handles 0, 1 and 2. *)
Definition running : ServerState :=
  {| persistentBrowser := Some 0; persistentContext := Some 1;
     persistentPage := Some 2; history := [] |}.

(** A state without a session. *)
Definition idle : ServerState :=
  {| persistentBrowser := None; persistentContext := None;
     persistentPage := None; history := [] |}.

(** An action that clicks on [#go], and so throws. *)
Definition failing (engine : list Event -> Event -> string + JsValue)
    : PlaywrightActionDefinition :=
  {| name := "click-go"; browser := None; headless := None; contextOptions := VUndefined;
     run := fun ctx =>
       bind (fun h => let e := Call (ctx_page ctx) (PageLocator (VStr "#go")) "click" [] in
                      (engine h e, (h ++ [e])%list))
            (fun _ => ret RunVoid) |}.

(** An action that answers with the [value] of its first command. *)
Definition echo : PlaywrightActionDefinition :=
  {| name := "echo"; browser := None; headless := None; contextOptions := VUndefined;
     run := fun ctx =>
       ret (match pget "commands" (ctx_input ctx) with
            | PArr (cmd :: _) =>
                match pget "value" cmd with
                | PStr value => RunString value
                | _ => RunVoid
                end
            | _ => RunVoid
            end) |}.

End Example.

(** ** The runners and the server, over an arbitrary engine *)

Section Engine.

(* A proof depends on the variables of its statement only. *)
#[local] Set Default Proof Using "Type".

(** What a call returns or throws, given the history before it. *)
Variable engine : list Event -> Event -> string + JsValue.
(** What a launch, [newContext] or [newPage] returns or throws. *)
Variable create : list Event -> Event -> string + Handle.
(** [Date.now()]. *)
Variable now : list Event -> Z.
(** [process.env]. *)
Variable env : Env.
(** [yaml.parse] followed by the test of [shortcutData.commands]: a parse
    error, no [commands] array, or the commands. *)
Variable yaml_commands : string -> string + option (list Command).
(** The shortcut file of a path: the resolved path when no such file
    exists, or the resolved path and the text of the file. *)
Variable shortcut_file : PValue -> string + string * string.
(** The names [n] for which [playwright[n]] is defined. *)
Variable playwright_member : string -> bool.
(** [CLI_OPTIONS.browser] and [HEADLESS]. *)
Variable CLI_browser : string.
Variable HEADLESS : bool.

(* Propositional reasoning that leaves the oracles alone. *)
Ltac logic :=
  try clear engine; try clear create; try clear now; try clear yaml_commands;
  try clear shortcut_file; try clear playwright_member; try clear CLI_browser;
  try clear HEADLESS; tauto.

Definition call (target : Handle) (receiver : Receiver) (method : string)
    (args : list JsValue) : Eng JsValue :=
  fun h => let e := Call target receiver method args in (engine h e, (h ++ [e])%list).

Definition spawn (e : Event) : Eng Handle :=
  fun h => (create h e, (h ++ [e])%list).

Definition date_now : Eng Z := fun h => (inr (now h), h).

(** [await getLocator(page, selector)]: [selector.match] exists on strings
    only. *)
Definition locator_of (selector : JsValue) : Eng Locator :=
  match selector with
  | VStr s => ret (getLocator s)
  | _ => throw "selector.match is not a function"
  end.

(** *** browser-session.ts *)

(** The [switch (cmd.type)] of browser-session: the value of [result]
    when the statement completes. *)
Definition dispatch (page : Handle) (cmd : Command) : Eng JsValue :=
  let selector := prop "selector" cmd in
  let value := prop "value" cmd in
  if type_is "navigate" cmd then
    perform call page Self "goto" [prop "url" cmd];
    perform call page Self "waitForLoadState" [VStr "networkidle"];
    do url <- call page Self "url" [];
    ret (VObj [("url", url)])
  else if type_is "navigate_back" cmd then
    perform call page Self "goBack" [];
    perform call page Self "waitForLoadState" [VStr "networkidle"];
    do url <- call page Self "url" [];
    ret (VObj [("url", url)])
  else if type_is "click" cmd then
    if truthy selector then
      do locator <- locator_of selector;
      perform call page (OnLocator locator) "click"
        [VObj [("button", prop "button" cmd); ("clickCount", prop "clickCount" cmd)]];
      ret (VObj [("clicked", selector)])
    else ret VUndefined
  else if type_is "type" cmd then
    if truthy selector && truthy value then
      do locator <- locator_of selector;
      perform call page (OnLocator locator) "pressSequentially"
        [value; VObj [("delay", VNum 50)]];
      do length <- lift (toStr (js_length value));
      ret (VObj [("typed", VStr (length +:+ " characters"))])
    else ret VUndefined
  else if type_is "fill" cmd then
    if truthy selector && negb (is_undefined value) then
      do locator <- locator_of selector;
      perform call page (OnLocator locator) "fill" [value];
      ret (VObj [("filled", selector)])
    else ret VUndefined
  else if type_is "press_key" cmd then
    if truthy (prop "key" cmd) then
      perform call page Keyboard "press" [prop "key" cmd];
      ret (VObj [("pressed", prop "key" cmd)])
    else ret VUndefined
  else if type_is "hover" cmd then
    if truthy selector then
      do locator <- locator_of selector;
      perform call page (OnLocator locator) "hover" [];
      ret (VObj [("hovered", selector)])
    else ret VUndefined
  else if type_is "select_option" cmd then
    if truthy selector && truthy value then
      perform call page Self "selectOption" [selector; value];
      ret (VObj [("selected", value)])
    else ret VUndefined
  else if type_is "drag" cmd then
    if truthy selector && truthy (prop "targetSelector" cmd) then
      perform call page Self "dragAndDrop" [selector; prop "targetSelector" cmd];
      do source <- lift (toStr selector);
      do target <- lift (toStr (prop "targetSelector" cmd));
      ret (VObj [("dragged", VStr (source +:+ " to " +:+ target))])
    else ret VUndefined
  else if type_is "wait_for_text" cmd then
    if truthy (prop "text" cmd) then
      perform call page (PageGetByText (prop "text" cmd)) "waitFor"
        [VObj [("timeout", prop "timeout" cmd)]];
      ret (VObj [("found", prop "text" cmd)])
    else ret VUndefined
  else if type_is "wait_for_timeout" cmd then
    perform call page Self "waitForTimeout" [js_or (prop "timeout" cmd) (VNum 1000)];
    (* cmd.timeout || 1000 + 'ms' *)
    ret (VObj [("waited", js_or (prop "timeout" cmd) (VStr "1000ms"))])
  else if type_is "wait_for_selector" cmd then
    if truthy selector then
      perform call page Self "waitForSelector"
        [selector; VObj [("timeout", prop "timeout" cmd)]];
      ret (VObj [("found", selector)])
    else ret VUndefined
  else if type_is "screenshot" cmd then
    do screenshotPath <-
      (if truthy (prop "path" cmd) then ret (prop "path" cmd)
       else do t <- date_now;
            ret (VStr (".playwright-mcp/screenshot-" +:+ Number.toString t +:+ ".png")));
    perform call page Self "screenshot"
      [VObj [("path", screenshotPath); ("fullPage", prop "fullPage" cmd)]];
    (* logger(`Saved to: ${screenshotPath}`) *)
    perform lift (toStr screenshotPath);
    ret (VObj [("screenshot", screenshotPath)])
  else if type_is "evaluate" cmd then
    if truthy (prop "script" cmd) then
      call page Self "evaluate" [prop "script" cmd]
    else ret VUndefined
  else if type_is "get_text" cmd then
    if truthy selector then
      do locator <- locator_of selector;
      do text <- call page (OnLocator locator) "textContent" [];
      (* logger(`Text: ${result.text}`) *)
      perform lift (toStr text);
      ret (VObj [("text", text)])
    else ret VUndefined
  else if type_is "get_attribute" cmd then
    if truthy selector && truthy (prop "attribute" cmd) then
      do locator <- locator_of selector;
      (* the computed key [cmd.attribute] is converted before the call *)
      do key <- lift (toStr (prop "attribute" cmd));
      do a <- call page (OnLocator locator) "getAttribute" [prop "attribute" cmd];
      (* logger(`${cmd.attribute}: ${result[cmd.attribute]}`) *)
      perform lift (toStr a);
      ret (VObj [(key, a)])
    else ret VUndefined
  else if type_is "check" cmd then
    if truthy selector then
      do locator <- locator_of selector;
      perform call page (OnLocator locator) "check" [];
      ret (VObj [("checked", selector)])
    else ret VUndefined
  else if type_is "uncheck" cmd then
    if truthy selector then
      do locator <- locator_of selector;
      perform call page (OnLocator locator) "uncheck" [];
      ret (VObj [("unchecked", selector)])
    else ret VUndefined
  else if type_is "upload_file" cmd then
    if truthy selector && truthy (prop "files" cmd) then
      perform call page Self "setInputFiles" [selector; prop "files" cmd];
      do length <- lift (toStr (js_length (prop "files" cmd)));
      ret (VObj [("uploaded", VStr (length +:+ " file(s)"))])
    else ret VUndefined
  else if type_is "clear" cmd then
    if truthy selector then
      do locator <- locator_of selector;
      perform call page (OnLocator locator) "clear" [];
      ret (VObj [("cleared", selector)])
    else ret VUndefined
  else if type_is "scroll" cmd then
    perform call page Self "evaluate"
      [VStr "({ x, y }) => { window.scrollTo(x || 0, y || 0); }";
       VObj [("x", js_or (prop "x" cmd) (VNum 0)); ("y", js_or (prop "y" cmd) (VNum 0))]];
    ret (VObj [("scrolled", VObj [("x", prop "x" cmd); ("y", prop "y" cmd)])])
  else if type_is "reload" cmd then
    perform call page Self "reload" [];
    perform call page Self "waitForLoadState" [VStr "networkidle"];
    do url <- call page Self "url" [];
    ret (VObj [("reloaded", url)])
  else if type_is "get_url" cmd then
    do url <- call page Self "url" [];
    (* logger(`URL: ${result.url}`) *)
    perform lift (toStr url);
    ret (VObj [("url", url)])
  else if type_is "get_title" cmd then
    do title <- call page Self "title" [];
    (* logger(`Title: ${result.title}`) *)
    perform lift (toStr title);
    ret (VObj [("title", title)])
  else
    (* the switch has no default case *)
    ret VUndefined.

(** One turn of the loop: the [try] pushes a success, the [catch] pushes
    the failure with the message of the error, and nothing is rethrown. *)
Definition step (page : Handle) (stepNumber : nat) (cmd : Command) : Eng StepOutcome :=
  try_catch
    (do result <- dispatch page cmd;
     ret (StepOk stepNumber (prop "type" cmd) result))
    (fun errorMsg => ret (StepFailed stepNumber (prop "type" cmd) errorMsg)).

(** The [TypeError] of [v.name] for a [v] that is [null] or [undefined]. *)
Definition cannotRead (v name : string) : string :=
  "Cannot read properties of " +:+ v +:+ " (reading '" +:+ name +:+ "')".

(** The heading of a turn, which is logged before the [try]:
    [cmd.description || `${cmd.type} ${cmd.selector || cmd.url || ''}`.trim()],
    converted by the template literal of the logger. *)
Definition heading (cmd : JsValue) : string + string :=
  match cmd with
  | VUndefined => inl (cannotRead "undefined" "description")
  | VNull => inl (cannotRead "null" "description")
  | _ =>
      let cmd := props_of cmd in
      if truthy (prop "description" cmd) then toStr (prop "description" cmd)
      else
        match toStr (prop "type" cmd) with
        | inl e => inl e
        | inr type =>
            match toStr (js_or (js_or (prop "selector" cmd) (prop "url" cmd)) (VStr "")) with
            | inl e => inl e
            | inr target => inr (Str.trim (type +:+ " " +:+ target))
            end
        end
  end.


(** [for (const cmd of input.commands)], from a given [stepNumber] and
    [results].  The heading is logged outside the [try]: what it throws
    ends the loop and the run. *)
Fixpoint runCommands (page : Handle) (commands : list JsValue) (stepNumber : nat)
    (results : list StepOutcome) : Eng (list StepOutcome) :=
  match commands with
  | [] => ret results
  | cmd :: rest =>
      perform lift (heading cmd);
      do entry <- step page (S stepNumber) (props_of cmd);
      runCommands page rest (S stepNumber) (results ++ [entry])%list
  end.

(** What [browserSession.run] does after the loop.  The returned
    [message] is left out; the reads of the page that build it and their
    conversions are kept. *)
Definition session_summary (page : Handle) (results : list StepOutcome) : Eng SessionResult :=
  let successCount := length (List.filter outcome_success results) in
  do snapshot <- call page Accessibility "snapshot" [];
  do url <- call page Self "url" [];
  perform lift (toStr url);
  do title <- call page Self "title" [];
  perform lift (toStr title);
  do finalUrl <- call page Self "url" [];
  do finalTitle <- call page Self "title" [];
  ret {| totalCommands := length results;
         succeeded := successCount;
         failed := length results - successCount;
         finalUrl := finalUrl;
         finalTitle := finalTitle;
         pageSnapshot := snapshot;
         results := results |}.

(** [browserSession.run] on the elements of [input.commands], which are
    JSON values: the prototype of a command that is an object is
    [Object.prototype]. *)
Definition browserSession_run (page : Handle) (commands : list JsValue) : Eng SessionResult :=
  do results <- runCommands page commands 0 [];
  session_summary page results.

(** The parameters that the handler of a command type cannot do without:
    those it tests before it acts, and the [url] of [navigate], which it
    asserts ([cmd.url!]). *)
Definition required_params (type : string) : list string :=
  if String.eqb type "navigate" then ["url"]
  else if String.eqb type "click" then ["selector"]
  else if String.eqb type "type" then ["selector"; "value"]
  else if String.eqb type "fill" then ["selector"; "value"]
  else if String.eqb type "press_key" then ["key"]
  else if String.eqb type "hover" then ["selector"]
  else if String.eqb type "select_option" then ["selector"; "value"]
  else if String.eqb type "drag" then ["selector"; "targetSelector"]
  else if String.eqb type "wait_for_text" then ["text"]
  else if String.eqb type "wait_for_selector" then ["selector"]
  else if String.eqb type "evaluate" then ["script"]
  else if String.eqb type "get_text" then ["selector"]
  else if String.eqb type "get_attribute" then ["selector"; "attribute"]
  else if String.eqb type "check" then ["selector"]
  else if String.eqb type "uncheck" then ["selector"]
  else if String.eqb type "upload_file" then ["selector"; "files"]
  else if String.eqb type "clear" then ["selector"]
  else [].


(** *** execute-shortcut.ts *)

(** The [switch (cmd.type)] of execute-shortcut. *)
Definition shortcut_dispatch (page : Handle) (cmd : Command) : Eng JsValue :=
  let selector := prop "selector" cmd in
  if type_is "navigate" cmd then
    perform call page Self "goto"
      [prop "url" cmd; VObj [("waitUntil", js_or (prop "waitUntil" cmd) (VStr "load"))]];
    do url <- call page Self "url" [];
    ret (VObj [("url", url)])
  else if type_is "click" cmd then
    perform call page (PageLocator selector) "click" [];
    ret (VObj [("clicked", selector)])
  else if type_is "fill" cmd then
    perform call page (PageLocator selector) "fill" [prop "value" cmd];
    ret (VObj [("filled", selector)])
  else if type_is "type" cmd then
    perform call page (PageLocator selector) "pressSequentially"
      [prop "value" cmd; VObj [("delay", js_or (prop "delay" cmd) (VNum 100))]];
    ret (VObj [("typed", selector)])
  else if type_is "press_key" cmd then
    perform call page Keyboard "press" [prop "key" cmd];
    ret (VObj [("pressed", prop "key" cmd)])
  else if type_is "wait_for_selector" cmd then
    perform call page Self "waitForSelector"
      [selector; VObj [("timeout", prop "timeout" cmd)]];
    ret (VObj [("found", selector)])
  else if type_is "wait_for_text" cmd then
    do text <- lift (toStr (prop "text" cmd));
    perform call page Self "waitForSelector"
      [VStr ("text=" +:+ text); VObj [("timeout", prop "timeout" cmd)]];
    ret (VObj [("found", prop "text" cmd)])
  else if type_is "wait_for_timeout" cmd then
    perform call page Self "waitForTimeout" [prop "duration" cmd];
    do duration <- lift (toStr (prop "duration" cmd));
    ret (VObj [("waited", VStr (duration +:+ "ms"))])
  else if type_is "screenshot" cmd then
    do screenshotPath <-
      (if truthy (prop "path" cmd) then ret (prop "path" cmd)
       else do t <- date_now; ret (VStr ("screenshot-" +:+ Number.toString t +:+ ".png")));
    perform call page Self "screenshot"
      [VObj [("path", screenshotPath); ("fullPage", prop "fullPage" cmd)]];
    ret (VObj [("screenshot", screenshotPath)])
  else if type_is "get_text" cmd then
    do text <- call page (PageLocator selector) "textContent" [];
    ret (VObj [("text", text)])
  else if type_is "get_url" cmd then
    do url <- call page Self "url" [];
    ret (VObj [("url", url)])
  else if type_is "get_title" cmd then
    do title <- call page Self "title" [];
    ret (VObj [("title", title)])
  else
    do type <- lift (toStr (prop "type" cmd));
    throw ("Unknown command type: " +:+ type).

(** [for (let i = 0; i < shortcutData.commands.length; i++)], from a given
    [i] and [results].  The type of the command is logged before the [try];
    the [catch] logs and rethrows, so the first throw ends the loop and the
    run, and [results] is dropped. *)
Fixpoint shortcutCommands (page : Handle) (commands : list Command) (i : nat)
    (results : list ShortcutStep) : Eng (list ShortcutStep) :=
  match commands with
  | [] => ret results
  | cmd :: rest =>
      perform lift (toStr (prop "type" cmd));
      do result <- try_catch (shortcut_dispatch page cmd) (fun message => throw message);
      shortcutCommands page rest (S i)
        (results ++ [{| shortcut_step := i + 1;
                        shortcut_command := prop "type" cmd;
                        shortcut_payload := result |}])%list
  end.

Definition shortcut_step_json (s : ShortcutStep) : JsValue :=
  VObj (("step", VNum (Z.of_nat (shortcut_step s))) ::
        ("command", shortcut_command s) ::
        props_of (shortcut_payload s)).

(** What execute-shortcut returns after the loop. *)
Definition shortcut_report (resolvedPath : string) (commands : list Command)
    (results : list ShortcutStep) : ActionRunResult :=
  RunObject None
    (Some [JsonText (VObj [("success", VBool true);
                           ("shortcutPath", VStr resolvedPath);
                           ("commandsExecuted", VNum (Z.of_nat (length commands)));
                           ("results", VArr (map shortcut_step_json results))])])
    None None.

Definition newline : string := String "010"%char EmptyString.

(** [executeShortcut.run].  The input has passed the schema of the action,
    so its [shortcutPath] is a string and the template literal that logs it
    does not throw; how the path is resolved and read is left to
    [shortcut_file]. *)
Definition executeShortcut_run (ctx : ActionContext) : Eng ActionRunResult :=
  match shortcut_file (pget "shortcutPath" (ctx_input ctx)) with
  | inl resolvedPath =>
      throw ("Shortcut file not found: " +:+ resolvedPath +:+ newline +:+
             "Searched in: .playwright-mcp/shortcuts/ and workspace root")
  | inr (resolvedPath, yamlContent) =>
      (* Interpolate secrets before parsing YAML *)
      match interpolateSecrets env yamlContent with
      | inl message => throw message
      | inr interpolatedYaml =>
          match yaml_commands interpolatedYaml with
          | inl message => throw ("Failed to parse YAML shortcut: " +:+ message)
          | inr None =>
              throw ("Shortcut file must contain a " +:+ Str.dquote +:+ "commands"
                     +:+ Str.dquote +:+ " array")
          | inr (Some commands) =>
              do results <- shortcutCommands (ctx_page ctx) commands 0 [];
              ret (shortcut_report resolvedPath commands results)
          end
      end
  end.

Definition executeShortcut : PlaywrightActionDefinition :=
  {| name := "execute-shortcut"; browser := None; headless := None;
     contextOptions := VUndefined; run := executeShortcut_run |}.

(** *** close-browser.ts *)

Definition closeBrowser_run (ctx : ActionContext) : Eng ActionRunResult :=
  perform try_catch
    (perform call (ctx_page ctx) Self "close" [];
     perform call (ctx_context ctx) Self "close" [];
     perform call (ctx_browser ctx) Self "close" [];
     ret tt)
    (fun _ => ret tt);
  ret (RunObject None (Some [Text "Browser session closed."]) None None).

Definition closeBrowser : PlaywrightActionDefinition :=
  {| name := "close-browser"; browser := None; headless := None;
     contextOptions := VUndefined; run := closeBrowser_run |}.

(** *** index.ts: the persistent session and [runAction] *)

(** The browser type and channel of an action. *)
Definition browser_of (action : PlaywrightActionDefinition) : string * option string :=
  let browserName := match browser action with Some b => b | None => CLI_browser end in
  let browserLower := toLowerCase browserName in
  if String.eqb browserLower "chrome" then ("chromium", Some "chrome")
  else if String.eqb browserLower "edge" then ("chromium", Some "msedge")
  else if String.eqb browserLower "safari" then ("webkit", None)
  else (browserName, None).

Definition with_history (s : ServerState) (h : list Event) : ServerState :=
  {| persistentBrowser := persistentBrowser s;
     persistentContext := persistentContext s;
     persistentPage := persistentPage s;
     history := h |}.

(** The launch of a session: a browser, a context and a page, stored in
    the three references when all three are there.  A throw leaves the
    references as they were. *)
Definition launchSession (action : PlaywrightActionDefinition) (s : ServerState)
    : (string + Handle * Handle * Handle) * ServerState :=
  let (browserName, channel) := browser_of action in
  let headlessMode := match headless action with Some b => b | None => HEADLESS end in
  match
    (do b <- spawn (Launch browserName channel headlessMode);
     do c <- spawn (NewContext b (contextOptions action));
     do p <- spawn (NewPage c);
     ret (b, c, p)) (history s)
  with
  | (inr (b, c, p), h) =>
      (inr (b, c, p),
       {| persistentBrowser := Some b; persistentContext := Some c;
          persistentPage := Some p; history := h |})
  | (inl message, h) => (inl message, with_history s h)
  end.

(** "Reuse persistent browser or create new one": the handles given to
    the action. *)
Definition acquire (action : PlaywrightActionDefinition) (s : ServerState)
    : (string + Handle * Handle * Handle) * ServerState :=
  match persistentBrowser s, persistentContext s, persistentPage s with
  | Some b, Some c, Some p => (inr (b, c, p), s)
  | _, _, _ => launchSession action s
  end.

(** The [try] and [catch] of [runAction]: the action is run on the
    handles of the session, and the references are cleared after an action
    named [close-browser] has returned. *)
Definition executeAction (action : PlaywrightActionDefinition) (args : JsValue)
    (session : Handle * Handle * Handle) (s1 : ServerState) : CallToolResult * ServerState :=
  let '(b, c, p) := session in
  (* Interpolate secrets in input arguments *)
  match interpolateSecretsInObject env args with
  | inl message => (actionFailed (name action) message, s1)
  | inr interpolatedArgs =>
      match run action {| ctx_input := interpolatedArgs; ctx_browser := b;
                          ctx_context := c; ctx_page := p |} (history s1) with
      | (inl message, h) => (actionFailed (name action) message, with_history s1 h)
      | (inr result, h) =>
          (* If close-browser was called, clear persistent references *)
          let s2 :=
            if String.eqb (name action) "close-browser"
            then {| persistentBrowser := None; persistentContext := None;
                    persistentPage := None; history := h |}
            else with_history s1 h in
          (normalizeActionResult (name action) result, s2)
      end
  end.

(** [runAction].  [inl] is a rejection of the promise. *)
Definition runAction (action : PlaywrightActionDefinition) (args : JsValue)
    (s : ServerState) : (string + CallToolResult) * ServerState :=
  let (browserName, _) := browser_of action in
  if negb (playwright_member browserName) then
    (inr (toolError ("Unsupported browser: " +:+ browserName +:+
                     ". Supported: chromium, chrome, firefox, webkit, edge")), s)
  else
    match acquire action s with
    | (inl message, s1) => (inl message, s1)
    | (inr session, s1) =>
        let (result, s2) := executeAction action args session s1 in
        (inr result, s2)
    end.

(** The three references are set together and cleared together. *)
Definition consistent (s : ServerState) : Prop :=
  session_of s = unallocated \/
  exists b c p, session_of s = (Some b, Some c, Some p).

Definition allocated (s : ServerState) : Prop :=
  exists b c p, session_of s = (Some b, Some c, Some p).

(** ** Notions used by the statements *)

(** What a deep interpolation may answer: the error for the first name
    under which [process.env] has nothing, or a value when there is no such
    name. *)
Definition interpolation_result (v : JsValue) (r : string + PValue) : Prop :=
  match r with
  | inl e => exists m, e = missingVariable m /\ first_missing env (placeholders_of v) = Some m
  | inr w => first_missing env (placeholders_of v) = None
  end.

(** The text between the braces of a placeholder for [name]: not empty,
    without a closing brace, and [name] once trimmed. *)
Definition placeholder_for (name varName : string) : Prop :=
  varName <> "" /\
  Str.all (fun c => negb (Ascii.eqb c "}")) varName = true /\
  Str.trim varName = name.

(** An engine event that is a call on a page, a context or a browser. *)
Definition is_call (e : Event) : bool :=
  match e with Call _ _ _ _ => true | _ => false end.

(** The entry that a turn pushes in a given history. *)
Definition entry_of (page : Handle) (n : nat) (cmd : Command) (h : list Event) : StepOutcome :=
  match fst (dispatch page cmd h) with
  | inr result => StepOk n (prop "type" cmd) result
  | inl message => StepFailed n (prop "type" cmd) message
  end.

(** A command whose type has no [case] in execute-shortcut. *)
Definition unknown_to_shortcut (cmd : Command) : Prop :=
  forall t, In t shortcut_types -> type_is t cmd = false.


(** An engine call on [page], whatever the receiver. *)
Definition call_on (page : Handle) (e : Event) : bool :=
  match e with
  | Call target _ _ _ => Nat.eqb target page
  | _ => false
  end.

(** An engine call on [page] that does not go through a locator of
    [getLocator], [getByText] or the accessibility tree. *)
Definition plain_call_on (page : Handle) (e : Event) : bool :=
  match e with
  | Call target (Self | Keyboard | PageLocator _) _ _ => Nat.eqb target page
  | _ => false
  end.

(** A call of [close] on one of the three handles of a context. *)
Definition close_of (ctx : ActionContext) (e : Event) : bool :=
  match e with
  | Call target Self method [] =>
      String.eqb method "close" &&
      (Nat.eqb target (ctx_page ctx) || Nat.eqb target (ctx_context ctx)
       || Nat.eqb target (ctx_browser ctx))
  | _ => false
  end.

(** [appends p m]: the computation [m] adds events to the history, all of
    which satisfy [p], and removes none. *)
Definition appends {A : Type} (p : Event -> bool) (m : Eng A) : Prop :=
  forall h, exists es, snd (m h) = (h ++ es)%list /\ forallb p es = true.

(** [adds P m]: the same, for a property [P] of the events. *)
Definition adds {A : Type} (P : Event -> Prop) (m : Eng A) : Prop :=
  forall h, exists es, snd (m h) = (h ++ es)%list /\ Forall P es.

(** A call of execute-shortcut for the command [cmd]: a call on the page
    itself, on its keyboard, or on [page.locator(cmd.selector)]. *)
Definition shortcut_call (page : Handle) (cmd : Command) (e : Event) : Prop :=
  exists receiver method args,
    e = Call page receiver method args /\
    (receiver = Self \/ receiver = Keyboard \/ receiver = PageLocator (prop "selector" cmd)).

(** A text in which no placeholder can be found: it lacks the opening
    [${{] or the closing [}}]. *)
Definition plain_text (s : string) : Prop :=
  Str.includes "${{" s = false \/ Str.includes "}}" s = false.


(** The numbers of successes and of failures in a log. *)
Definition successes (log : list StepOutcome) : nat :=
  length (List.filter outcome_success log).

Definition failures (log : list StepOutcome) : nat :=
  length (List.filter (fun o => negb (outcome_success o)) log).

(** The launch that [runAction] asks for an action. *)
Definition launch_of (action : PlaywrightActionDefinition) : Event :=
  Launch (fst (browser_of action)) (snd (browser_of action))
    (match headless action with Some b => b | None => HEADLESS end).

(** The command types whose handler resolves the selector with
    [getLocator]. *)
Definition resolving_types : list string :=
  ["click"; "type"; "fill"; "hover"; "get_text"; "get_attribute"; "check"; "uncheck";
   "clear"].

Definition no_dollar (c : ascii) : bool := negb (Ascii.eqb c "$").

(** The command types whose handler in browser-session tests nothing. *)
Definition unguarded_types : list string :=
  ["navigate"; "navigate_back"; "wait_for_timeout"; "screenshot"; "scroll"; "reload";
   "get_url"; "get_title"].

(** ** Facts about strings *)

Lemma append_nil_r (s : string) : s +:+ "" = s.
Proof. induction s as [|c s IH]; simpl; [reflexivity | now f_equal]. Qed.

Lemma startsWith_spec (p s : string) :
  Str.startsWith p s = true <-> exists t, s = p +:+ t.
Proof.
  revert s; induction p as [|a p IH]; intros s; simpl.
  - split; [intros _; now exists s | reflexivity].
  - destruct s as [|b s].
    + split; [discriminate | intros [t [=]]].
    + destruct (Ascii.eqb_spec a b) as [->|Hab].
      * rewrite IH. split; intros [t Ht]; exists t; congruence.
      * split; [discriminate | intros [t [= Hb _]]; congruence].
Qed.

Lemma drop_append (p t : string) : Str.drop (String.length p) (p +:+ t) = t.
Proof. induction p as [|a p IH]; simpl; [now destruct t | exact IH]. Qed.

Lemma replace_prefix (p t : string) : Str.replace p "" (p +:+ t) = t.
Proof.
  assert (H : Str.startsWith p (p +:+ t) = true) by (apply startsWith_spec; now exists t).
  assert (U : forall s, Str.replace p "" s =
                if Str.startsWith p s then "" +:+ Str.drop (String.length p) s
                else match s with
                     | EmptyString => EmptyString
                     | String c s' => String c (Str.replace p "" s')
                     end) by (intros [|c s]; reflexivity).
  rewrite U, H. simpl. apply drop_append.
Qed.

Lemma includes_occurs (c : ascii) (s : string) :
  Str.includes (String c "") s = true <-> Str.occurs c s.
Proof.
  unfold Str.occurs. induction s as [|b s IH]; simpl.
  - split; [discriminate | intros [[|x a] [t [=]]]].
  - destruct (Ascii.eqb_spec c b) as [->|Hcb]; simpl.
    + split; [intros _; now exists "", s | reflexivity].
    + rewrite IH. split.
      * intros [a [t ->]]. now exists (String b a), t.
      * intros [[|x a] [t [= Hb Hs]]]; [congruence | now exists a, t].
Qed.

Lemma span_spec (p : ascii -> bool) (s a b : string) :
  Str.span p s = (a, b) -> s = a +:+ b /\ Str.all p a = true.
Proof.
  revert a b; induction s as [|x s IH]; intros a b; simpl.
  - intros [= <- <-]. now split.
  - destruct (p x) eqn:Hx.
    + destruct (Str.span p s) as [a' b'] eqn:E. intros [= <- <-].
      destruct (IH a' b' eq_refl) as [-> Ha]. simpl. now rewrite Hx, Ha.
    + intros [= <- <-]. now split.
Qed.

(** A run of [p] followed by the end of the string, or by a character
    outside [p], is what [span] takes. *)
Lemma span_append (p : ascii -> bool) (a b : string) :
  Str.all p a = true ->
  match b with EmptyString => True | String x _ => p x = false end ->
  Str.span p (a +:+ b) = (a, b).
Proof.
  intros Ha Hb. induction a as [|x a IH]; simpl in *.
  - destruct b as [|y b]; simpl in *; [reflexivity | now rewrite Hb].
  - apply andb_true_iff in Ha as [Hx Ha]. now rewrite Hx, (IH Ha).
Qed.

Lemma unsnoc_spec (s i : string) (l : ascii) :
  Str.unsnoc s = Some (i, l) <-> s = i +:+ String l "".
Proof.
  revert i; induction s as [|x s IH]; intros i; simpl.
  - split; [discriminate | destruct i; discriminate].
  - destruct (Str.unsnoc s) as [[i' l']|] eqn:E.
    + split.
      * intros [= <- <-]. simpl. f_equal. apply IH. reflexivity.
      * intros H. destruct i as [|y i]; simpl in H.
        -- injection H as Hx Hs. subst s. discriminate E.
        -- injection H as Hx Hs. apply IH in Hs. congruence.
    + assert (s = "") as ->.
      { destruct s as [|y s]; [reflexivity|]. simpl in E.
        destruct (Str.unsnoc s) as [[? ?]|]; discriminate. }
      split.
      * intros [= <- <-]. reflexivity.
      * intros H. destruct i as [|y i]; simpl in H.
        -- congruence.
        -- injection H as Hx Hs. destruct i; discriminate.
Qed.

Lemma is_empty_false (s : string) : Str.is_empty s = false <-> s <> "".
Proof. destruct s; simpl; split; congruence. Qed.

(** ** The selector resolver *)

Lemma matchCssLead_spec (s : string) :
  matchCssLead s = true <->
  exists c t, s = String c t /\ (c = "."%char \/ c = "#"%char \/ c = "["%char).
Proof.
  destruct s as [|c t]; simpl.
  - split; [discriminate | intros (c & t & [=] & _)].
  - rewrite !orb_true_iff, !Ascii.eqb_eq. split.
    + intros H. exists c, t. logic.
    + intros (c' & t' & [= -> ->] & H). logic.
Qed.

Lemma structural_test (s : string) :
  (matchCssLead s || Str.includes ">" s || Str.includes "+" s) = true <-> structural s.
Proof.
  unfold structural.
  rewrite !orb_true_iff, matchCssLead_spec, !includes_occurs. logic.
Qed.

Lemma matchRoleName_spec (rest : string) (name : option string) :
  matchRoleName rest = Some name <->
  match name with
  | None => rest = ""
  | Some n => rest = "[" +:+ n +:+ "]" /\ n <> "" /\
              Str.all (fun x => negb (Str.is_line_terminator x)) n = true
  end.
Proof.
  unfold matchRoleName. split.
  - destruct rest as [|c body]; [now intros [= <-]|].
    destruct (Ascii.eqb_spec c "[") as [->|Hc]; [|discriminate].
    destruct (Str.unsnoc body) as [[i l]|] eqn:E; [|discriminate].
    apply unsnoc_spec in E. subst body.
    destruct (Ascii.eqb_spec l "]") as [->|Hl]; [|discriminate]. simpl.
    destruct (Str.is_empty i) eqn:Hi; [discriminate|]. simpl.
    destruct (Str.all _ i) eqn:Ha; [|discriminate].
    intros [= <-]. apply is_empty_false in Hi. auto.
  - destruct name as [n|].
    + intros (-> & Hn & Ha). simpl.
      assert (E : Str.unsnoc (n +:+ "]") = Some (n, "]"%char)) by now apply unsnoc_spec.
      rewrite E. simpl. apply is_empty_false in Hn. now rewrite Hn, Ha.
    + now intros ->.
Qed.

Lemma is_word_bracket : Str.is_word "[" = false.
Proof. reflexivity. Qed.

Lemma roleMatch_spec (s r : string) (n : option string) :
  roleMatch s = Some (r, n) <-> role_form s r n.
Proof.
  unfold roleMatch. split.
  - destruct (Str.startsWith "role:" s) eqn:P; [|discriminate].
    apply startsWith_spec in P as [t ->].
    change (Str.drop 5 ("role:" +:+ t)) with t.
    destruct (Str.span Str.is_word t) as [a b] eqn:E.
    apply span_spec in E as [-> Ha].
    destruct (Str.is_empty a) eqn:Hne; [discriminate|]. apply is_empty_false in Hne.
    destruct (matchRoleName b) as [m|] eqn:M; [|discriminate].
    intros [= <- <-]. apply matchRoleName_spec in M. destruct m as [m|].
    + destruct M as (-> & Hm & Hl). now constructor.
    + subst b. rewrite append_nil_r. now constructor.
  - intros H. destruct H as [r Hr Hw | r n Hr Hw Hn Hl].
    + change (Str.startsWith "role:" ("role:" +:+ r)) with true.
      change (Str.drop 5 ("role:" +:+ r)) with r. cbv iota.
      rewrite <- (append_nil_r r) at 1.
      rewrite (span_append Str.is_word r "" Hw I).
      apply is_empty_false in Hr. now rewrite Hr.
    + change (Str.startsWith "role:" ("role:" +:+ r +:+ "[" +:+ n +:+ "]")) with true.
      change (Str.drop 5 ("role:" +:+ r +:+ "[" +:+ n +:+ "]"))
        with (r +:+ "[" +:+ n +:+ "]"). cbv iota.
      rewrite (span_append Str.is_word r ("[" +:+ n +:+ "]") Hw is_word_bracket).
      apply is_empty_false in Hr. rewrite Hr.
      assert (M : matchRoleName ("[" +:+ n +:+ "]") = Some (Some n))
        by now apply matchRoleName_spec.
      now rewrite M.
Qed.

Lemma roleMatch_none_prefix (p t : string) :
  Str.startsWith "role:" (p +:+ t) = false -> roleMatch (p +:+ t) = None.
Proof. unfold roleMatch. now intros ->. Qed.

Lemma getLocator_without_role (s : string) :
  ~ structural s -> roleMatch s = None ->
  getLocator s =
    (if Str.startsWith "testid:" s then GetByTestId (Str.replace "testid:" "" s)
     else if Str.startsWith "placeholder:" s
          then GetByPlaceholder (Str.replace "placeholder:" "" s)
          else if Str.startsWith "label:" s then GetByLabel (Str.replace "label:" "" s)
               else GetByText s).
Proof.
  intros Hs Hr. unfold getLocator. rewrite Hr.
  destruct (matchCssLead s || Str.includes ">" s || Str.includes "+" s) eqn:E;
    [apply structural_test in E; contradiction | reflexivity].
Qed.

(** C1.  The resolver returns the strategy of the first rule that
    matches, in the order: structural selector, role, test id,
    placeholder, label, text.  A selector that begins with [#], [.] or
    [[] is never resolved by role, and [role:button[Submit]] is the role
    [button] with the name [Submit]. *)
Theorem getLocator_first_matching_rule (s : string) :
  (structural s -> getLocator s = Locator_css s) /\
  (~ structural s -> forall r n, role_form s r n -> getLocator s = GetByRole r n) /\
  (~ structural s -> forall t, prefixed "testid:" s t -> getLocator s = GetByTestId t) /\
  (~ structural s -> forall t, prefixed "placeholder:" s t ->
     getLocator s = GetByPlaceholder t) /\
  (~ structural s -> forall t, prefixed "label:" s t -> getLocator s = GetByLabel t) /\
  (~ structural s -> (forall r n, ~ role_form s r n) ->
     (forall t, ~ prefixed "testid:" s t) ->
     (forall t, ~ prefixed "placeholder:" s t) ->
     (forall t, ~ prefixed "label:" s t) ->
     getLocator s = GetByText s) /\
  ((exists c t, s = String c t /\ (c = "#"%char \/ c = "."%char \/ c = "["%char)) ->
     ~ is_role_lookup (getLocator s)) /\
  getLocator "role:button[Submit]" = GetByRole "button" (Some "Submit").
Proof.
  assert (Hcss : structural s -> getLocator s = Locator_css s).
  { intros H. apply structural_test in H. unfold getLocator. now rewrite H. }
  repeat split.
  - exact Hcss.
  - intros Hs r n Hr. unfold getLocator.
    destruct (matchCssLead s || Str.includes ">" s || Str.includes "+" s) eqn:E;
      [apply structural_test in E; contradiction|].
    pose proof Hr as Hm. apply roleMatch_spec in Hm. rewrite Hm.
    destruct Hr as [r Hr Hw | r n Hr Hw Hn Hl]; [reflexivity|].
    apply is_empty_false in Hn. now rewrite Hn.
  - intros Hs t ->. unfold prefixed in *.
    rewrite (getLocator_without_role _ Hs);
      [|now apply roleMatch_none_prefix].
    change (Str.startsWith "testid:" ("testid:" +:+ t)) with true. cbv iota.
    now rewrite replace_prefix.
  - intros Hs t ->. unfold prefixed in *.
    rewrite (getLocator_without_role _ Hs);
      [|now apply roleMatch_none_prefix].
    change (Str.startsWith "testid:" ("placeholder:" +:+ t)) with false.
    change (Str.startsWith "placeholder:" ("placeholder:" +:+ t)) with true. cbv iota.
    now rewrite replace_prefix.
  - intros Hs t ->. unfold prefixed in *.
    rewrite (getLocator_without_role _ Hs);
      [|now apply roleMatch_none_prefix].
    change (Str.startsWith "testid:" ("label:" +:+ t)) with false.
    change (Str.startsWith "placeholder:" ("label:" +:+ t)) with false.
    change (Str.startsWith "label:" ("label:" +:+ t)) with true. cbv iota.
    now rewrite replace_prefix.
  - intros Hs Hrole Ht Hp Hl.
    assert (Hr : roleMatch s = None).
    { destruct (roleMatch s) as [[r n]|] eqn:E; [|reflexivity].
      apply roleMatch_spec in E. now apply Hrole in E. }
    rewrite (getLocator_without_role s Hs Hr).
    destruct (Str.startsWith "testid:" s) eqn:E1;
      [apply startsWith_spec in E1 as [t E1]; now apply Ht in E1|].
    destruct (Str.startsWith "placeholder:" s) eqn:E2;
      [apply startsWith_spec in E2 as [t E2]; now apply Hp in E2|].
    destruct (Str.startsWith "label:" s) eqn:E3;
      [apply startsWith_spec in E3 as [t E3]; now apply Hl in E3|].
    reflexivity.
  - intros (c & t & -> & Hc). rewrite Hcss; [simpl; logic|].
    left. exists c, t. logic.
Qed.

(** ** Secret interpolation *)

(** Induction on a JSON value, with the elements of an array and the
    property values of an object as smaller values. *)
Lemma JsValue_induction (P : JsValue -> Prop) :
  P VUndefined -> P VNull -> (forall b, P (VBool b)) -> (forall n, P (VNum n)) ->
  (forall s, P (VStr s)) ->
  (forall items, Forall P items -> P (VArr items)) ->
  (forall props, Forall (fun kv => P (snd kv)) props -> P (VObj props)) ->
  forall v, P v.
Proof.
  intros Hu Hn Hb Hz Hs Ha Ho.
  fix IH 1. intros [| | b | n | s | items | props].
  - exact Hu.
  - exact Hn.
  - apply Hb.
  - apply Hz.
  - apply Hs.
  - apply Ha. induction items as [|x items IHitems]; constructor; [apply IH | exact IHitems].
  - apply Ho. induction props as [|[k x] props IHprops]; constructor;
      [apply IH | exact IHprops].
Qed.

Lemma scan_cons (c : ascii) (s : string) :
  scan (String c s) =
    match matchPlaceholder (String c s) with
    | Some (varName, rest) => Hole varName :: scan rest
    | None => Lit c :: scan s
    end.
Proof.
  simp scan. generalize (inspect (matchPlaceholder (String c s))).
  intros [[[varName rest]|] Ho]; simp scan; rewrite Ho; reflexivity.
Qed.

Lemma first_missing_app (a b : list string) :
  first_missing env (a ++ b) =
    match first_missing env a with
    | Some m => Some m
    | None => first_missing env b
    end.
Proof.
  induction a as [|n a IH]; simpl; [reflexivity|].
  destruct (getenv env n); [exact IH | reflexivity].
Qed.

Lemma first_missing_Some (names : list string) (m : string) :
  first_missing env names = Some m -> In m names /\ getenv env m = None.
Proof.
  induction names as [|n names IH]; simpl; [discriminate|].
  destruct (getenv env n) eqn:E.
  - intros H. apply IH in H as [? ?]. auto.
  - intros [= <-]. auto.
Qed.

Lemma first_missing_None (names : list string) :
  first_missing env names = None <-> Forall (fun n => is_Some (getenv env n)) names.
Proof.
  induction names as [|n names IH]; simpl.
  - split; [constructor | reflexivity].
  - destruct (getenv env n) eqn:E.
    + rewrite IH. split.
      * intros H. constructor; [rewrite E; eauto | exact H].
      * intros H. now inversion H.
    + split; [discriminate|]. intros H. inversion H as [|? ? [? Hn] ?]. congruence.
Qed.

(** The outcome of the replacement: the first name under which
    [process.env] has nothing is thrown, or there is no such name. *)
Lemma substitute_result (ps : list Piece) :
  match substitute env ps with
  | inl e => exists m, e = missingVariable m /\ first_missing env (names_of_pieces ps) = Some m
  | inr t => first_missing env (names_of_pieces ps) = None
  end.
Proof.
  induction ps as [|[c|varName] ps IH]; simpl.
  - reflexivity.
  - now destruct (substitute env ps) as [e|t].
  - destruct (getenv env (Str.trim varName)) as [v|] eqn:E.
    + now destruct (substitute env ps) as [e|t].
    + eauto.
Qed.

Lemma interpolateSecretsInObject_result (v : JsValue) :
  interpolation_result v (interpolateSecretsInObject env v).
Proof.
  induction v as [| | b | n | s | items IH | props IH] using JsValue_induction;
    try reflexivity.
  - (* string *)
    unfold interpolation_result, placeholders_of. simpl. rewrite app_nil_r.
    unfold interpolateSecrets, placeholders.
    pose proof (substitute_result (scan s)) as H.
    now destruct (substitute env (scan s)) as [e|t].
  - (* array *)
    unfold interpolation_result, placeholders_of. simpl.
    set (go := traverse (interpolateSecretsInObject env)).
    assert (H : match go items with
                | inl e => exists m, e = missingVariable m /\
                    first_missing env (flat_map placeholders (flat_map strings_of items)) = Some m
                | inr ys =>
                    first_missing env (flat_map placeholders (flat_map strings_of items)) = None
                end).
    { induction IH as [|x items Hx _ IHitems]; simpl.
      - reflexivity.
      - rewrite flat_map_app, first_missing_app.
        unfold interpolation_result, placeholders_of in Hx.
        destruct (interpolateSecretsInObject env x) as [e|y].
        + destruct Hx as (m & -> & ->). eauto.
        + rewrite Hx. now destruct (go items) as [e|ys]. }
    now destruct (go items) as [e|ys].
  - (* object *)
    unfold interpolation_result, placeholders_of. simpl.
    match goal with |- context [traverse ?f props] => set (go := traverse f) end.
    assert (H : match go props with
                | inl e => exists m, e = missingVariable m /\
                    first_missing env
                      (flat_map placeholders (flat_map (fun kv => strings_of (snd kv)) props))
                    = Some m
                | inr ys =>
                    first_missing env
                      (flat_map placeholders (flat_map (fun kv => strings_of (snd kv)) props))
                    = None
                end).
    { induction IH as [|[k x] props Hx _ IHprops]; simpl.
      - reflexivity.
      - rewrite flat_map_app, first_missing_app.
        unfold interpolation_result, placeholders_of in Hx. simpl in Hx.
        destruct (interpolateSecretsInObject env x) as [e|y].
        + destruct Hx as (m & -> & ->). eauto.
        + rewrite Hx. now destruct (go props) as [e|ys]. }
    now destruct (go props) as [e|ys].
Qed.

Lemma scan_placeholder (varName : string) :
  varName <> "" ->
  Str.all (fun c => negb (Ascii.eqb c "}")) varName = true ->
  scan ("${{" +:+ varName +:+ "}}") = [Hole varName].
Proof.
  intros Hne Hall.
  change ("${{" +:+ varName +:+ "}}") with (String "$" ("{{" +:+ varName +:+ "}}")).
  rewrite scan_cons. unfold matchPlaceholder.
  change (Str.startsWith "${{" (String "$" ("{{" +:+ varName +:+ "}}"))) with true.
  change (Str.drop 3 (String "$" ("{{" +:+ varName +:+ "}}"))) with (varName +:+ "}}").
  cbv iota. rewrite (span_append _ varName "}}" Hall eq_refl).
  apply is_empty_false in Hne. rewrite Hne. simpl. now simp scan.
Qed.

(** A placeholder after a text without [$] is found, and the search goes
    on after it. *)
Lemma scan_after_text (pre varName post : string) :
  Str.all (fun c => negb (Ascii.eqb c "$")) pre = true ->
  varName <> "" ->
  Str.all (fun c => negb (Ascii.eqb c "}")) varName = true ->
  scan (pre +:+ "${{" +:+ varName +:+ "}}" +:+ post)
  = (map Lit (list_ascii_of_string pre) ++ Hole varName :: scan post)%list.
Proof.
  intros Hpre Hne Hall. induction pre as [|c pre IH].
  - change ("" +:+ "${{" +:+ varName +:+ "}}" +:+ post)
      with (String "$" ("{{" +:+ varName +:+ "}}" +:+ post)).
    rewrite scan_cons. unfold matchPlaceholder.
    change (Str.startsWith "${{" (String "$" ("{{" +:+ varName +:+ "}}" +:+ post))) with true.
    change (Str.drop 3 (String "$" ("{{" +:+ varName +:+ "}}" +:+ post)))
      with (varName +:+ "}}" +:+ post).
    cbv iota. rewrite (span_append _ varName ("}}" +:+ post) Hall eq_refl).
    apply is_empty_false in Hne. rewrite Hne. reflexivity.
  - simpl in Hpre. apply andb_true_iff in Hpre as [Hc Hpre].
    change (String c pre +:+ "${{" +:+ varName +:+ "}}" +:+ post)
      with (String c (pre +:+ "${{" +:+ varName +:+ "}}" +:+ post)).
    rewrite scan_cons. unfold matchPlaceholder.
    assert (Hs : Str.startsWith "${{" (String c (pre +:+ "${{" +:+ varName +:+ "}}" +:+ post))
                 = false).
    { apply negb_true_iff in Hc. cbn [Str.startsWith].
      rewrite Ascii.eqb_sym. now rewrite Hc. }
    rewrite Hs. cbn [list_ascii_of_string map app]. now rewrite (IH Hpre).
Qed.

(** C8, as the code has it.  For a stored name that a placeholder can
    name (a text between the braces that is not empty, has no closing brace
    and is the name once trimmed), a text that is only this placeholder is
    replaced by the stored value itself, whatever characters the value
    holds. *)
Theorem interpolateSecrets_round_trip (name varName v : string) :
  env !! name = Some v ->
  placeholder_for name varName ->
  interpolateSecrets env ("${{" +:+ varName +:+ "}}") = inr v.
Proof.
  intros Hv (Hne & Hall & Htrim). unfold interpolateSecrets.
  rewrite (scan_placeholder varName Hne Hall). simpl.
  unfold getenv. rewrite Htrim, Hv. now rewrite append_nil_r.
Qed.

(** C7, on the code.  The copy is filled by assignments, and the
    assignment of the key [__proto__] adds no property: a command with such
    a property comes out without it, so the keys of a mapping are not kept.
    When the value assigned is an object, it becomes the prototype of the
    copy.  The scenario of [HOST], which has no such key, comes out as the
    claim says. *)
Theorem proto_key_is_not_copied :
  interpolateSecretsInObject Example.env Example.proto_args
    = inr (PObj None [("commands", PArr [PObj None [("type", PStr "get_url")]])]) /\
  interpolateSecretsInObject Example.env
    (VObj [("__proto__", VObj [("selector", VStr "#go")]); ("type", VStr "click")])
    = inr (PObj (Some (PObj None [("selector", PStr "#go")])) [("type", PStr "click")]) /\
  interpolateSecretsInObject {[ "HOST" := "h" ]}
    (VObj [("url", VStr "${{HOST}}/x"); ("body", VObj [("k", VStr "${{HOST}}")])])
  = inr (PObj None [("url", PStr "h/x"); ("body", PObj None [("k", PStr "h")])]).
Proof. repeat split; vm_compute; reflexivity. Qed.

Lemma acquire_reuse (action : PlaywrightActionDefinition) (s : ServerState)
    (b c p : Handle) :
  session_of s = (Some b, Some c, Some p) -> acquire action s = (inr (b, c, p), s).
Proof. unfold session_of, acquire. intros [= -> -> ->]. reflexivity. Qed.

Lemma launchSession_result (action : PlaywrightActionDefinition) (s s1 : ServerState)
    (r : string + Handle * Handle * Handle) :
  launchSession action s = (r, s1) ->
  List.filter is_call (history s1) = List.filter is_call (history s) /\
  match r with
  | inr (b, c, p) => session_of s1 = (Some b, Some c, Some p)
  | inl _ => session_of s1 = session_of s
  end.
Proof.
  unfold launchSession. destruct (browser_of action) as [browserName channel].
  unfold bind, spawn, ret.
  repeat match goal with
         | |- context [create ?h ?e] => destruct (create h e)
         end;
    intros [= <- <-]; simpl; rewrite ?List.filter_app; simpl; rewrite ?app_nil_r; auto.
Qed.

Lemma acquire_result (action : PlaywrightActionDefinition) (s s1 : ServerState)
    (r : string + Handle * Handle * Handle) :
  acquire action s = (r, s1) ->
  List.filter is_call (history s1) = List.filter is_call (history s) /\
  match r with
  | inr (b, c, p) => session_of s1 = (Some b, Some c, Some p)
  | inl _ => session_of s1 = session_of s
  end.
Proof.
  unfold acquire.
  destruct (persistentBrowser s) as [b|] eqn:Eb; [|apply launchSession_result].
  destruct (persistentContext s) as [c|] eqn:Ec; [|apply launchSession_result].
  destruct (persistentPage s) as [p|] eqn:Ep; [|apply launchSession_result].
  intros [= <- <-]. unfold session_of. now rewrite Eb, Ec, Ep.
Qed.

Lemma runAction_reuse (action : PlaywrightActionDefinition) (args : JsValue)
    (s : ServerState) (b c p : Handle) :
  playwright_member (fst (browser_of action)) = true ->
  session_of s = (Some b, Some c, Some p) ->
  runAction action args s
    = (inr (fst (executeAction action args (b, c, p) s)),
       snd (executeAction action args (b, c, p) s)).
Proof.
  intros Hm Hs. unfold runAction. destruct (browser_of action) as [browserName channel].
  simpl in Hm. rewrite Hm. cbn [negb]. rewrite (acquire_reuse action s b c p Hs).
  now destruct (executeAction action args (b, c, p) s).
Qed.

Lemma executeAction_keeps_session (action : PlaywrightActionDefinition) (args : JsValue)
    (session : Handle * Handle * Handle) (s1 : ServerState) :
  name action <> "close-browser" ->
  session_of (snd (executeAction action args session s1)) = session_of s1.
Proof.
  intros Hname. apply String.eqb_neq in Hname.
  unfold executeAction. destruct session as [[b c] p].
  destruct (interpolateSecretsInObject env args) as [e|a]; [reflexivity|].
  destruct (run action _ (history s1)) as [[e|r] h]; simpl; [reflexivity|].
  now rewrite Hname.
Qed.

(** A name under which [process.env] has nothing makes the deep
    interpolation throw, for the first such name of the walk. *)
Lemma interpolation_throws (args : JsValue) (n : string) :
  In n (placeholders_of args) -> getenv env n = None ->
  exists m,
    In m (placeholders_of args) /\ getenv env m = None /\
    ((forall k, In k (placeholders_of args) -> getenv env k = None -> k = n) -> m = n) /\
    interpolateSecretsInObject env args = inl (missingVariable m).
Proof.
  intros Hin Hn.
  pose proof (interpolateSecretsInObject_result args) as H.
  unfold interpolation_result in H.
  destruct (interpolateSecretsInObject env args) as [e|w] eqn:E.
  - destruct H as (m & -> & Hm). exists m.
    destruct (first_missing_Some _ _ Hm) as [Hmin Hmn].
    split; [exact Hmin|]. split; [exact Hmn|].
    split; [intros Honly; now apply Honly | reflexivity].
  - apply first_missing_None in H.
    rewrite List.Forall_forall in H. apply H in Hin as [v Hv]. congruence.
Qed.

(** When the interpolation of the arguments throws, [runAction] answers
    with the error and never runs the action: the state is the one left by
    the acquisition of the session, without any call on the page. *)
Lemma runAction_interpolation_throws (action : PlaywrightActionDefinition) (args : JsValue)
    (s s1 : ServerState) (session : Handle * Handle * Handle) (message : string) :
  interpolateSecretsInObject env args = inl message ->
  playwright_member (fst (browser_of action)) = true ->
  acquire action s = (inr session, s1) ->
  runAction action args s = (inr (actionFailed (name action) message), s1) /\
  List.filter is_call (history s1) = List.filter is_call (history s).
Proof.
  intros E Hmember Ha. split.
  - unfold runAction. destruct (browser_of action) as [browserName channel].
    simpl in Hmember. rewrite Hmember. simpl. rewrite Ha.
    unfold executeAction. destruct session as [[b c] p]. now rewrite E.
  - now apply acquire_result in Ha as [? _].
Qed.

(** The YAML text of a shortcut is interpolated before it is parsed: a
    name without a value ends execute-shortcut before any call. *)
Lemma executeShortcut_missing_variable (ctx : ActionContext) (h : list Event)
    (resolvedPath yamlContent n : string) :
  shortcut_file (pget "shortcutPath" (ctx_input ctx)) = inr (resolvedPath, yamlContent) ->
  In n (placeholders yamlContent) -> getenv env n = None ->
  exists m, first_missing env (placeholders yamlContent) = Some m /\
            executeShortcut_run ctx h = (inl (missingVariable m), h).
Proof.
  intros Hf Hin Hn. unfold executeShortcut_run. rewrite Hf.
  unfold interpolateSecrets, placeholders in *.
  pose proof (substitute_result (scan yamlContent)) as H.
  destruct (substitute env (scan yamlContent)) as [e|t].
  - destruct H as (m & -> & Hm). exists m. now split.
  - apply first_missing_None in H.
    rewrite List.Forall_forall in H. apply H in Hin as [v Hv]. congruence.
Qed.

Lemma runAction_consistent (action : PlaywrightActionDefinition) (args : JsValue)
    (s : ServerState) :
  consistent s -> consistent (snd (runAction action args s)).
Proof.
  intros Hs. unfold runAction. destruct (browser_of action) as [browserName channel].
  destruct (negb (playwright_member browserName)); [exact Hs|].
  destruct (acquire action s) as [[e|[[b c] p]] s1] eqn:Ea;
    apply acquire_result in Ea as [_ Ha]; simpl.
  - unfold consistent. now rewrite Ha.
  - assert (Hs1 : consistent s1) by (right; eauto).
    unfold executeAction.
    destruct (interpolateSecretsInObject env args) as [e|a]; [exact Hs1|].
    destruct (run action _ (history s1)) as [[e|r] h]; simpl; [exact Hs1|].
    destruct (String.eqb (name action) "close-browser"); [now left | exact Hs1].
Qed.

(** C5.  The server holds at most one session, the three references
    being set together.  Acquiring a session when one exists returns
    the same three handles and changes nothing (no launch); so two
    acquisitions in a row return the same session. *)
Theorem session_is_reused (action1 action2 : PlaywrightActionDefinition)
    (s : ServerState) :
  (forall b c p, session_of s = (Some b, Some c, Some p) ->
     acquire action1 s = (inr (b, c, p), s)) /\
  (forall session s1, acquire action1 s = (inr session, s1) ->
     acquire action2 s1 = (inr session, s1)) /\
  (forall args, consistent s -> consistent (snd (runAction action1 args s))).
Proof.
  repeat split.
  - intros b c p. apply acquire_reuse.
  - intros [[b c] p] s1 Ha. apply acquire_result in Ha as [_ Ha].
    now apply acquire_reuse.
  - intros args. apply runAction_consistent.
Qed.

(** [closeBrowser.run] catches what the three [close] throw: it always
    returns, so the built-in close-browser always clears the references
    when its arguments interpolate. *)
Lemma closeBrowser_resets (args : JsValue) (a : PValue) (session : Handle * Handle * Handle)
    (s : ServerState) :
  interpolateSecretsInObject env args = inr a ->
  session_of (snd (executeAction closeBrowser args session s)) = unallocated.
Proof.
  intros Ha. unfold executeAction. destruct session as [[b c] p]. rewrite Ha.
  cbn [run closeBrowser name]. unfold closeBrowser_run, bind, try_catch, ret.
  repeat match goal with
         | |- context [call ?t ?r ?m ?x ?h] => destruct (call t r m x h) as [[?|?] ?]
         end; reflexivity.
Qed.

(** C10.  Executing an action that is not named [close-browser] leaves
    the three references unchanged, also when the action throws, in which
    case the error result is returned and the session is kept for the next
    actions.  So over a whole [runAction] the references change only by the
    launch of a session when there was none, and they are reset to the
    unallocated state only by an action named [close-browser], which resets
    them when it returns. *)
Theorem runAction_keeps_session (action : PlaywrightActionDefinition) (args : JsValue)
    (session : Handle * Handle * Handle) (s : ServerState) :
  (name action <> "close-browser" ->
     session_of (snd (executeAction action args session s)) = session_of s /\
     (allocated s -> session_of (snd (runAction action args s)) = session_of s) /\
     (session_of (snd (runAction action args s)) = session_of s \/
      (~ allocated s /\ allocated (snd (runAction action args s)))) /\
     (forall a message h,
        interpolateSecretsInObject env args = inr a ->
        run action {| ctx_input := a; ctx_browser := session.1.1;
                      ctx_context := session.1.2; ctx_page := session.2 |}
          (history s) = (inl message, h) ->
        executeAction action args session s
          = (actionFailed (name action) message, with_history s h))) /\
  (session_of (snd (executeAction action args session s)) = unallocated ->
     session_of s = unallocated \/ name action = "close-browser") /\
  (name action = "close-browser" ->
     forall a r h,
       interpolateSecretsInObject env args = inr a ->
       run action {| ctx_input := a; ctx_browser := session.1.1;
                     ctx_context := session.1.2; ctx_page := session.2 |}
         (history s) = (inr r, h) ->
       session_of (snd (executeAction action args session s)) = unallocated).
Proof.
  assert (Hframe : name action <> "close-browser" ->
            session_of (snd (runAction action args s)) = session_of s \/
            (~ allocated s /\ allocated (snd (runAction action args s)))).
  { intros Hname.
    unfold runAction. destruct (browser_of action) as [browserName channel].
    destruct (negb (playwright_member browserName)); [now left|].
    destruct (acquire action s) as [[e|t] s1] eqn:Ea.
    - apply acquire_result in Ea as [_ Ha]. now left.
    - pose proof (executeAction_keeps_session action args t s1 Hname) as Hk.
      destruct (executeAction action args t s1) as [r s2]. simpl in *. rewrite Hk.
      destruct (session_of s) as [[[b0|] [c0|]] [p0|]] eqn:Es;
        try (right; split;
             [intros (? & ? & ? & ?); congruence
             | destruct t as [[b c] p]; apply acquire_result in Ea as [_ Ha];
               unfold allocated; rewrite Hk; eauto]).
      rewrite (acquire_reuse action s b0 c0 p0 Es) in Ea.
      inversion Ea; subst. left. exact Es. }
  split; [|split].
  - intros Hname. split; [now apply executeAction_keeps_session|].
    split; [|split].
    + intros Hs. destruct (Hframe Hname) as [?|[? _]]; [assumption | contradiction].
    + now apply Hframe.
    + intros a message h Ha Hr. unfold executeAction. destruct session as [[b c] p].
      simpl in Hr. now rewrite Ha, Hr.
  - intros Hnull.
    destruct (String.eqb_spec (name action) "close-browser") as [|Hname]; [now right|].
    left. now rewrite <- (executeAction_keeps_session action args session s Hname).
  - intros Hname a r h Ha Hr. unfold executeAction. destruct session as [[b c] p].
    simpl in Hr. now rewrite Ha, Hr, Hname.
Qed.

(** ** Conversions to strings *)

Lemma toStr_array (x : JsValue) (l : list JsValue) :
  toStr (VArr (x :: l)) =
    match (match x with VUndefined | VNull => inr EmptyString | _ => toStr x end) with
    | inl e => inl e
    | inr s =>
        match l with
        | [] => inr s
        | _ :: _ =>
            match toStr (VArr l) with
            | inl e => inl e
            | inr t => inr (s +:+ "," +:+ t)
            end
        end
    end.
Proof. reflexivity. Qed.

(** The conversion throws its [TypeError] on the values that are not
    printable, and on no other. *)
Lemma toStr_spec (v : JsValue) :
  match toStr v with
  | inr _ => printable v = true
  | inl e => e = notPrimitive /\ printable v = false
  end.
Proof.
  induction v as [| | b | n | s | items IH | props _] using JsValue_induction;
    try reflexivity.
  - now destruct b.
  - induction IH as [|x l Hx _ IHl]; [reflexivity|].
    rewrite toStr_array. cbn [printable forallb].
    change (forallb printable l) with (printable (VArr l)).
    assert (He : match (match x with VUndefined | VNull => inr EmptyString | _ => toStr x end)
                 with
                 | inr _ => printable x = true
                 | inl e => e = notPrimitive /\ printable x = false
                 end) by (destruct x; first [reflexivity | exact Hx]).
    destruct (match x with VUndefined | VNull => inr EmptyString | _ => toStr x end) as [e|t].
    + destruct He as [-> ->]. now split.
    + rewrite He. destruct l as [|y l]; [reflexivity|].
      destruct (toStr (VArr (y :: l))) as [e|u]; [|exact IHl].
      destruct IHl as [-> ->]. now split.
  - simpl. destruct (has_key "toString" props); [now split | reflexivity].
Qed.

Lemma toStr_printable (v : JsValue) : printable v = true -> exists s, toStr v = inr s.
Proof.
  intros H. pose proof (toStr_spec v) as Hs.
  destruct (toStr v) as [e|s]; [|now exists s]. destruct Hs as [_ Hs]. congruence.
Qed.



(** ** The continue-on-failure runner (browser-session) *)

(** The [try] and the [catch] of a turn each return an entry. *)
Lemma step_entry (page : Handle) (n : nat) (cmd : Command) (h : list Event) :
  step page n cmd h =
    match dispatch page cmd h with
    | (inr result, h') => (inr (StepOk n (prop "type" cmd) result), h')
    | (inl message, h') => (inr (StepFailed n (prop "type" cmd) message), h')
    end.
Proof.
  unfold step, try_catch, bind, ret.
  destruct (dispatch page cmd h) as [[message|result] h']; reflexivity.
Qed.

(** A turn of the loop: the heading, which may throw, then the entry of
    the command, and the loop goes on in the history that the command
    left. *)
Lemma runCommands_cons (page : Handle) (cmd : JsValue) (rest : list JsValue) (k : nat)
    (acc : list StepOutcome) (h : list Event) :
  runCommands page (cmd :: rest) k acc h =
    match heading cmd with
    | inl e => (inl e, h)
    | inr _ =>
        runCommands page rest (S k) (acc ++ [entry_of page (S k) (props_of cmd) h])%list
          (snd (dispatch page (props_of cmd) h))
    end.
Proof.
  simpl. unfold bind, lift. destruct (heading cmd) as [e|t]; [reflexivity|].
  rewrite step_entry. unfold entry_of.
  now destruct (dispatch page (props_of cmd) h) as [[message|result] h'].
Qed.


(** A log that the loop returns has one more entry for each command. *)
Lemma runCommands_length (page : Handle) (cmds : list JsValue) (k : nat)
    (acc log : list StepOutcome) (h h' : list Event) :
  runCommands page cmds k acc h = (inr log, h') ->
  exists entries, log = (acc ++ entries)%list /\ length entries = length cmds.
Proof.
  revert k acc h; induction cmds as [|cmd cmds IH]; intros k acc h.
  - simpl. unfold ret. intros [= <- _]. exists []. now rewrite app_nil_r.
  - rewrite runCommands_cons. destruct (heading cmd) as [e|t]; [discriminate|].
    intros H. apply IH in H as (entries & -> & Hlen).
    exists (entry_of page (S k) (props_of cmd) h :: entries).
    rewrite <- app_assoc. simpl. auto.
Qed.




(** ** The abort-on-failure runner (execute-shortcut) *)

(** A type that cannot be converted to a string is no string: the switch
    reaches its default case, whose message throws the [TypeError] of the
    conversion. *)
Lemma shortcut_dispatch_unprintable (page : Handle) (cmd : Command) (h : list Event)
    (e : string) :
  toStr (prop "type" cmd) = inl e -> shortcut_dispatch page cmd h = (inl e, h).
Proof.
  intros He. unfold shortcut_dispatch, type_is. cbv zeta.
  destruct (prop "type" cmd) as [| | b | n | t | items | props] eqn:Ht;
    try (unfold bind, lift; now rewrite He).
Qed.

(** A turn of the loop ends as its command does: the type that is logged
    before the [try] throws only when the switch throws the same error. *)
Lemma shortcutCommands_cons (page : Handle) (cmd : Command) (rest : list Command)
    (i : nat) (acc : list ShortcutStep) (h : list Event) :
  shortcutCommands page (cmd :: rest) i acc h =
    match shortcut_dispatch page cmd h with
    | (inr result, h') =>
        shortcutCommands page rest (S i)
          (acc ++ [{| shortcut_step := i + 1; shortcut_command := prop "type" cmd;
                      shortcut_payload := result |}])%list h'
    | (inl message, h') => (inl message, h')
    end.
Proof.
  simpl. unfold bind, try_catch, throw, lift.
  destruct (toStr (prop "type" cmd)) as [e|t] eqn:He.
  - now rewrite (shortcut_dispatch_unprintable page cmd h e He).
  - destruct (shortcut_dispatch page cmd h) as [[message|result] h']; reflexivity.
Qed.

Lemma shortcutCommands_app (page : Handle) (a b : list Command) (i : nat)
    (acc : list ShortcutStep) (h : list Event) :
  shortcutCommands page (a ++ b)%list i acc h =
    match shortcutCommands page a i acc h with
    | (inr log, h') => shortcutCommands page b (i + length a) log h'
    | (inl e, h') => (inl e, h')
    end.
Proof.
  revert i acc h; induction a as [|cmd a IH]; intros i acc h.
  - simpl. unfold ret. now rewrite Nat.add_0_r.
  - change ((cmd :: a) ++ b)%list with (cmd :: (a ++ b))%list.
    rewrite !shortcutCommands_cons.
    destruct (shortcut_dispatch page cmd h) as [[message|result] h']; [reflexivity|].
    rewrite IH. simpl length. now replace (S i + length a) with (i + S (length a)) by lia.
Qed.

Lemma shortcutCommands_length (page : Handle) (cmds : list Command) (i : nat)
    (acc log : list ShortcutStep) (h h' : list Event) :
  shortcutCommands page cmds i acc h = (inr log, h') ->
  length log = length acc + length cmds.
Proof.
  revert i acc h; induction cmds as [|cmd cmds IH]; intros i acc h.
  - simpl. unfold ret. intros [= <- _]. lia.
  - rewrite shortcutCommands_cons.
    destruct (shortcut_dispatch page cmd h) as [[message|result] h1]; [discriminate|].
    intros H. apply IH in H. rewrite length_app in H. simpl in *. lia.
Qed.

(** C4, as the code has it.  Under abort-on-failure, when the commands
    before command [i] succeed and command [i] throws, the loop ends
    there: no later command is dispatched, the [i] entries gathered so far
    are dropped, and the error is rethrown.  The caller receives the
    error result of [runAction] with the message of the error, and no
    log. *)
Theorem shortcut_stops_at_first_failure (page : Handle) (pre : list Command)
    (cmd : Command) (post : list Command) (h : list Event) (log : list ShortcutStep)
    (h_i : list Event) (message : string) (h_f : list Event) :
  shortcutCommands page pre 0 [] h = (inr log, h_i) ->
  shortcut_dispatch page cmd h_i = (inl message, h_f) ->
  length log = length pre /\
  shortcutCommands page (pre ++ cmd :: post)%list 0 [] h = (inl message, h_f) /\
  forall s args a b c resolvedPath yamlContent interpolatedYaml,
    h = history s ->
    session_of s = (Some b, Some c, Some page) ->
    playwright_member (fst (browser_of executeShortcut)) = true ->
    interpolateSecretsInObject env args = inr a ->
    shortcut_file (pget "shortcutPath" a) = inr (resolvedPath, yamlContent) ->
    interpolateSecrets env yamlContent = inr interpolatedYaml ->
    yaml_commands interpolatedYaml = inr (Some (pre ++ cmd :: post)%list) ->
    runAction executeShortcut args s
      = (inr (actionFailed "execute-shortcut" message), with_history s h_f).
Proof.
  intros Hpre Hcmd.
  assert (Hrun : shortcutCommands page (pre ++ cmd :: post)%list 0 [] h = (inl message, h_f)).
  { rewrite shortcutCommands_app, Hpre, shortcutCommands_cons, Hcmd. reflexivity. }
  split; [apply shortcutCommands_length in Hpre; simpl in Hpre; exact Hpre|].
  split; [exact Hrun|].
  intros s args a b c resolvedPath yamlContent interpolatedYaml -> Hs Hm Ha Hf Hy Hc.
  rewrite (runAction_reuse executeShortcut args s b c page Hm Hs).
  unfold executeAction. rewrite Ha.
  cbn [run executeShortcut name]. unfold executeShortcut_run. cbn [ctx_input ctx_page].
  rewrite Hf, Hy, Hc. unfold bind. now rewrite Hrun.
Qed.

Lemma shortcut_dispatch_unknown (page : Handle) (cmd : Command) (h : list Event) :
  unknown_to_shortcut cmd ->
  shortcut_dispatch page cmd h
    = (inl (match toStr (prop "type" cmd) with
            | inr type => "Unknown command type: " +:+ type
            | inl e => e
            end), h).
Proof.
  intros Hu. unfold shortcut_dispatch.
  repeat match goal with
         | |- context [type_is ?t cmd] =>
             rewrite (Hu t) by (unfold shortcut_types; simpl; logic)
         end.
  unfold bind, lift, throw. now destruct (toStr (prop "type" cmd)).
Qed.



(** ** Handlers and missing parameters *)



(** ** Further properties of the selector resolver *)

(** X1.  What each strategy says about the selector: a CSS lookup is
    chosen only for a structural selector and a text lookup only for a
    selector that no other rule matches, both with the selector itself; a
    role lookup only for a selector of the role form, so never with an
    empty name; the other lookups get what follows their prefix. *)
Theorem getLocator_inversion (s : string) :
  match getLocator s with
  | Locator_css t => t = s /\ structural s
  | GetByRole r n => ~ structural s /\ role_form s r n /\ n <> Some ""
  | GetByTestId t => ~ structural s /\ prefixed "testid:" s t
  | GetByPlaceholder t => ~ structural s /\ prefixed "placeholder:" s t
  | GetByLabel t => ~ structural s /\ prefixed "label:" s t
  | GetByText t =>
      t = s /\ ~ structural s /\ (forall r n, ~ role_form s r n) /\
      (forall u, ~ prefixed "testid:" s u) /\
      (forall u, ~ prefixed "placeholder:" s u) /\
      (forall u, ~ prefixed "label:" s u)
  end.
Proof.
  unfold getLocator.
  destruct (matchCssLead s || Str.includes ">" s || Str.includes "+" s) eqn:E.
  { apply structural_test in E. now split. }
  assert (Hs : ~ structural s).
  { intros H. apply structural_test in H. congruence. }
  destruct (roleMatch s) as [[r n]|] eqn:R.
  { apply roleMatch_spec in R.
    assert (Hn : n <> Some "") by (intros ->; inversion R; congruence).
    destruct n as [n|]; [|now auto].
    destruct (Str.is_empty n) eqn:En; [|now auto].
    destruct n; [congruence | discriminate]. }
  assert (Hr : forall r n, ~ role_form s r n).
  { intros r n H. apply roleMatch_spec in H. congruence. }
  assert (Hp : forall p, Str.startsWith p s = true -> prefixed p s (Str.replace p "" s)).
  { intros p H. apply startsWith_spec in H as [t ->]. now rewrite replace_prefix. }
  assert (Hn : forall p, Str.startsWith p s = false -> forall u, ~ prefixed p s u).
  { intros p H u Hu. assert (Str.startsWith p s = true) by (apply startsWith_spec; eauto).
    congruence. }
  destruct (Str.startsWith "testid:" s) eqn:E1; [now auto|].
  destruct (Str.startsWith "placeholder:" s) eqn:E2; [now auto|].
  destruct (Str.startsWith "label:" s) eqn:E3; [now auto|].
  auto 10.
Qed.

(** ** Further properties of the results of actions *)

(** X2.  [normalizeActionResult] returns an empty content only for an
    object that has an empty [content] array, which it returns as it is;
    and it marks a result as an error only when the action did. *)
Theorem normalizeActionResult_content (actionName : string) (result : ActionRunResult) :
  (content (normalizeActionResult actionName result) = [] <->
     exists message sc ie, result = RunObject message (Some []) sc ie) /\
  (isError (normalizeActionResult actionName result) = Some true ->
     exists message c sc, result = RunObject message c sc (Some true)).
Proof.
  split; [split|].
  - destruct result as [|s|message [c|] sc ie]; simpl.
    + discriminate.
    + destruct (Str.is_empty s); discriminate.
    + intros ->. eauto.
    + destruct message as [m|]; [destruct (Str.is_empty m)|]; discriminate.
  - intros (message & sc & ie & ->). reflexivity.
  - destruct result as [|s|message [c|] sc ie]; simpl.
    + discriminate.
    + destruct (Str.is_empty s); discriminate.
    + intros ->. eauto.
    + intros ->. eauto.
Qed.

(** ** Further properties of the interpolation *)

Lemma includes_tail (p : string) (c : ascii) (s : string) :
  Str.includes p (String c s) = false ->
  Str.startsWith p (String c s) = false /\ Str.includes p s = false.
Proof. cbn [Str.includes]. intros H. now apply orb_false_iff in H. Qed.

Lemma includes_suffix (p a b : string) :
  Str.includes p (a +:+ b) = false -> Str.includes p b = false.
Proof.
  induction a as [|c a IH]; [trivial|].
  change (String c a +:+ b) with (String c (a +:+ b)).
  intros H. apply includes_tail in H as [_ H]. auto.
Qed.

Lemma includes_head (p s : string) :
  Str.includes p s = false -> Str.startsWith p s = false.
Proof.
  destruct s as [|c s]; [|intros H; now apply includes_tail in H].
  cbn [Str.includes]. intros H. now apply orb_false_iff in H.
Qed.

Lemma matchPlaceholder_plain (s : string) :
  plain_text s -> matchPlaceholder s = None.
Proof.
  intros [H|H]; unfold matchPlaceholder.
  - apply includes_head in H. now rewrite H.
  - destruct (Str.startsWith "${{" s) eqn:P; [|reflexivity].
    apply startsWith_spec in P as [t ->].
    change (Str.drop 3 ("${{" +:+ t)) with t.
    destruct (Str.span _ t) as [a b] eqn:E. apply span_spec in E as [-> _].
    assert (Hb : Str.startsWith "}}" b = false).
    { apply includes_head. apply (includes_suffix _ a). now apply (includes_suffix _ "${{"). }
    rewrite Hb. now rewrite andb_false_r.
Qed.

Lemma plain_text_tail (c : ascii) (s : string) : plain_text (String c s) -> plain_text s.
Proof. intros [H|H]; apply includes_tail in H as [_ H]; [now left | now right]. Qed.

(** A text without a placeholder is cut into its characters. *)
Lemma scan_plain (s : string) :
  plain_text s -> scan s = map Lit (list_ascii_of_string s).
Proof.
  induction s as [|c s IH]; intros H; [now simp scan|].
  rewrite scan_cons, (matchPlaceholder_plain _ H). simpl.
  now rewrite (IH (plain_text_tail c s H)).
Qed.

Lemma substitute_literals (pre : string) (ps : list Piece) :
  substitute env (map Lit (list_ascii_of_string pre) ++ ps)%list =
    match substitute env ps with
    | inr t => inr (pre +:+ t)
    | inl e => inl e
    end.
Proof.
  induction pre as [|c pre IH]; simpl.
  - now destruct (substitute env ps).
  - rewrite IH. now destruct (substitute env ps).
Qed.

Lemma interpolateSecrets_plain (s : string) :
  plain_text s -> interpolateSecrets env s = inr s.
Proof.
  intros H. unfold interpolateSecrets. rewrite (scan_plain s H).
  rewrite <- (app_nil_r (map Lit (list_ascii_of_string s))).
  rewrite substitute_literals. simpl. now rewrite append_nil_r.
Qed.

Lemma traverse_ext {A B : Type} (f g : A -> string + B) (l : list A) :
  Forall (fun x => f x = g x) l -> traverse f l = traverse g l.
Proof.
  induction 1 as [|x l Hx _ IH]; simpl; [reflexivity|]. now rewrite Hx, IH.
Qed.

Lemma Forall_flat_map_inv {A B : Type} (P : B -> Prop) (f : A -> list B) (l : list A) :
  Forall P (flat_map f l) -> Forall (fun x => Forall P (f x)) l.
Proof.
  induction l as [|x l IH]; simpl; [constructor|].
  intros H. apply Forall_app in H as [H1 H2]. constructor; auto.
Qed.

Lemma names_of_literals (pre : string) (ps : list Piece) :
  names_of_pieces (map Lit (list_ascii_of_string pre) ++ ps)%list = names_of_pieces ps.
Proof. induction pre as [|c pre IH]; simpl; auto. Qed.

Lemma placeholders_plain (v : JsValue) :
  Forall plain_text (strings_of v) -> placeholders_of v = [].
Proof.
  unfold placeholders_of. induction 1 as [|s l Hs _ IH]; simpl; [reflexivity|].
  rewrite IH, app_nil_r. unfold placeholders. rewrite (scan_plain s Hs).
  rewrite <- (app_nil_r (map Lit _)). now rewrite names_of_literals.
Qed.

(** The assignments of keys other than [__proto__] add them as
    properties, in their order. *)
Lemma assignments_plain (entries : list (string * PValue)) :
  forallb (fun kv => negb (String.eqb (fst kv) "__proto__")) entries = true ->
  assignments entries = PObj None entries.
Proof.
  unfold assignments. intros H.
  assert (Hf : forall proto acc,
            fold_left (fun r kv => assign r (fst kv) (snd kv)) entries (proto, acc)
            = (proto, (acc ++ entries)%list)).
  { induction entries as [|[k x] entries IH]; intros proto acc; simpl in *.
    - now rewrite app_nil_r.
    - apply andb_true_iff in H as [Hk Hrest]. unfold assign at 2. simpl.
      destruct (String.eqb k "__proto__"); [discriminate|].
      rewrite (IH Hrest). now rewrite <- app_assoc. }
  now rewrite Hf.
Qed.

(** X3.  A value whose strings hold no placeholder (each lacks [${{] or
    [}}]) is interpolated without a throw, whatever the store holds: no
    variable is read.  When no object of the value has a property named
    [__proto__], the value is returned as it is. *)
Theorem interpolation_without_placeholder (v : JsValue) :
  Forall plain_text (strings_of v) ->
  placeholders_of v = [] /\
  (exists w, interpolateSecretsInObject env v = inr w) /\
  (no_proto_key v = true -> interpolateSecretsInObject env v = inr (embed v)).
Proof.
  intros Hplain. split; [now apply placeholders_plain|]. split.
  - pose proof (interpolateSecretsInObject_result v) as H.
    unfold interpolation_result in H. rewrite (placeholders_plain v Hplain) in H.
    destruct (interpolateSecretsInObject env v) as [e|w]; [|eauto].
    now destruct H as (m & _ & [=]).
  - revert Hplain.
    induction v as [| | b | n | s | items IH | props IH] using JsValue_induction;
      intros H Hk; try reflexivity.
    + inversion H as [|? ? Hs _]; subst. simpl. now rewrite (interpolateSecrets_plain s Hs).
    + simpl in H, Hk. apply Forall_flat_map_inv in H.
      assert (Hall : Forall (fun x => interpolateSecretsInObject env x = inr (embed x)) items).
      { clear -IH H Hk. induction IH as [|x items Hx _ IHitems]; [constructor|].
        inversion H; subst. simpl in Hk. apply andb_true_iff in Hk as [? ?].
        constructor; auto. }
      simpl. clear IH H Hk.
      assert (Ht : traverse (interpolateSecretsInObject env) items = inr (map embed items)).
      { induction Hall as [|x items Hx _ IHitems]; simpl; [reflexivity|].
        now rewrite Hx, IHitems. }
      now rewrite Ht.
    + simpl in H, Hk. apply Forall_flat_map_inv in H.
      assert (Hall : Forall (fun kv : string * JsValue =>
                               interpolateSecretsInObject env (snd kv) = inr (embed (snd kv)))
                       props).
      { clear -IH H Hk. induction IH as [|x props Hx _ IHprops]; [constructor|].
        inversion H; subst. simpl in Hk. apply andb_true_iff in Hk as [Hx' ?].
        apply andb_true_iff in Hx' as [_ ?]. constructor; auto. }
      assert (Hkeys : forallb (fun kv : string * PValue =>
                                 negb (String.eqb (fst kv) "__proto__"))
                        (map (fun kv => (fst kv, embed (snd kv))) props) = true).
      { clear -Hk. induction props as [|[k x] props IHprops]; [reflexivity|].
        simpl in *. apply andb_true_iff in Hk as [Hx ?].
        apply andb_true_iff in Hx as [-> _]. simpl. auto. }
      simpl. clear IH H Hk.
      match goal with |- context [traverse ?f props] => set (go := traverse f) end.
      assert (Ht : go props = inr (map (fun kv => (fst kv, embed (snd kv))) props)).
      { subst go. induction Hall as [|[k x] props Hx _ IHprops]; simpl; [reflexivity|].
        simpl in Hx. rewrite Hx. simpl in Hkeys. apply andb_true_iff in Hkeys as [_ Hkeys].
        now rewrite (IHprops Hkeys). }
      rewrite Ht. now rewrite assignments_plain.
Qed.

Lemma substitute_agree (env' : Env) (ps : list Piece) :
  (forall n, In n (names_of_pieces ps) -> env !! n = env' !! n) ->
  substitute env ps = substitute env' ps.
Proof.
  induction ps as [|[c|varName] ps IH]; intros H; simpl.
  - reflexivity.
  - now rewrite IH.
  - unfold getenv. rewrite <- (H (Str.trim varName)) by now left.
    rewrite IH; [reflexivity|]. intros n Hn. apply H. now right.
Qed.

(** X4.  The interpolation of a value reads the variables that its
    placeholders name, and no other: two stores that agree on these names
    give the same result, value or error. *)
Theorem interpolation_reads_named_variables (env' : Env) (v : JsValue) :
  (forall n, In n (placeholders_of v) -> env !! n = env' !! n) ->
  interpolateSecretsInObject env v = interpolateSecretsInObject env' v.
Proof.
  induction v as [| | b | n | s | items IH | props IH] using JsValue_induction;
    intros H; try reflexivity.
  - simpl. unfold interpolateSecrets. rewrite (substitute_agree env'); [reflexivity|].
    intros n Hn. apply H. unfold placeholders_of. simpl. now rewrite app_nil_r.
  - simpl. rewrite (traverse_ext _ (interpolateSecretsInObject env')); [reflexivity|].
    unfold placeholders_of in *. simpl in H.
    induction IH as [|x items Hx _ IHitems]; constructor.
    + apply Hx. intros n Hn. apply H. simpl. rewrite flat_map_app. apply in_or_app. now left.
    + apply IHitems. intros n Hn. apply H. simpl. rewrite flat_map_app.
      apply in_or_app. now right.
  - simpl.
    rewrite (traverse_ext _ (fun kv : string * JsValue =>
               match interpolateSecretsInObject env' (snd kv) with
               | inr y => inr (fst kv, y)
               | inl e => inl e
               end)); [reflexivity|].
    unfold placeholders_of in *. simpl in H.
    induction IH as [|x props Hx _ IHprops]; constructor.
    + rewrite Hx; [reflexivity|]. intros n Hn. apply H. simpl. rewrite flat_map_app.
      apply in_or_app. now left.
    + apply IHprops. intros n Hn. apply H. simpl. rewrite flat_map_app.
      apply in_or_app. now right.
Qed.

(** X5.  The replacement goes from left to right and never looks at what
    it has inserted: in a text made of a part without [$], a placeholder
    and a rest, the part is kept, the placeholder gives what [process.env]
    has under its name, as it is, and the rest is interpolated on its own.
    When [process.env] has nothing under the name, neither a variable nor
    an inherited member, the error of the name is thrown, whatever the rest
    holds. *)
Theorem interpolateSecrets_is_local (pre varName post : string) :
  Str.all (fun c => negb (Ascii.eqb c "$")) pre = true ->
  varName <> "" ->
  Str.all (fun c => negb (Ascii.eqb c "}")) varName = true ->
  interpolateSecrets env (pre +:+ "${{" +:+ varName +:+ "}}" +:+ post) =
    match getenv env (Str.trim varName) with
    | None => inl (missingVariable (Str.trim varName))
    | Some value =>
        match interpolateSecrets env post with
        | inr t => inr (pre +:+ value +:+ t)
        | inl e => inl e
        end
    end.
Proof.
  intros Hpre Hne Hall. unfold interpolateSecrets.
  rewrite (scan_after_text pre varName post Hpre Hne Hall), substitute_literals.
  simpl. destruct (getenv env (Str.trim varName)) as [value|]; [|reflexivity].
  now destruct (substitute env (scan post)).
Qed.

(** *** The matches of the pattern *)

Lemma matchPlaceholder_Some (s varName rest : string) :
  matchPlaceholder s = Some (varName, rest) ->
  s = "${{" +:+ varName +:+ "}}" +:+ rest /\ varName <> "" /\
  Str.all (fun c => negb (Ascii.eqb c "}")) varName = true.
Proof.
  unfold matchPlaceholder.
  destruct (Str.startsWith "${{" s) eqn:P; [|discriminate].
  apply startsWith_spec in P as [t ->].
  change (Str.drop 3 ("${{" +:+ t)) with t.
  destruct (Str.span _ t) as [a b] eqn:E. apply span_spec in E as [-> Ha].
  destruct (Str.is_empty a) eqn:Ea; [discriminate|]. cbn [negb andb].
  destruct (Str.startsWith "}}" b) eqn:Pb; [|discriminate].
  apply startsWith_spec in Pb as [r ->].
  change (Str.drop 2 ("}}" +:+ r)) with r.
  intros [= <- <-]. split; [reflexivity|]. split; [now apply is_empty_false | exact Ha].
Qed.

Lemma matchPlaceholder_here (varName rest : string) :
  varName <> "" ->
  Str.all (fun c => negb (Ascii.eqb c "}")) varName = true ->
  matchPlaceholder ("${{" +:+ varName +:+ "}}" +:+ rest) = Some (varName, rest).
Proof.
  intros Hne Hall. unfold matchPlaceholder.
  change (Str.startsWith "${{" ("${{" +:+ varName +:+ "}}" +:+ rest)) with true.
  change (Str.drop 3 ("${{" +:+ varName +:+ "}}" +:+ rest)) with (varName +:+ "}}" +:+ rest).
  cbv iota. rewrite (span_append _ varName ("}}" +:+ rest) Hall eq_refl).
  apply is_empty_false in Hne. rewrite Hne. reflexivity.
Qed.

Lemma placeholder_at_match (s : string) :
  placeholder_at s <-> exists varName rest, matchPlaceholder s = Some (varName, rest).
Proof.
  split.
  - intros (v & r & -> & Hv & Hva). exists v, r. now apply matchPlaceholder_here.
  - intros (v & r & H). exists v, r. now apply matchPlaceholder_Some.
Qed.

(** The search finds the first placeholder, and goes on after it. *)
Lemma scan_first (pre varName post : string) :
  first_placeholder pre varName post ->
  scan (pre +:+ "${{" +:+ varName +:+ "}}" +:+ post)
  = (map Lit (list_ascii_of_string pre) ++ Hole varName :: scan post)%list.
Proof.
  intros (Hne & Hall & Hpre). induction pre as [|c pre IH].
  - change ("" +:+ "${{" +:+ varName +:+ "}}" +:+ post)
      with (String "$" ("{{" +:+ varName +:+ "}}" +:+ post)).
    rewrite scan_cons.
    change (String "$" ("{{" +:+ varName +:+ "}}" +:+ post))
      with ("${{" +:+ varName +:+ "}}" +:+ post).
    now rewrite (matchPlaceholder_here varName post Hne Hall).
  - change (String c pre +:+ "${{" +:+ varName +:+ "}}" +:+ post)
      with (String c (pre +:+ "${{" +:+ varName +:+ "}}" +:+ post)).
    rewrite scan_cons.
    destruct (matchPlaceholder (String c (pre +:+ "${{" +:+ varName +:+ "}}" +:+ post)))
      as [[v r]|] eqn:E.
    + exfalso. apply (Hpre "" (String c pre) eq_refl); [discriminate|].
      apply placeholder_at_match. eauto.
    + cbn [list_ascii_of_string map app]. rewrite IH; [reflexivity|].
      intros a b -> Hb. now apply (Hpre (String c a) b).
Qed.

(** A text has no placeholder, or it has a first one. *)
Lemma scan_decompose (s : string) :
  (no_placeholder s /\ scan s = map Lit (list_ascii_of_string s)) \/
  exists pre varName post,
    s = pre +:+ "${{" +:+ varName +:+ "}}" +:+ post /\ first_placeholder pre varName post.
Proof.
  induction s as [|c s IH].
  - left. split; [|now simp scan].
    intros a b Hab (v & r & -> & _). destruct a; discriminate.
  - destruct (matchPlaceholder (String c s)) as [[v r]|] eqn:E.
    + right. apply matchPlaceholder_Some in E as (Heq & Hv & Hva).
      exists "", v, r. split; [exact Heq|]. split; [exact Hv|]. split; [exact Hva|].
      intros a b Hab Hb. destruct a; [|discriminate]. simpl in Hab. congruence.
    + assert (Hnot : ~ placeholder_at (String c s)).
      { intros H. apply placeholder_at_match in H as (v & r & H). congruence. }
      destruct IH as [[Hno Hscan]|(pre & v & post & -> & Hv & Hva & Hpre)].
      * left. split.
        -- intros a b Hab. destruct a as [|x a]; simpl in Hab.
           ++ now subst b.
           ++ injection Hab as _ ->. now apply (Hno a b).
        -- rewrite scan_cons, E. simpl. now rewrite Hscan.
      * right. exists (String c pre), v, post.
        split; [reflexivity|]. split; [exact Hv|]. split; [exact Hva|].
        intros a b Hab Hb. destruct a as [|x a]; simpl in Hab.
        ++ now subst b.
        ++ injection Hab as _ ->. now apply (Hpre a b).
Qed.

Lemma length_append (a b : string) :
  String.length (a +:+ b) = String.length a + String.length b.
Proof. induction a as [|c a IH]; simpl; [reflexivity | now rewrite IH]. Qed.

(** The names that the search finds are the names of the placeholders of
    the text. *)
Lemma placeholders_named (s n : string) :
  In n (placeholders s) <-> placeholder_named s n.
Proof.
  split.
  - remember (String.length s) as k eqn:Hk. revert s Hk n.
    induction k as [k IH] using lt_wf_ind. intros s -> n.
    unfold placeholders.
    destruct (scan_decompose s) as [[_ Hscan]|(pre & v & post & -> & H)].
    + rewrite Hscan, <- (app_nil_r (map Lit _)), names_of_literals. intros [].
    + rewrite (scan_first _ _ _ H), names_of_literals. simpl.
      intros [<-|Hin]; [now constructor|].
      apply named_later; [exact H|]. eapply IH; [|reflexivity|exact Hin].
      rewrite !length_append. simpl. lia.
  - unfold placeholders.
    induction 1 as [pre v post H|pre v post m H _ IH];
      rewrite (scan_first _ _ _ H), names_of_literals; simpl; auto.
Qed.

(** A text that is interpolated comes out with its placeholders
    replaced. *)
Lemma interpolateSecrets_replaced (s t : string) :
  interpolateSecrets env s = inr t -> replaced env s t.
Proof.
  remember (String.length s) as k eqn:Hk. revert s Hk t.
  induction k as [k IH] using lt_wf_ind. intros s -> t.
  unfold interpolateSecrets.
  destruct (scan_decompose s) as [[Hno Hscan]|(pre & v & post & -> & H)].
  - rewrite Hscan, <- (app_nil_r (map Lit _)), substitute_literals. simpl.
    rewrite append_nil_r. intros [= <-]. now constructor.
  - rewrite (scan_first _ _ _ H), substitute_literals. simpl.
    destruct (getenv env (Str.trim v)) as [value|] eqn:Hg; [|discriminate].
    destruct (substitute env (scan post)) as [e|t'] eqn:Hs; [discriminate|].
    intros [= <-]. apply replaced_first; [exact H | exact Hg|].
    eapply IH; [|reflexivity|exact Hs].
    rewrite !length_append. simpl. lia.
Qed.

Lemma traverse_Forall2 {A B : Type} (f : A -> string + B) (R : A -> B -> Prop)
    (l : list A) (ys : list B) :
  Forall (fun x => forall y, f x = inr y -> R x y) l ->
  traverse f l = inr ys -> Forall2 R l ys.
Proof.
  intros H. revert ys. induction H as [|x l Hx _ IH]; intros ys; simpl.
  - intros [= <-]. constructor.
  - destruct (f x) as [e|y] eqn:E; [discriminate|].
    destruct (traverse f l) as [e|ys']; [discriminate|].
    intros [= <-]. constructor; auto.
Qed.

(** X27.  A placeholder under whose name [process.env] has nothing,
    neither a variable nor an inherited member, makes the interpolation of
    the arguments throw the error of such a name (of that very name when it
    is the only one): it returns no value, so nothing is substituted
    anywhere.  [runAction] then answers with this error and never runs the
    action: the state is the one left by the acquisition of the session,
    without any call on the page. *)
Theorem missing_name_aborts (args : JsValue) (s n : string) :
  In s (strings_of args) -> placeholder_named s n -> getenv env n = None ->
  exists m,
    (exists s', In s' (strings_of args) /\ placeholder_named s' m) /\
    getenv env m = None /\
    ((forall s' k, In s' (strings_of args) -> placeholder_named s' k ->
        getenv env k = None -> k = n) -> m = n) /\
    interpolateSecretsInObject env args = inl (missingVariable m) /\
    forall action st session st1,
      playwright_member (fst (browser_of action)) = true ->
      acquire action st = (inr session, st1) ->
      runAction action args st
        = (inr (actionFailed (name action) (missingVariable m)), st1) /\
      List.filter is_call (history st1) = List.filter is_call (history st).
Proof.
  intros Hs Hn Hmiss.
  assert (Hin : In n (placeholders_of args)).
  { unfold placeholders_of. apply in_flat_map. exists s. split; [exact Hs|].
    now apply placeholders_named. }
  destruct (interpolation_throws args n Hin Hmiss) as (m & Hm & Hmm & _ & E).
  unfold placeholders_of in Hm. apply in_flat_map in Hm as (s' & Hs' & Hm).
  apply placeholders_named in Hm.
  exists m. split; [eauto|]. split; [exact Hmm|]. split; [|split; [exact E|]].
  - intros Honly. now apply (Honly s' m).
  - intros action st session st1. now apply runAction_interpolation_throws.
Qed.

(** X28.  When no object of a value has a property named [__proto__],
    what the interpolation returns is a copy: leaves that are not strings
    unchanged, arrays with their elements in order, objects with their keys
    in order, and strings with each placeholder replaced by what
    [process.env] has under its name.  It returns whenever [process.env] has
    something under the name of every placeholder. *)
Theorem interpolation_copies (v : JsValue) :
  (no_proto_key v = true ->
   forall w, interpolateSecretsInObject env v = inr w -> copy_of env v w) /\
  ((forall s n, In s (strings_of v) -> placeholder_named s n -> is_Some (getenv env n)) ->
   exists w, interpolateSecretsInObject env v = inr w).
Proof.
  split.
  - induction v as [| | b | n | s | items IH | props IH] using JsValue_induction;
      intros Hk w; try (intros [= <-]; constructor).
    + simpl. destruct (interpolateSecrets env s) as [e|t] eqn:E; [discriminate|].
      intros [= <-]. constructor. now apply interpolateSecrets_replaced.
    + simpl in *. destruct (traverse _ items) as [e|ys] eqn:E; [discriminate|].
      intros [= <-]. constructor. refine (traverse_Forall2 _ _ _ _ _ E).
      clear -IH Hk. induction IH as [|x items Hx _ IHitems]; [constructor|].
      simpl in Hk. apply andb_true_iff in Hk as [? ?]. constructor; auto.
    + simpl in *.
      match goal with |- context [traverse ?f props] => destruct (traverse f props) as [e|ys] eqn:E end;
        [discriminate|].
      intros [= <-].
      assert (H2 : Forall2 (fun kv kv' => fst kv = fst kv' /\ copy_of env (snd kv) (snd kv'))
                     props ys).
      { refine (traverse_Forall2 _ _ _ _ _ E).
        clear -IH Hk. induction IH as [|[k x] props Hx _ IHprops]; [constructor|].
        simpl in Hk, Hx. apply andb_true_iff in Hk as [Hkx ?].
        apply andb_true_iff in Hkx as [_ Hkx].
        constructor; [|auto]. intros [k' y]. simpl.
        destruct (interpolateSecretsInObject env x) as [e|y'] eqn:Ex; [discriminate|].
        intros [= <- <-]. split; [reflexivity|]. now apply Hx. }
      rewrite assignments_plain; [now constructor|].
      clear -H2 Hk. induction H2 as [|[k x] [k' y] props ys [Hkey _] _ IH2]; [reflexivity|].
      simpl in *. subst k'. apply andb_true_iff in Hk as [Hx ?].
      apply andb_true_iff in Hx as [-> _]. simpl. auto.
  - intros Hall. pose proof (interpolateSecretsInObject_result v) as H.
    unfold interpolation_result in H.
    destruct (interpolateSecretsInObject env v) as [e|w]; [|eauto].
    destruct H as (m & _ & Hm). apply first_missing_Some in Hm as [Hin Hm].
    unfold placeholders_of in Hin. apply in_flat_map in Hin as (s & Hs & Hin).
    apply placeholders_named in Hin. destruct (Hall s m Hs Hin) as [x Hx]. congruence.
Qed.

(** ** Further properties of browser-session *)

Lemma filter_split_length {A : Type} (p : A -> bool) (l : list A) :
  length (List.filter p l) + length (List.filter (fun x => negb (p x)) l) = length l.
Proof.
  induction l as [|x l IH]; simpl; [reflexivity|].
  destruct (p x); simpl; lia.
Qed.

(** X6.  The counts that browser-session returns agree with its log:
    [succeeded] and [failed] are the numbers of successes and of failures
    among the entries, and they add up to [totalCommands], the number of
    commands received. *)
Theorem session_counts (page : Handle) (cmds : list JsValue) (h : list Event)
    (r : SessionResult) (h' : list Event) :
  browserSession_run page cmds h = (inr r, h') ->
  totalCommands r = length cmds /\
  succeeded r = successes (results r) /\
  failed r = failures (results r) /\
  succeeded r + failed r = totalCommands r.
Proof.
  unfold browserSession_run, bind.
  destruct (runCommands page cmds 0 [] h) as [[e|log] h1] eqn:Hrun; [discriminate|].
  apply runCommands_length in Hrun as (entries & -> & Hlen). simpl.
  unfold session_summary, bind, ret, lift.
  repeat match goal with
         | |- context [call ?p ?r ?m ?a ?hh] => destruct (call p r m a hh) as [[?|?] ?]
         | |- context [toStr ?v] => destruct (toStr v)
         end; try discriminate.
  intros [= <- _]. simpl. unfold successes, failures.
  pose proof (filter_split_length outcome_success entries). lia.
Qed.




(** X9.  [fill] acts on every value but [undefined]: with a selector that
    is a non-empty string and a value that is defined, be it the empty
    string, the handler makes exactly one call, [fill(value)] on the
    locator that the resolver gives for the selector, and returns
    [{ filled: selector }] unless that call throws. *)
Theorem fill_takes_any_defined_value (page : Handle) (cmd : Command) (s : string)
    (h : list Event) :
  prop "type" cmd = VStr "fill" ->
  prop "selector" cmd = VStr s -> s <> "" ->
  prop "value" cmd <> VUndefined ->
  dispatch page cmd h =
    (match engine h (Call page (OnLocator (getLocator s)) "fill" [prop "value" cmd]) with
     | inr _ => inr (VObj [("filled", VStr s)])
     | inl e => inl e
     end,
     (h ++ [Call page (OnLocator (getLocator s)) "fill" [prop "value" cmd]])%list).
Proof.
  intros Ht Hs Hne Hv. apply is_empty_false in Hne.
  assert (Hu : is_undefined (prop "value" cmd) = false)
    by (destruct (prop "value" cmd); simpl; congruence).
  unfold dispatch, type_is. cbv zeta. rewrite Ht, Hs, Hu. simpl. rewrite Hne. simpl.
  unfold bind, locator_of, ret, call.
  now destruct (engine h _).
Qed.

(** X10.  The resolver needs a string.  For the nine types whose handler
    resolves the selector, a command whose tested parameters are all
    truthy and whose selector is not a string (a number, [true], an array
    or an object) fails in the resolver, before any call: the step is
    recorded as a failure with the message of the [TypeError]. *)
Theorem selector_must_be_a_string (page : Handle) (n : nat) (type : string)
    (cmd : Command) (h : list Event) :
  In type resolving_types ->
  prop "type" cmd = VStr type ->
  (forall p, In p (required_params type) -> truthy (prop p cmd) = true) ->
  (forall s, prop "selector" cmd <> VStr s) ->
  step page n cmd h
    = (inr (StepFailed n (VStr type) "selector.match is not a function"), h).
Proof.
  intros Hin Ht Hg Hns. rewrite step_entry, Ht.
  assert (Hd : dispatch page cmd h = (inl "selector.match is not a function", h));
    [|now rewrite Hd].
  assert (Hu : forall v, truthy v = true -> is_undefined v = false) by now intros [].
  unfold resolving_types in Hin. simpl in Hin.
  repeat (destruct Hin as [<-|Hin]); try contradiction;
    unfold dispatch, type_is; cbv zeta; rewrite Ht; simpl;
    repeat match goal with
           | |- context [is_undefined (prop ?p cmd)] =>
               rewrite (Hu (prop p cmd)) by (apply Hg; simpl; auto)
           | |- context [truthy (prop ?p cmd)] => rewrite (Hg p) by (simpl; auto)
           end;
    simpl; unfold bind, locator_of;
    destruct (prop "selector" cmd) as [| | ? | ? | s | ? | ?];
    try reflexivity; now destruct (Hns s).
Qed.

(** X11.  Eight handlers of browser-session test nothing: [navigate],
    [navigate_back], [wait_for_timeout], [screenshot], [scroll], [reload],
    [get_url] and [get_title] always make a call on the page, whatever
    parameters the command has.  The first event that such a command adds
    is that call. *)
Theorem unguarded_command_always_calls (page : Handle) (cmd : Command) (t : string)
    (h : list Event) :
  In t unguarded_types ->
  prop "type" cmd = VStr t ->
  exists receiver method args rest,
    snd (dispatch page cmd h) = (h ++ Call page receiver method args :: rest)%list.
Proof.
  intros Hin Ht. unfold unguarded_types in Hin. simpl in Hin.
  repeat (destruct Hin as [<-|Hin]); try contradiction;
    unfold dispatch, type_is; cbv zeta; rewrite Ht; simpl;
    unfold bind, call, ret, date_now, lift;
    repeat match goal with
           | |- context [if truthy ?v then _ else _] => destruct (truthy v)
           end;
    unfold bind, call, ret, date_now, lift;
    repeat match goal with
           | |- context [engine ?hh ?e] => destruct (engine hh e)
           end;
    repeat match goal with
           | |- context [toStr ?v] => destruct (toStr v)
           end;
    simpl; rewrite <- ?app_assoc; simpl; eauto.
Qed.

(** *** The events of a run *)

Lemma appends_ret {A : Type} (p : Event -> bool) (a : A) : appends p (ret a).
Proof. intros h. exists []. now rewrite app_nil_r. Qed.

Lemma appends_throw {A : Type} (p : Event -> bool) (msg : string) :
  appends p (throw msg : Eng A).
Proof. intros h. exists []. now rewrite app_nil_r. Qed.

Lemma appends_bind {A B : Type} (p : Event -> bool) (m : Eng A) (k : A -> Eng B) :
  appends p m -> (forall a, appends p (k a)) -> appends p (bind m k).
Proof.
  intros Hm Hk h. unfold bind. destruct (Hm h) as (es & E & Hes).
  destruct (m h) as [[e|a] h1]; simpl in E; subst h1.
  - now exists es.
  - destruct (Hk a (h ++ es)%list) as (es' & E' & Hes').
    exists (es ++ es')%list. rewrite E', app_assoc. split; [reflexivity|].
    rewrite forallb_app. now rewrite Hes, Hes'.
Qed.

Lemma appends_try_catch {A : Type} (p : Event -> bool) (m : Eng A)
    (handler : string -> Eng A) :
  appends p m -> (forall e, appends p (handler e)) -> appends p (try_catch m handler).
Proof.
  intros Hm Hk h. unfold try_catch. destruct (Hm h) as (es & E & Hes).
  destruct (m h) as [[e|a] h1]; simpl in E; subst h1.
  - destruct (Hk e (h ++ es)%list) as (es' & E' & Hes').
    exists (es ++ es')%list. rewrite E', app_assoc. split; [reflexivity|].
    rewrite forallb_app. now rewrite Hes, Hes'.
  - now exists es.
Qed.

Lemma appends_call (p : Event -> bool) (target : Handle) (receiver : Receiver)
    (method : string) (args : list JsValue) :
  p (Call target receiver method args) = true ->
  appends p (call target receiver method args).
Proof. intros H h. exists [Call target receiver method args]. simpl. now rewrite H. Qed.

Lemma appends_date_now (p : Event -> bool) : appends p date_now.
Proof. intros h. exists []. now rewrite app_nil_r. Qed.

Lemma appends_lift {A : Type} (p : Event -> bool) (r : string + A) : appends p (lift r).
Proof. intros h. exists []. now rewrite app_nil_r. Qed.

Lemma appends_locator_of (p : Event -> bool) (selector : JsValue) :
  appends p (locator_of selector).
Proof. destruct selector; first [apply appends_ret | apply appends_throw]. Qed.

Lemma appends_if {A : Type} (p : Event -> bool) (b : bool) (m1 m2 : Eng A) :
  appends p m1 -> appends p m2 -> appends p (if b then m1 else m2).
Proof. now destruct b. Qed.

(* The events of a computation built from calls on one page. *)
Ltac events :=
  repeat first
    [ apply appends_ret | apply appends_throw | apply appends_date_now | apply appends_lift
    | apply appends_locator_of
    | apply appends_call; simpl; rewrite ?Nat.eqb_refl; reflexivity
    | apply appends_if
    | apply appends_bind; [|intros ?]
    | apply appends_try_catch; [|intros ?] ].

Lemma dispatch_events (page : Handle) (cmd : Command) :
  appends (call_on page) (dispatch page cmd).
Proof. unfold dispatch. cbv zeta. events. Qed.

Lemma runCommands_events (page : Handle) (cmds : list JsValue) (k : nat)
    (acc : list StepOutcome) :
  appends (call_on page) (runCommands page cmds k acc).
Proof.
  revert k acc. induction cmds as [|cmd cmds IH]; intros k acc; simpl.
  - apply appends_ret.
  - apply appends_bind; [apply appends_lift | intros _].
    apply appends_bind; [|intros entry; apply IH].
    unfold step. apply appends_try_catch; [|intros message; apply appends_ret].
    apply appends_bind; [apply dispatch_events | intros result; apply appends_ret].
Qed.

(** X12.  browser-session acts on the page it was given and on nothing
    else: every event of a run is a call on that page, its keyboard, its
    accessibility tree or one of its locators.  So the run launches
    nothing, opens no context or page, and closes nothing, whatever the
    commands are. *)
Theorem browserSession_acts_on_its_page (page : Handle) (cmds : list JsValue) :
  appends (call_on page) (browserSession_run page cmds).
Proof.
  unfold browserSession_run. apply appends_bind; [apply runCommands_events|].
  intros log. unfold session_summary. events.
Qed.

(** ** Further properties of execute-shortcut *)

Lemma shortcut_dispatch_events (page : Handle) (cmd : Command) :
  appends (plain_call_on page) (shortcut_dispatch page cmd).
Proof. unfold shortcut_dispatch. cbv zeta. events. Qed.

Lemma shortcutCommands_events (page : Handle) (cmds : list Command) (i : nat)
    (acc : list ShortcutStep) :
  appends (plain_call_on page) (shortcutCommands page cmds i acc).
Proof.
  revert i acc. induction cmds as [|cmd cmds IH]; intros i acc; simpl.
  - apply appends_ret.
  - apply appends_bind; [apply appends_lift | intros _].
    apply appends_bind; [|intros result; apply IH].
    apply appends_try_catch; [apply shortcut_dispatch_events|].
    intros message. apply appends_throw.
Qed.

Lemma adds_ret {A : Type} (P : Event -> Prop) (a : A) : adds P (ret a).
Proof. intros h. exists []. now rewrite app_nil_r. Qed.

Lemma adds_throw {A : Type} (P : Event -> Prop) (msg : string) : adds P (throw msg : Eng A).
Proof. intros h. exists []. now rewrite app_nil_r. Qed.

Lemma adds_lift {A : Type} (P : Event -> Prop) (r : string + A) : adds P (lift r).
Proof. intros h. exists []. now rewrite app_nil_r. Qed.

Lemma adds_date_now (P : Event -> Prop) : adds P date_now.
Proof. intros h. exists []. now rewrite app_nil_r. Qed.

Lemma adds_call (P : Event -> Prop) (target : Handle) (receiver : Receiver)
    (method : string) (args : list JsValue) :
  P (Call target receiver method args) -> adds P (call target receiver method args).
Proof. intros H h. exists [Call target receiver method args]. simpl. auto. Qed.

Lemma adds_bind {A B : Type} (P : Event -> Prop) (m : Eng A) (k : A -> Eng B) :
  adds P m -> (forall a, adds P (k a)) -> adds P (bind m k).
Proof.
  intros Hm Hk h. unfold bind. destruct (Hm h) as (es & E & Hes).
  destruct (m h) as [[e|a] h1]; simpl in E; subst h1.
  - now exists es.
  - destruct (Hk a (h ++ es)%list) as (es' & E' & Hes').
    exists (es ++ es')%list. rewrite E', app_assoc. split; [reflexivity|].
    now apply Forall_app.
Qed.

Lemma adds_try_catch {A : Type} (P : Event -> Prop) (m : Eng A) (handler : string -> Eng A) :
  adds P m -> (forall e, adds P (handler e)) -> adds P (try_catch m handler).
Proof.
  intros Hm Hk h. unfold try_catch. destruct (Hm h) as (es & E & Hes).
  destruct (m h) as [[e|a] h1]; simpl in E; subst h1.
  - destruct (Hk e (h ++ es)%list) as (es' & E' & Hes').
    exists (es ++ es')%list. rewrite E', app_assoc. split; [reflexivity|].
    now apply Forall_app.
  - now exists es.
Qed.

Lemma adds_if {A : Type} (P : Event -> Prop) (b : bool) (m1 m2 : Eng A) :
  adds P m1 -> adds P m2 -> adds P (if b then m1 else m2).
Proof. now destruct b. Qed.

Lemma adds_mono {A : Type} (P Q : Event -> Prop) (m : Eng A) :
  (forall e, P e -> Q e) -> adds P m -> adds Q m.
Proof.
  intros HPQ Hm h. destruct (Hm h) as (es & E & Hes). exists es. split; [exact E|].
  eapply Forall_impl; eauto.
Qed.

(** The calls of a command of execute-shortcut: the selector goes to
    [page.locator] as the command has it. *)
Lemma shortcut_dispatch_adds (page : Handle) (cmd : Command) :
  adds (shortcut_call page cmd) (shortcut_dispatch page cmd).
Proof.
  unfold shortcut_dispatch. cbv zeta.
  repeat first
    [ apply adds_ret | apply adds_throw | apply adds_lift | apply adds_date_now
    | apply adds_call; unfold shortcut_call; eexists _, _, _; split; [reflexivity|]; auto
    | apply adds_if
    | apply adds_bind; [|intros ?] ].
Qed.

Lemma shortcutCommands_adds (page : Handle) (cmds : list Command) (i : nat)
    (acc : list ShortcutStep) :
  adds (fun e => exists cmd, In cmd cmds /\ shortcut_call page cmd e)
    (shortcutCommands page cmds i acc).
Proof.
  revert i acc. induction cmds as [|cmd cmds IH]; intros i acc; simpl.
  - apply adds_ret.
  - apply adds_bind; [apply adds_lift | intros _].
    apply adds_bind.
    + apply adds_try_catch; [|intros message; apply adds_throw].
      eapply adds_mono; [|apply shortcut_dispatch_adds].
      intros e He. exists cmd. auto.
    + intros result. eapply adds_mono; [|apply IH].
      intros e (c & Hc & He). exists c. auto.
Qed.

(** X13.  execute-shortcut acts on its page only, and never through the
    selector resolver: every event of a run is a call on the page itself,
    on its keyboard or on [page.locator(selector)], and the selector of
    such a call is the [selector] of a command of the file, as the parsed
    file has it.  The selector [role:button[Go]] is thus handed to
    [page.locator] unresolved. *)
Theorem executeShortcut_acts_on_its_page (ctx : ActionContext) :
  appends (plain_call_on (ctx_page ctx)) (executeShortcut_run ctx) /\
  (forall resolvedPath yamlContent interpolatedYaml commands,
     shortcut_file (pget "shortcutPath" (ctx_input ctx)) = inr (resolvedPath, yamlContent) ->
     interpolateSecrets env yamlContent = inr interpolatedYaml ->
     yaml_commands interpolatedYaml = inr (Some commands) ->
     adds (fun e => exists cmd, In cmd commands /\ shortcut_call (ctx_page ctx) cmd e)
       (executeShortcut_run ctx)) /\
  (forall h,
     snd (shortcut_dispatch (ctx_page ctx)
            [("type", VStr "click"); ("selector", VStr "role:button[Go]")] h)
     = (h ++ [Call (ctx_page ctx) (PageLocator (VStr "role:button[Go]")) "click" []])%list).
Proof.
  split; [|split].
  - unfold executeShortcut_run.
    destruct (shortcut_file _) as [resolvedPath|[resolvedPath yamlContent]];
      [apply appends_throw|].
    destruct (interpolateSecrets env yamlContent) as [message|interpolatedYaml];
      [apply appends_throw|].
    destruct (yaml_commands interpolatedYaml) as [message|[commands|]];
      [apply appends_throw | | apply appends_throw].
    apply appends_bind; [apply shortcutCommands_events | intros results; apply appends_ret].
  - intros resolvedPath yamlContent interpolatedYaml commands Hf Hi Hy.
    unfold executeShortcut_run. rewrite Hf, Hi, Hy.
    apply adds_bind; [apply shortcutCommands_adds | intros results; apply adds_ret].
  - intros h. unfold shortcut_dispatch, type_is, bind, call, ret. simpl.
    now destruct (engine h _).
Qed.

Lemma type_is_true (t : string) (cmd : Command) :
  type_is t cmd = true -> prop "type" cmd = VStr t.
Proof.
  unfold type_is. destruct (prop "type" cmd); try discriminate.
  intros H. apply String.eqb_eq in H. now subst.
Qed.

(** A command that the switch of execute-shortcut accepts has one of its
    twelve types. *)
Lemma shortcut_dispatch_known (page : Handle) (cmd : Command) (h h' : list Event)
    (result : JsValue) :
  shortcut_dispatch page cmd h = (inr result, h') ->
  exists t, In t shortcut_types /\ prop "type" cmd = VStr t.
Proof.
  intros H.
  destruct (existsb (fun t => type_is t cmd) shortcut_types) eqn:E.
  - apply existsb_exists in E as (t & Hin & Ht). exists t. auto using type_is_true.
  - assert (Hu : unknown_to_shortcut cmd).
    { intros t Hin. destruct (type_is t cmd) eqn:Ht; [|reflexivity].
      assert (existsb (fun t => type_is t cmd) shortcut_types = true)
        by (apply existsb_exists; eauto).
      congruence. }
    rewrite (shortcut_dispatch_unknown page cmd h Hu) in H. discriminate.
Qed.

Lemma shortcutCommands_entries (page : Handle) (cmds : list Command) (i : nat)
    (acc log : list ShortcutStep) (h h' : list Event) :
  shortcutCommands page cmds i acc h = (inr log, h') ->
  exists entries,
    log = (acc ++ entries)%list /\ length entries = length cmds /\
    forall j cmd, cmds !! j = Some cmd ->
      (exists t, In t shortcut_types /\ prop "type" cmd = VStr t) /\
      exists st, entries !! j = Some st /\ shortcut_step st = i + j + 1 /\
                 shortcut_command st = prop "type" cmd.
Proof.
  revert i acc h. induction cmds as [|cmd cmds IH]; intros i acc h.
  - simpl. unfold ret. intros [= <- _]. exists []. rewrite app_nil_r.
    split; [reflexivity|]. split; [reflexivity|].
    intros j cmd. rewrite lookup_nil. discriminate.
  - rewrite shortcutCommands_cons.
    destruct (shortcut_dispatch page cmd h) as [[message|result] h1] eqn:Hd; [discriminate|].
    intros H. apply IH in H as (entries & -> & Hlen & Hent).
    exists ({| shortcut_step := i + 1; shortcut_command := prop "type" cmd;
               shortcut_payload := result |} :: entries).
    rewrite <- app_assoc. split; [reflexivity|]. split; [simpl; now rewrite Hlen|].
    intros [|j] c Hc; simpl in Hc.
    + injection Hc as <-. split; [eapply shortcut_dispatch_known; eassumption|].
      eexists. split; [reflexivity|]. simpl. split; [lia | reflexivity].
    + destruct (Hent j c Hc) as (Hknown & st & Hst & Hstep & Hcommand).
      split; [exact Hknown|]. exists st. simpl. split; [exact Hst|]. split; [lia | exact Hcommand].
Qed.

(** The entries of a returned log, one by one: each command was
    dispatched in the history that the commands before it left. *)
Lemma shortcutCommands_entry (page : Handle) (cmds : list Command) (h : list Event)
    (log : list ShortcutStep) (h' : list Event) (i : nat) (cmd : Command) :
  shortcutCommands page cmds 0 [] h = (inr log, h') ->
  cmds !! i = Some cmd ->
  exists hi hi' result,
    shortcutCommands page (take i cmds) 0 [] h = (inr (take i log), hi) /\
    shortcut_dispatch page cmd hi = (inr result, hi') /\
    log !! i = Some {| shortcut_step := i + 1; shortcut_command := prop "type" cmd;
                       shortcut_payload := result |}.
Proof.
  intros Hrun Hi.
  pose proof (take_drop_middle cmds i cmd Hi) as Hsplit.
  assert (Hlt : i < length cmds) by (apply lookup_lt_is_Some; eauto).
  rewrite <- Hsplit, shortcutCommands_app in Hrun.
  destruct (shortcutCommands page (take i cmds) 0 [] h) as [[e|e1] hi] eqn:Hpre;
    [discriminate|].
  pose proof (shortcutCommands_length _ _ _ _ _ _ _ Hpre) as Hlen1.
  rewrite length_take in Hlen1. simpl in Hlen1.
  rewrite shortcutCommands_cons in Hrun.
  destruct (shortcut_dispatch page cmd hi) as [[message|result] hi'] eqn:Hd; [discriminate|].
  apply shortcutCommands_entries in Hrun as (e2 & -> & _).
  rewrite length_take in *. replace (i `min` length cmds) with i in * by lia.
  exists hi, hi', result. rewrite <- app_assoc. simpl.
  split; [now rewrite take_app_length' by lia|]. split; [exact Hd|].
  simpl. apply list_lookup_middle. lia.
Qed.

(** X14.  execute-shortcut reports all or nothing.  When it returns, its
    report is the one of the file of its path, whose commands all have a
    known type and were all executed, each in the history that the commands
    before it left: [commandsExecuted] is the number of commands of the
    file, and [results] has one entry for each, entry [i] with step
    [i + 1], the type of command [i] and what its handler returned. *)
Theorem shortcut_report_is_complete (ctx : ActionContext) (h : list Event)
    (result : ActionRunResult) (h' : list Event) :
  executeShortcut_run ctx h = (inr result, h') ->
  exists resolvedPath yamlContent interpolatedYaml commands log,
    shortcut_file (pget "shortcutPath" (ctx_input ctx)) = inr (resolvedPath, yamlContent) /\
    interpolateSecrets env yamlContent = inr interpolatedYaml /\
    yaml_commands interpolatedYaml = inr (Some commands) /\
    shortcutCommands (ctx_page ctx) commands 0 [] h = (inr log, h') /\
    result = shortcut_report resolvedPath commands log /\
    length log = length commands /\
    forall i cmd, commands !! i = Some cmd ->
      (exists t, In t shortcut_types /\ prop "type" cmd = VStr t) /\
      exists st hi hi',
        log !! i = Some st /\ shortcut_step st = i + 1 /\
        shortcut_command st = prop "type" cmd /\
        shortcutCommands (ctx_page ctx) (take i commands) 0 [] h = (inr (take i log), hi) /\
        shortcut_dispatch (ctx_page ctx) cmd hi = (inr (shortcut_payload st), hi').
Proof.
  unfold executeShortcut_run.
  destruct (shortcut_file _) as [resolvedPath|[resolvedPath yamlContent]] eqn:Hf;
    [discriminate|].
  destruct (interpolateSecrets env yamlContent) as [message|interpolatedYaml] eqn:Hi;
    [discriminate|].
  destruct (yaml_commands interpolatedYaml) as [message|[commands|]] eqn:Hy; try discriminate.
  unfold bind, ret.
  destruct (shortcutCommands (ctx_page ctx) commands 0 [] h) as [[message|log] h1] eqn:Hrun;
    [discriminate|].
  intros [= <- <-]. exists resolvedPath, yamlContent, interpolatedYaml, commands, log.
  split; [reflexivity|]. split; [exact Hi|]. split; [exact Hy|]. split; [exact Hrun|].
  split; [reflexivity|].
  split; [apply shortcutCommands_length in Hrun; exact Hrun|].
  intros i cmd Hc.
  destruct (shortcutCommands_entry _ _ _ _ _ _ _ Hrun Hc) as (hi & hi' & payload & Hpre & Hd & Hl).
  split; [eapply shortcut_dispatch_known; exact Hd|].
  eexists _, hi, hi'. split; [exact Hl|]. simpl. auto.
Qed.

(** X15.  execute-shortcut touches the page only after its file has been
    found, its secrets resolved and its YAML parsed into a non-empty
    [commands] array: a run that changes the history went through all of
    these; otherwise it throws, or reports zero commands, with the history
    as it was. *)
Theorem executeShortcut_loads_before_it_acts (ctx : ActionContext) (h : list Event)
    (r : string + ActionRunResult) (h' : list Event) :
  executeShortcut_run ctx h = (r, h') ->
  h' <> h ->
  exists resolvedPath yamlContent interpolatedYaml commands,
    shortcut_file (pget "shortcutPath" (ctx_input ctx)) = inr (resolvedPath, yamlContent) /\
    interpolateSecrets env yamlContent = inr interpolatedYaml /\
    yaml_commands interpolatedYaml = inr (Some commands) /\
    commands <> [].
Proof.
  unfold executeShortcut_run.
  destruct (shortcut_file _) as [resolvedPath|[resolvedPath yamlContent]] eqn:Hf;
    [unfold throw; intros [= _ <-]; congruence|].
  destruct (interpolateSecrets env yamlContent) as [message|interpolatedYaml] eqn:Hi;
    [unfold throw; intros [= _ <-]; congruence|].
  destruct (yaml_commands interpolatedYaml) as [message|[commands|]] eqn:Hy;
    try (unfold throw; intros [= _ <-]; congruence).
  intros Hrun Hne. exists resolvedPath, yamlContent, interpolatedYaml, commands.
  split; [reflexivity|]. split; [exact Hi|]. split; [exact Hy|].
  intros ->. simpl in Hrun. unfold bind, ret in Hrun. injection Hrun as _ <-. congruence.
Qed.

(** X16.  execute-shortcut has no test on the parameters: a command of
    one of its twelve types always makes a call on the page, even when a
    parameter it reads is missing.  The first event that it adds is that
    call.  The one thing that comes before a call is the conversion of the
    [text] of [wait_for_text] to a string, so this text is taken to be
    printable. *)
Theorem shortcut_command_always_calls (page : Handle) (cmd : Command) (t : string)
    (h : list Event) :
  In t shortcut_types ->
  prop "type" cmd = VStr t ->
  (t = "wait_for_text" -> printable (prop "text" cmd) = true) ->
  exists receiver method args rest,
    snd (shortcut_dispatch page cmd h)
      = (h ++ Call page receiver method args :: rest)%list.
Proof.
  intros Hin Ht Htext. unfold shortcut_types in Hin. simpl in Hin.
  repeat (destruct Hin as [<-|Hin]); try contradiction;
    try (destruct (toStr_printable _ (Htext eq_refl)) as [text Hs]);
    unfold shortcut_dispatch, type_is; cbv zeta; rewrite Ht; simpl;
    unfold bind, call, ret, date_now, lift; rewrite ?Hs;
    repeat match goal with
           | |- context [if truthy ?v then _ else _] => destruct (truthy v)
           end;
    unfold bind, call, ret, date_now, lift;
    repeat match goal with
           | |- context [engine ?hh ?e] => destruct (engine hh e)
           end;
    repeat match goal with
           | |- context [toStr ?v] => destruct (toStr v)
           end;
    simpl; rewrite <- ?app_assoc; simpl; eauto.
Qed.

(** ** Further properties of the session *)

Lemma acquire_launches (action : PlaywrightActionDefinition) (s : ServerState) :
  ~ allocated s -> acquire action s = launchSession action s.
Proof.
  intros H. unfold acquire.
  destruct (persistentBrowser s) as [b|] eqn:Eb; [|reflexivity].
  destruct (persistentContext s) as [c|] eqn:Ec; [|reflexivity].
  destruct (persistentPage s) as [p|] eqn:Ep; [|reflexivity].
  exfalso. apply H. exists b, c, p. unfold session_of. now rewrite Eb, Ec, Ep.
Qed.

(** A launch begins with the launch of the browser of the action, and
    makes no call. *)
Lemma launchSession_events (action : PlaywrightActionDefinition) (s : ServerState) :
  exists es,
    history (snd (launchSession action s)) = (history s ++ launch_of action :: es)%list /\
    forallb (fun e => negb (is_call e)) es = true.
Proof.
  unfold launchSession, launch_of. destruct (browser_of action) as [browserName channel].
  unfold bind, spawn, ret. simpl.
  repeat match goal with
         | |- context [create ?h ?e] => destruct (create h e)
         end;
    simpl; rewrite <- ?app_assoc; simpl; eexists; split; reflexivity.
Qed.

(** X17.  close-browser always answers [Browser session closed.] and
    always clears the three references, whatever the engine does.  It
    closes the page, then the context, then the browser, and gives up at
    the first [close] that throws: when closing the page fails, the
    context and the browser are never closed, and yet the references to
    them are dropped. *)
Theorem closeBrowser_always_answers (args : JsValue) (a : PValue) (b c p : Handle)
    (s : ServerState) :
  session_of s = (Some b, Some c, Some p) ->
  playwright_member (fst (browser_of closeBrowser)) = true ->
  interpolateSecretsInObject env args = inr a ->
  exists es,
    runAction closeBrowser args s =
      (inr {| content := [Text "Browser session closed."];
              structuredContent := None; isError := None |},
       {| persistentBrowser := None; persistentContext := None; persistentPage := None;
          history := (history s ++ Call p Self "close" [] :: es)%list |}) /\
    (es = [] \/ es = [Call c Self "close" []] \/
     es = [Call c Self "close" []; Call b Self "close" []]) /\
    (forall e, engine (history s) (Call p Self "close" []) = inl e -> es = []) /\
    (forall v e, engine (history s) (Call p Self "close" []) = inr v ->
       engine (history s ++ [Call p Self "close" []])%list (Call c Self "close" []) = inl e ->
       es = [Call c Self "close" []]).
Proof.
  intros Hs Hm Ha. rewrite (runAction_reuse closeBrowser args s b c p Hm Hs).
  unfold executeAction. rewrite Ha. cbn [run closeBrowser name].
  unfold closeBrowser_run, bind, try_catch, ret, call. cbn [ctx_page ctx_context ctx_browser].
  destruct (engine (history s) (Call p Self "close" [])) as [e1|v1].
  { exists []. simpl. repeat split; auto; discriminate. }
  destruct (engine (history s ++ [Call p Self "close" []])%list (Call c Self "close" []))
    as [e2|v2].
  { exists [Call c Self "close" []]. simpl. rewrite <- app_assoc. simpl.
    repeat split; auto; discriminate. }
  exists [Call c Self "close" []; Call b Self "close" []].
  destruct (engine _ (Call b Self "close" [])); simpl; rewrite <- !app_assoc; simpl;
    repeat split; auto; discriminate.
Qed.

(** X18.  After close-browser the session is launched anew: the state
    that close-browser leaves has no session, and the next acquisition
    starts with the launch of the browser of the action that asks for it,
    with the channel and the headless mode of that action, and stores the
    new handles when the launch succeeds. *)
Theorem session_is_relaunched_after_close (action : PlaywrightActionDefinition)
    (args : JsValue) (a : PValue) (b c p : Handle) (s : ServerState) :
  session_of s = (Some b, Some c, Some p) ->
  playwright_member (fst (browser_of closeBrowser)) = true ->
  interpolateSecretsInObject env args = inr a ->
  session_of (snd (runAction closeBrowser args s)) = unallocated /\
  (exists es,
     history (snd (acquire action (snd (runAction closeBrowser args s))))
     = (history (snd (runAction closeBrowser args s)) ++ launch_of action :: es)%list /\
     forallb (fun e => negb (is_call e)) es = true) /\
  (forall session,
     fst (acquire action (snd (runAction closeBrowser args s))) = inr session ->
     session_of (snd (acquire action (snd (runAction closeBrowser args s))))
     = (Some session.1.1, Some session.1.2, Some session.2)).
Proof.
  intros Hs Hm Ha.
  assert (Hclosed : session_of (snd (runAction closeBrowser args s)) = unallocated).
  { rewrite (runAction_reuse closeBrowser args s b c p Hm Hs). cbn [snd].
    now apply closeBrowser_resets with (a := a). }
  assert (Hno : ~ allocated (snd (runAction closeBrowser args s))).
  { intros (b' & c' & p' & H). rewrite Hclosed in H. discriminate. }
  split; [exact Hclosed|]. rewrite (acquire_launches action _ Hno). split.
  - apply launchSession_events.
  - intros [[b' c'] p'] H.
    destruct (launchSession action (snd (runAction closeBrowser args s))) as [r s1] eqn:E.
    simpl in H. subst r. now apply launchSession_result in E as [_ E].
Qed.

(** X19.  A launch that fails is not turned into an error result: the
    promise of [runAction] is rejected with the message of the engine.
    The action is not run, no reference is stored, and the next call
    launches again; what had been launched before the failure stays in
    the history, without a reference to it. *)
Theorem launch_failure_rejects (action : PlaywrightActionDefinition) (args : JsValue)
    (s s1 : ServerState) (message : string) :
  playwright_member (fst (browser_of action)) = true ->
  acquire action s = (inl message, s1) ->
  runAction action args s = (inl message, s1) /\
  session_of s1 = session_of s /\
  ~ allocated s1 /\
  exists es,
    history s1 = (history s ++ launch_of action :: es)%list /\
    forallb (fun e => negb (is_call e)) es = true.
Proof.
  intros Hm Ha.
  assert (Hno : ~ allocated s).
  { intros (b & c & p & H). rewrite (acquire_reuse action s b c p H) in Ha. discriminate. }
  pose proof Ha as Hr. apply acquire_result in Hr as [_ Hr].
  split; [|split; [exact Hr|split]].
  - unfold runAction. destruct (browser_of action) as [browserName channel].
    simpl in Hm. rewrite Hm. simpl. now rewrite Ha.
  - unfold allocated. now rewrite Hr.
  - rewrite (acquire_launches action s Hno) in Ha.
    destruct (launchSession_events action s) as (es & E & Hes).
    rewrite Ha in E. eauto.
Qed.

(** X20.  While a session exists, the browser, the headless mode and the
    context options of an action have no effect: two actions that differ
    in these only, both with a browser that Playwright has, give the same
    result on the same session.  An action that asks for another browser
    is thus run in the browser that is open. *)
Theorem running_session_ignores_launch_settings (action1 action2 : PlaywrightActionDefinition)
    (args : JsValue) (s : ServerState) :
  allocated s ->
  name action1 = name action2 ->
  run action1 = run action2 ->
  playwright_member (fst (browser_of action1)) = true ->
  playwright_member (fst (browser_of action2)) = true ->
  runAction action1 args s = runAction action2 args s /\
  history (snd (acquire action1 s)) = history s.
Proof.
  intros (b & c & p & Hs) Hname Hrun H1 H2.
  rewrite (runAction_reuse action1 args s b c p H1 Hs),
    (runAction_reuse action2 args s b c p H2 Hs), (acquire_reuse action1 s b c p Hs).
  split; [|reflexivity].
  unfold executeAction. now rewrite Hname, Hrun.
Qed.

(** ** The command line *)

(** Induction on a list of arguments, of which a turn of a loop reads one
    or two. *)
Lemma arguments_induction {A : Type} (P : list A -> Prop) :
  P [] ->
  (forall x l, P l -> (forall y l', l = y :: l' -> P l') -> P (x :: l)) ->
  forall l, P l.
Proof.
  intros Hnil Hcons l.
  assert (H : P l /\ (forall y l', l = y :: l' -> P l')); [|now destruct H].
  induction l as [|x l [IH1 IH2]].
  - split; [exact Hnil | discriminate].
  - split; [now apply Hcons|]. now intros y l' [= _ <-].
Qed.

(** What holds of the variables before the loop and is kept by every
    assignment of the loop holds after it. *)
Lemma parseArgs_invariant (Q : Cli.Variables -> Prop) :
  (forall v o, v <> "" -> Q o -> Q (Cli.set_actionRoot v o)) ->
  (forall v o, v <> "" -> Q o -> Q (Cli.set_baseDir v o)) ->
  (forall o, Q o -> Q (Cli.set_verbose o)) ->
  (forall o, Q o -> Q (Cli.set_headless o)) ->
  (forall v o, v <> "" -> Q o -> Q (Cli.set_browser v o)) ->
  forall args o, Q o -> Q (Cli.parseArgs args o).
Proof.
  intros Ha Hb Hv Hh Hbr.
  assert (Hassign : forall set, (forall v o, v <> "" -> Q o -> Q (set v o)) ->
                    forall v o, Q o -> Q (Cli.assign set v o)).
  { intros set Hset v o Ho. unfold Cli.assign.
    destruct (Str.is_empty v) eqn:E; [exact Ho|]. apply Hset; [|exact Ho].
    now apply is_empty_false. }
  intros args. induction args as [|arg rest IH1 IH2] using arguments_induction;
    intros o Ho; [exact Ho|].
  assert (Htaking : forall set value,
            (forall v o, v <> "" -> Q o -> Q (set v o)) ->
            Q match value with
              | Some value => Cli.parseArgs rest (Cli.assign set value o)
              | None =>
                  match rest with
                  | value :: rest' => Cli.parseArgs rest' (Cli.assign set value o)
                  | [] => o
                  end
              end).
  { intros set [value|] Hset; [apply IH1; now apply Hassign|].
    destruct rest as [|value rest']; [exact Ho|].
    apply (IH2 value rest' eq_refl). now apply Hassign. }
  cbn [Cli.parseArgs]. destruct (Cli.splitAssignment arg) as [key valueFromAssignment].
  destruct (Cli.includes Cli.actionAliases key); [now apply Htaking|].
  destruct (Cli.includes Cli.baseAliases key); [now apply Htaking|].
  destruct (Cli.includes Cli.verboseAliases key); [apply IH1; now apply Hv|].
  destruct (Cli.includes Cli.headlessAliases key); [apply IH1; now apply Hh|].
  destruct (Cli.includes Cli.browserAliases key); [now apply Htaking|].
  now apply IH1.
Qed.

Lemma span_all (p : ascii -> bool) (s : string) :
  Str.all p s = true -> Str.span p s = (s, "").
Proof.
  intros H. rewrite <- (append_nil_r s) at 1. now apply span_append.
Qed.

(** An assignment [key=value...]: the key, and the value up to the next
    [=]. *)
Lemma splitAssignment_assignment (key value tail : string) :
  Str.all Cli.not_equals_sign key = true ->
  Str.all Cli.not_equals_sign value = true ->
  match tail with EmptyString => True | String c _ => c = "="%char end ->
  Cli.splitAssignment (key +:+ "=" +:+ value +:+ tail) = (key, Some value).
Proof.
  intros Hk Hv Ht. unfold Cli.splitAssignment.
  rewrite (span_append _ key ("=" +:+ value +:+ tail) Hk eq_refl).
  change ("=" +:+ value +:+ tail) with (String "=" (value +:+ tail)). cbv iota.
  rewrite (span_append _ value tail Hv); [reflexivity|].
  destruct tail as [|c tail]; [exact I|]. now subst c.
Qed.

(** No alias holds an equals sign. *)
Lemma alias_has_no_equals_sign (aliases : list string) (key : string) :
  In aliases [Cli.actionAliases; Cli.baseAliases; Cli.verboseAliases;
              Cli.headlessAliases; Cli.browserAliases] ->
  Cli.includes aliases key = true -> Str.all Cli.not_equals_sign key = true.
Proof.
  intros Hin H. unfold Cli.includes in H. apply existsb_exists in H as (x & Hx & E).
  apply String.eqb_eq in E. subst x. simpl in Hin.
  repeat (destruct Hin as [<-|Hin]); try contradiction;
    simpl in Hx;
    repeat (destruct Hx as [<-|Hx]); try contradiction; reflexivity.
Qed.

(** X21.  The switches of the command line only turn on.  When
    [PLAYWRIGHIUM_HEADLESS] is [1] no argument makes the browser headed
    again; and an assignment to a headless switch turns it on whatever the
    value is, so that [--headless=false] asks for a headless browser. *)
Theorem cli_headless_only_turns_on (path : Cli.Path) (args : list string)
    (key value : string) :
  env !! "PLAYWRIGHIUM_HEADLESS" = Some "1" \/
  (exists rest, args = (key +:+ "=" +:+ value) :: rest /\
                Cli.includes Cli.headlessAliases key = true) ->
  Cli.headless (Cli.parseCliOptions path env args) = true.
Proof.
  assert (Hkeep : forall l o, Cli.var_headless o = true ->
                    Cli.var_headless (Cli.parseArgs l o) = true).
  { intros l. apply (parseArgs_invariant (fun o => Cli.var_headless o = true)); auto. }
  unfold Cli.parseCliOptions. cbn [Cli.headless].
  intros [H|(rest & -> & Hkey)].
  - apply Hkeep. unfold Cli.initial. cbn [Cli.var_headless]. now rewrite H.
  - assert (Hk : Str.all Cli.not_equals_sign key = true).
    { apply (alias_has_no_equals_sign Cli.headlessAliases); [|exact Hkey].
      simpl. auto 6. }
    assert (Hsplit : exists v, Cli.splitAssignment (key +:+ "=" +:+ value) = (key, Some v)).
    { unfold Cli.splitAssignment.
      rewrite (span_append _ key ("=" +:+ value) Hk eq_refl).
      change ("=" +:+ value) with (String "=" value). cbv iota. eauto. }
    destruct Hsplit as (v & Hsplit).
    assert (Hnot : forall aliases, In aliases [Cli.actionAliases; Cli.baseAliases;
                                               Cli.verboseAliases] ->
                   Cli.includes aliases key = false).
    { unfold Cli.includes in Hkey. apply existsb_exists in Hkey as (x & Hx & E).
      apply String.eqb_eq in E. subst x. simpl in Hx.
      intros aliases Hin. simpl in Hin.
      repeat (destruct Hx as [<-|Hx]); try contradiction;
        repeat (destruct Hin as [<-|Hin]); try contradiction; reflexivity. }
    cbn [Cli.parseArgs]. rewrite Hsplit.
    rewrite !Hnot by (simpl; auto). rewrite Hkey.
    now apply Hkeep.
Qed.

(** X22.  The browser option is never empty: unless
    [PLAYWRIGHIUM_BROWSER] is set to the empty string, [parseCliOptions]
    returns a browser name that is not empty, whatever the arguments are.
    An empty value ([--browser=], or an empty next argument) leaves the
    name as it was. *)
Theorem cli_browser_is_never_empty (path : Cli.Path) (args : list string) :
  env !! "PLAYWRIGHIUM_BROWSER" <> Some "" ->
  Cli.browser (Cli.parseCliOptions path env args) <> "".
Proof.
  intros H. unfold Cli.parseCliOptions. cbn [Cli.browser].
  apply (parseArgs_invariant (fun o => Cli.var_browser o <> "")); auto.
  unfold Cli.initial. cbn [Cli.var_browser].
  destruct (env !! "PLAYWRIGHIUM_BROWSER") as [b|]; [congruence | discriminate].
Qed.

(** X23.  How an option reads its value.  In [key=value] the value ends
    at the next equals sign, and what follows is dropped.  Without an
    equals sign the option takes the next argument as its value, also
    when that argument is itself an option, which is then not read as
    one. *)
Theorem cli_option_value (path : Cli.Path) (key value tail next : string)
    (rest : list string) :
  Cli.includes Cli.browserAliases key = true ->
  Str.all Cli.not_equals_sign value = true -> value <> "" -> next <> "" ->
  Cli.parseCliOptions path env ((key +:+ "=" +:+ value +:+ "=" +:+ tail) :: rest)
    = Cli.parseCliOptions path env ((key +:+ "=" +:+ value) :: rest) /\
  Cli.parseArgs ((key +:+ "=" +:+ value) :: rest) (Cli.initial env)
    = Cli.parseArgs rest (Cli.set_browser value (Cli.initial env)) /\
  Cli.parseArgs (key :: next :: rest) (Cli.initial env)
    = Cli.parseArgs rest (Cli.set_browser next (Cli.initial env)).
Proof.
  intros Hkey Hv Hne Hnext.
  assert (Hk : Str.all Cli.not_equals_sign key = true).
  { apply (alias_has_no_equals_sign Cli.browserAliases); [|exact Hkey]. simpl. auto 6. }
  assert (Hnot : forall aliases, In aliases [Cli.actionAliases; Cli.baseAliases;
                                             Cli.verboseAliases; Cli.headlessAliases] ->
                 Cli.includes aliases key = false).
  { unfold Cli.includes in Hkey. apply existsb_exists in Hkey as (x & Hx & E).
    apply String.eqb_eq in E. subst x. simpl in Hx.
    intros aliases Hin. simpl in Hin.
    repeat (destruct Hx as [<-|Hx]); try contradiction;
      repeat (destruct Hin as [<-|Hin]); try contradiction; reflexivity. }
  assert (H1 : Cli.splitAssignment (key +:+ "=" +:+ value +:+ "=" +:+ tail) = (key, Some value))
    by now apply splitAssignment_assignment.
  assert (H2 : Cli.splitAssignment (key +:+ "=" +:+ value) = (key, Some value)).
  { rewrite <- (append_nil_r value) at 1. now apply splitAssignment_assignment. }
  assert (H3 : Cli.splitAssignment key = (key, None)).
  { unfold Cli.splitAssignment. now rewrite (span_all _ key Hk). }
  apply is_empty_false in Hne, Hnext.
  split; [|split].
  - unfold Cli.parseCliOptions. cbn [Cli.parseArgs]. now rewrite H1, H2.
  - cbn [Cli.parseArgs]. rewrite H2, !Hnot by (simpl; auto). rewrite Hkey.
    unfold Cli.assign. now rewrite Hne.
  - cbn [Cli.parseArgs]. rewrite H3, !Hnot by (simpl; auto). rewrite Hkey.
    unfold Cli.assign. now rewrite Hnext.
Qed.

(** X24.  Arguments that are no options are passed over in silence: when
    no argument has an alias for key, [parseCliOptions] returns what it
    returns without arguments.  So the words of the seed command, which
    are parsed too, change nothing. *)
Theorem cli_ignores_other_arguments (path : Cli.Path) (args : list string) :
  Forall (fun arg => Cli.is_alias (fst (Cli.splitAssignment arg)) = false) args ->
  Cli.parseCliOptions path env args = Cli.parseCliOptions path env [].
Proof.
  intros H. unfold Cli.parseCliOptions.
  assert (E : forall o, Cli.parseArgs args o = o); [|now rewrite E].
  induction H as [|arg rest Harg _ IH]; intros o; [reflexivity|].
  cbn [Cli.parseArgs]. destruct (Cli.splitAssignment arg) as [key valueFromAssignment].
  unfold Cli.is_alias in Harg. cbn [fst] in Harg.
  do 4 (apply orb_false_iff in Harg as [Harg ?]).
  repeat match goal with
         | E : Cli.includes _ key = false |- _ => rewrite E; clear E
         end.
  apply IH.
Qed.

(** ** The seed command *)

Lemma loop_of_option (arg : string) :
  Str.startsWith "--loop" arg = true -> Seed.loop_of (Some arg) = None.
Proof.
  intros H. apply startsWith_spec in H as [t ->]. reflexivity.
Qed.

Lemma parseLoop_last (t : Seed.LoopType) (last : list string) :
  last = ["--loop=" +:+ Seed.loop_name t] \/ last = ["--loop"; Seed.loop_name t] ->
  forall args loopType, Seed.parseLoop (args ++ last)%list loopType = Some t.
Proof.
  intros Hlast args.
  induction args as [|arg rest IH1 IH2] using arguments_induction; intros loopType.
  - destruct Hlast as [-> | ->]; now destruct t.
  - change ((arg :: rest) ++ last)%list with (arg :: (rest ++ last))%list.
    cbn [Seed.parseLoop].
    destruct (Str.startsWith "--loop=" arg).
    { destruct (Seed.loop_of _); apply IH1. }
    destruct (String.eqb arg "--loop"); [|apply IH1].
    destruct rest as [|value rest'].
    + (* the value is the first of the last arguments, an option *)
      assert (Hnone : exists x l, ([] ++ last)%list = x :: l /\ Seed.loop_of (Some x) = None).
      { destruct Hlast as [-> | ->]; eexists _, _; (split; [reflexivity|]);
          apply loop_of_option; now destruct t. }
      destruct Hnone as (x & l & E & Hx). rewrite E, Hx, <- E. apply IH1.
    + change ((value :: rest') ++ last)%list with (value :: (rest' ++ last))%list.
      cbv beta iota. destruct (Seed.loop_of (Some value)).
      * apply (IH2 value rest' eq_refl).
      * apply IH1.
Qed.

Lemma parseLoop_none (args : list string) :
  (forall arg, In arg args -> Str.startsWith "--loop" arg = false) ->
  Seed.parseLoop args None = None.
Proof.
  induction args as [|arg rest IH]; intros H; [reflexivity|].
  cbn [Seed.parseLoop].
  assert (Ha : Str.startsWith "--loop" arg = false) by (apply H; now left).
  assert (H1 : Str.startsWith "--loop=" arg = false).
  { destruct (Str.startsWith "--loop=" arg) eqn:E; [|reflexivity].
    apply startsWith_spec in E as [u ->]. discriminate Ha. }
  assert (H2 : String.eqb arg "--loop" = false).
  { destruct (String.eqb_spec arg "--loop") as [->|]; [discriminate Ha | reflexivity]. }
  rewrite H1, H2. apply IH. intros x Hx. apply H. now right.
Qed.

(** X25.  The seed command takes its target from the last [--loop]
    option, in either spelling ([--loop=claude] or [--loop claude]),
    whatever comes before it; without any argument that begins with
    [--loop] there is no target, and the command exits with an error. *)
Theorem seed_takes_the_last_loop_option (args : list string) (t : Seed.LoopType) :
  Seed.seedTarget (args ++ ["--loop=" +:+ Seed.loop_name t])%list = Some t /\
  Seed.seedTarget (args ++ ["--loop"; Seed.loop_name t])%list = Some t /\
  ((forall arg, In arg args -> Str.startsWith "--loop" arg = false) ->
   Seed.seedTarget args = None).
Proof.
  unfold Seed.seedTarget. split; [|split].
  - apply parseLoop_last. now left.
  - apply parseLoop_last. now right.
  - apply parseLoop_none.
Qed.

(** ** The prompts *)

Lemma getSubstitution_text (matched before after a r : string) :
  Str.all no_dollar a = true ->
  Prompt.getSubstitution matched before after (a +:+ r)
    = a +:+ Prompt.getSubstitution matched before after r.
Proof.
  intros H. induction a as [|c a IH]; [reflexivity|].
  simpl in H. apply andb_true_iff in H as [Hc Ha].
  change (String c a +:+ r) with (String c (a +:+ r)).
  cbn [Prompt.getSubstitution]. unfold no_dollar in Hc. apply negb_true_iff in Hc.
  rewrite Hc, (IH Ha). reflexivity.
Qed.

Lemma append_assoc (a b c : string) : (a +:+ b) +:+ c = a +:+ b +:+ c.
Proof. induction a as [|x a IH]; simpl; [reflexivity | now rewrite IH]. Qed.

(** The first [{{task}}] of a template that has no brace before it. *)
Lemma replaceFrom_task (replacement before pre post : string) :
  Str.all (fun c => negb (Ascii.eqb c "{")) pre = true ->
  Prompt.replaceFrom "{{task}}" replacement before (pre +:+ "{{task}}" +:+ post)
    = (before +:+ pre)
      +:+ Prompt.getSubstitution "{{task}}" (before +:+ pre) post replacement +:+ post.
Proof.
  revert before. induction pre as [|c pre IH]; intros before H.
  - rewrite append_nil_r. reflexivity.
  - simpl in H. apply andb_true_iff in H as [Hc Hpre].
    change (String c pre +:+ "{{task}}" +:+ post) with (String c (pre +:+ "{{task}}" +:+ post)).
    cbn [Prompt.replaceFrom Str.startsWith].
    apply negb_true_iff in Hc. rewrite Ascii.eqb_sym, Hc.
    rewrite (IH (before +:+ String c "") Hpre).
    now rewrite !(append_assoc before (String c "") pre).
Qed.

(** X26.  The text of a prompt is the template with its first
    [{{task}}] replaced, and only the first.  A task without a dollar sign
    is inserted as it is; in a task, [$$] is inserted as one dollar sign
    and [$&] as the placeholder [{{task}}] itself, these being patterns of
    [String.prototype.replace]. *)
Theorem promptText_replaces_first_placeholder (pre post a b : string) :
  Str.all (fun c => negb (Ascii.eqb c "{")) pre = true ->
  Str.all no_dollar a = true ->
  Str.all no_dollar b = true ->
  Prompt.promptText (pre +:+ "{{task}}" +:+ post) a = pre +:+ a +:+ post /\
  Prompt.promptText (pre +:+ "{{task}}" +:+ post) (a +:+ "$$" +:+ b)
    = pre +:+ a +:+ "$" +:+ b +:+ post /\
  Prompt.promptText (pre +:+ "{{task}}" +:+ post) (a +:+ "$&" +:+ b)
    = pre +:+ a +:+ "{{task}}" +:+ b +:+ post.
Proof.
  intros Hpre Ha Hb. unfold Prompt.promptText. rewrite !(replaceFrom_task _ "" pre post Hpre).
  change ("" +:+ pre) with pre.
  assert (Hend : forall m x y t, Str.all no_dollar t = true ->
                   Prompt.getSubstitution m x y t = t).
  { intros m x y t Ht. rewrite <- (append_nil_r t) at 1.
    rewrite (getSubstitution_text m x y t "" Ht). simpl. apply append_nil_r. }
  split; [|split].
  - now rewrite (Hend _ _ _ a Ha).
  - rewrite (getSubstitution_text _ _ _ a _ Ha).
    change ("$$" +:+ b) with (String "$" (String "$" b)). cbn [Prompt.getSubstitution].
    change (Ascii.eqb "$" "$") with true. cbv iota.
    rewrite (Hend _ _ _ b Hb). now rewrite !append_assoc.
  - rewrite (getSubstitution_text _ _ _ a _ Ha).
    change ("$&" +:+ b) with (String "$" (String "&" b)). cbn [Prompt.getSubstitution].
    change (Ascii.eqb "$" "$") with true. change (Ascii.eqb "&" "$") with false.
    change (Ascii.eqb "&" "&") with true. cbv iota.
    rewrite (Hend _ _ _ b Hb). now rewrite !append_assoc.
Qed.

End Engine.

(** ** The theorems on the example engine *)

(** C1 on a test identifier. *)
Lemma getLocator_first_matching_rule_witness :
  ~ structural "testid:login-btn" /\
  prefixed "testid:" "testid:login-btn" "login-btn" /\
  getLocator "testid:login-btn" = GetByTestId "login-btn".
Proof.
  assert (H : ~ structural "testid:login-btn").
  { intros H. apply structural_test in H. discriminate H. }
  split; [exact H|]. split; [reflexivity|].
  destruct (getLocator_first_matching_rule "testid:login-btn") as (_ & _ & Hid & _).
  apply Hid; [exact H | reflexivity].
Defined.

(** C2, on the code.  The variable of a name is read as a property of
    [process.env], so a name that is no variable but that every object
    inherits, such as [toString], is found: its placeholder is replaced by
    the source text of the inherited function, no error is thrown, and the
    action is run with that text. *)
Theorem inherited_name_is_substituted :
  Example.env !! "toString" = None /\
  interpolateSecrets Example.env "${{toString}}"
    = inr "function toString() { [native code] }" /\
  interpolateSecretsInObject Example.env Example.inherited_args
    = inr (PObj None
             [("commands",
               PArr [PObj None [("type", PStr "fill"); ("selector", PStr "#u");
                                ("value", PStr "function toString() { [native code] }")]])]) /\
  runAction Example.create Example.env Example.playwright_member "chromium" false
    Example.echo Example.inherited_args Example.running
  = (inr {| content := [Text "function toString() { [native code] }"];
            structuredContent := None; isError := None |},
     Example.running).
Proof. repeat split; vm_compute; reflexivity. Qed.

(** X27 on arguments that name [TOKEN], under which [process.env] has
    nothing. *)
Lemma missing_name_aborts_witness :
  In "${{TOKEN}}" (strings_of Example.secret_args) /\
  placeholder_named "${{TOKEN}}" "TOKEN" /\
  getenv Example.env "TOKEN" = None /\
  interpolateSecretsInObject Example.env Example.secret_args = inl (missingVariable "TOKEN") /\
  runAction Example.create Example.env Example.playwright_member "chromium" false
    (Example.failing Example.engine) Example.secret_args Example.running
  = (inr (actionFailed "click-go" (missingVariable "TOKEN")), Example.running).
Proof.
  assert (Hin : In "${{TOKEN}}" (strings_of Example.secret_args))
    by (right; right; left; reflexivity).
  assert (Hp : placeholder_named "${{TOKEN}}" "TOKEN").
  { apply placeholders_named. left. reflexivity. }
  assert (Hn : getenv Example.env "TOKEN" = None) by reflexivity.
  split; [exact Hin|]. split; [exact Hp|]. split; [exact Hn|].
  destruct (missing_name_aborts Example.create Example.env Example.playwright_member
              "chromium" false Example.secret_args "${{TOKEN}}" "TOKEN" Hin Hp Hn)
    as (m & _ & _ & Honly & Hthrow & Hrun).
  assert (Hm : m = "TOKEN").
  { apply Honly. intros s' k Hs' Hk _. apply placeholders_named in Hk.
    destruct Hs' as [<-|[<-|[<-|[]]]]; vm_compute in Hk;
      [contradiction | contradiction | destruct Hk as [<-|[]]; reflexivity]. }
  subst m. split; [exact Hthrow|].
  apply (Hrun (Example.failing Example.engine) Example.running (0, 1, 2) Example.running);
    reflexivity.
Defined.

(** The login scenario under continue-on-failure: three entries, the third
    one a failure, and the loop would go on to a fourth command. *)
Example login_continue_on_failure :
  fst (runCommands Example.engine Example.now 2 (map VObj Example.login) 0 [] [])
  = inr [StepOk 1 (VStr "navigate") (VObj [("url", VStr "https://a.test/")]);
         StepOk 2 (VStr "fill") (VObj [("filled", VStr "#u")]);
         StepFailed 3 (VStr "click") "Timeout 30000ms exceeded."] /\
  fst (runCommands Example.engine Example.now 2
         (map VObj (Example.login ++ [[("type", VStr "get_title")]]))%list 0 [] [])
  = inr [StepOk 1 (VStr "navigate") (VObj [("url", VStr "https://a.test/")]);
         StepOk 2 (VStr "fill") (VObj [("filled", VStr "#u")]);
         StepFailed 3 (VStr "click") "Timeout 30000ms exceeded.";
         StepOk 4 (VStr "get_title") (VObj [("title", VStr "A")])].
Proof. split; vm_compute; reflexivity. Qed.

(** A heading that cannot be logged ends the run of browser-session: a
    description that cannot be converted to a string, or a command that is
    [null], throws before the [try], and no log is returned. *)
Example heading_ends_the_run :
  runCommands Example.engine Example.now 2
    [VObj [("type", VStr "get_url"); ("description", VObj [("toString", VNum 1)])];
     VObj [("type", VStr "get_title")]] 0 [] []
  = (inl "Cannot convert object to primitive value", []) /\
  runCommands Example.engine Example.now 2 [VObj [("type", VStr "get_url")]; VNull] 0 [] []
  = (inl "Cannot read properties of null (reading 'description')", [Call 2 Self "url" []]).
Proof. split; vm_compute; reflexivity. Qed.


(** C4 on the login scenario: the click on [#go] fails at step 2. *)
Lemma shortcut_stops_at_first_failure_witness :
  shortcutCommands Example.engine Example.now 2 (take 2 Example.login) 0 [] []
  = (inr [ {| shortcut_step := 1; shortcut_command := VStr "navigate";
              shortcut_payload := VObj [("url", VStr "https://a.test/")] |};
           {| shortcut_step := 2; shortcut_command := VStr "fill";
              shortcut_payload := VObj [("filled", VStr "#u")] |} ],
     Example.login_history) /\
  shortcut_dispatch Example.engine Example.now 2
    [("type", VStr "click"); ("selector", VStr "#go")] Example.login_history
  = (inl "Timeout 30000ms exceeded.", Example.login_failed) /\
  shortcutCommands Example.engine Example.now 2 Example.login 0 [] []
  = (inl "Timeout 30000ms exceeded.", Example.login_failed) /\
  runAction Example.create Example.env Example.playwright_member "chromium" false
    (executeShortcut Example.engine Example.now Example.env Example.yaml_commands
       Example.shortcut_file)
    (VObj [("shortcutPath", VStr "login.yaml")]) Example.running
  = (inr (actionFailed "execute-shortcut" "Timeout 30000ms exceeded."),
     with_history Example.running Example.login_failed).
Proof.
  assert (Hpre : shortcutCommands Example.engine Example.now 2 (take 2 Example.login) 0 [] []
                 = (inr [ {| shortcut_step := 1; shortcut_command := VStr "navigate";
                             shortcut_payload := VObj [("url", VStr "https://a.test/")] |};
                          {| shortcut_step := 2; shortcut_command := VStr "fill";
                             shortcut_payload := VObj [("filled", VStr "#u")] |} ],
                    Example.login_history)) by reflexivity.
  assert (Hcmd : shortcut_dispatch Example.engine Example.now 2
                   [("type", VStr "click"); ("selector", VStr "#go")] Example.login_history
                 = (inl "Timeout 30000ms exceeded.", Example.login_failed)) by reflexivity.
  split; [exact Hpre|]. split; [exact Hcmd|].
  destruct (shortcut_stops_at_first_failure Example.engine Example.create Example.now
              Example.env Example.yaml_commands Example.shortcut_file
              Example.playwright_member "chromium" false
              2 (take 2 Example.login) [("type", VStr "click"); ("selector", VStr "#go")] []
              [] _ Example.login_history "Timeout 30000ms exceeded." Example.login_failed Hpre Hcmd)
    as (_ & Hrun & Hcaller).
  split; [exact Hrun|].
  apply (Hcaller Example.running (VObj [("shortcutPath", VStr "login.yaml")])
           (PObj None [("shortcutPath", PStr "login.yaml")]) 0 1
           ".playwright-mcp/shortcuts/login.yaml" "commands: (login at ${{HOST}})"
           "commands: (login at h)"); reflexivity.
Defined.

(** C4, as stated, fails on the login scenario: the run throws at the third
    command, so the caller receives the error and no log, of three entries
    or of any length. *)
Lemma shortcut_returns_no_log :
  shortcutCommands Example.engine Example.now 2 Example.login 0 [] []
  = (inl "Timeout 30000ms exceeded.", Example.login_failed) /\
  (forall log h', shortcutCommands Example.engine Example.now 2 Example.login 0 [] []
                  <> (inr log, h')) /\
  fst (runAction Example.create Example.env Example.playwright_member "chromium" false
         (executeShortcut Example.engine Example.now Example.env Example.yaml_commands
            Example.shortcut_file)
         (VObj [("shortcutPath", VStr "login.yaml")]) Example.running)
  = inr (actionFailed "execute-shortcut" "Timeout 30000ms exceeded.").
Proof.
  assert (H : shortcutCommands Example.engine Example.now 2 Example.login 0 [] []
              = (inl "Timeout 30000ms exceeded.", Example.login_failed)) by reflexivity.
  split; [exact H|]. split; [|reflexivity].
  intros log h'. rewrite H. discriminate.
Qed.

(** C5 from a state without a session: the launch, then the reuse. *)
Lemma session_is_reused_witness :
  acquire Example.create "chromium" false (Example.failing Example.engine) Example.idle
  = (inr (0, 1, 2),
     {| persistentBrowser := Some 0; persistentContext := Some 1; persistentPage := Some 2;
        history := [Launch "chromium" None false; NewContext 0 VUndefined; NewPage 1] |}) /\
  acquire Example.create "chromium" false (closeBrowser Example.engine)
    {| persistentBrowser := Some 0; persistentContext := Some 1; persistentPage := Some 2;
       history := [Launch "chromium" None false; NewContext 0 VUndefined; NewPage 1] |}
  = (inr (0, 1, 2),
     {| persistentBrowser := Some 0; persistentContext := Some 1; persistentPage := Some 2;
        history := [Launch "chromium" None false; NewContext 0 VUndefined; NewPage 1] |}).
Proof.
  assert (H : acquire Example.create "chromium" false (Example.failing Example.engine)
                Example.idle
              = (inr (0, 1, 2),
                 {| persistentBrowser := Some 0; persistentContext := Some 1;
                    persistentPage := Some 2;
                    history := [Launch "chromium" None false; NewContext 0 VUndefined;
                                NewPage 1] |})) by reflexivity.
  split; [exact H|].
  destruct (session_is_reused Example.create Example.env Example.playwright_member
              "chromium" false (Example.failing Example.engine) (closeBrowser Example.engine)
              Example.idle) as (_ & Hagain & _).
  exact (Hagain _ _ H).
Defined.


(** The message of execute-shortcut for types that are not strings: a
    number is printed as a template literal prints it, and a type that
    cannot be printed gives the error of the conversion. *)
Example unknown_type_message :
  shortcut_dispatch Example.engine Example.now 2
    [("type", VNum 1000000000000000000000)] []
  = (inl "Unknown command type: 1e+21", []) /\
  shortcut_dispatch Example.engine Example.now 2
    [("type", VNum (-123456789012345678901234567890))] []
  = (inl "Unknown command type: -1.2345678901234568e+29", []) /\
  shortcut_dispatch Example.engine Example.now 2 [("type", VArr [VNum 1; VNull; VStr "a"])] []
  = (inl "Unknown command type: 1,,a", []) /\
  shortcut_dispatch Example.engine Example.now 2
    [("type", VObj [("toString", VNum 1)])] []
  = (inl "Cannot convert object to primitive value", []).
Proof. repeat split; vm_compute; reflexivity. Qed.


(** X28 on an array with a string, a number and an object. *)
Lemma interpolation_copies_witness :
  no_proto_key (VArr [VStr "${{ HOST }}/x"; VNum 3; VObj [("k", VStr "${{PASSWORD}}")]])
    = true /\
  interpolateSecretsInObject Example.env
    (VArr [VStr "${{ HOST }}/x"; VNum 3; VObj [("k", VStr "${{PASSWORD}}")]])
  = inr (PArr [PStr "h/x"; PNum 3; PObj None [("k", PStr "p$&${{HOST}} \ %")]]) /\
  copy_of Example.env
    (VArr [VStr "${{ HOST }}/x"; VNum 3; VObj [("k", VStr "${{PASSWORD}}")]])
    (PArr [PStr "h/x"; PNum 3; PObj None [("k", PStr "p$&${{HOST}} \ %")]]).
Proof.
  split; [reflexivity|]. split; [reflexivity|].
  exact (proj1 (interpolation_copies Example.env
                  (VArr [VStr "${{ HOST }}/x"; VNum 3; VObj [("k", VStr "${{PASSWORD}}")]]))
           eq_refl _ eq_refl).
Defined.

(** C8 on a value with [$&], a placeholder text and a backslash. *)
Lemma interpolateSecrets_round_trip_witness :
  Example.env !! "PASSWORD" = Some "p$&${{HOST}} \ %" /\
  placeholder_for "PASSWORD" " PASSWORD " /\
  interpolateSecrets Example.env "${{ PASSWORD }}" = inr "p$&${{HOST}} \ %".
Proof.
  assert (Hv : Example.env !! "PASSWORD" = Some "p$&${{HOST}} \ %") by reflexivity.
  assert (Hp : placeholder_for "PASSWORD" " PASSWORD ").
  { split; [discriminate|]. split; reflexivity. }
  split; [exact Hv|]. split; [exact Hp|].
  exact (interpolateSecrets_round_trip Example.env "PASSWORD" " PASSWORD "
           "p$&${{HOST}} \ %" Hv Hp).
Defined.



(** C10 on an action that throws. *)
Lemma runAction_keeps_session_witness :
  name (Example.failing Example.engine) <> "close-browser" /\
  allocated Example.running /\
  executeAction Example.env (Example.failing Example.engine) (VObj []) (0, 1, 2)
    Example.running
  = (actionFailed "click-go" "Timeout 30000ms exceeded.",
     with_history Example.running [Call 2 (PageLocator (VStr "#go")) "click" []]) /\
  session_of
    (snd (runAction Example.create Example.env Example.playwright_member "chromium" false
            (Example.failing Example.engine) (VObj []) Example.running))
  = (Some 0, Some 1, Some 2).
Proof.
  assert (Hn : name (Example.failing Example.engine) <> "close-browser") by discriminate.
  assert (Ha : allocated Example.running) by (exists 0, 1, 2; reflexivity).
  split; [exact Hn|]. split; [exact Ha|].
  destruct (runAction_keeps_session Example.create Example.env Example.playwright_member
              "chromium" false (Example.failing Example.engine) (VObj []) (0, 1, 2)
              Example.running)
    as (Hkeep & _ & _).
  destruct (Hkeep Hn) as (_ & Hsame & _ & Hthrow).
  split.
  - apply (Hthrow (PObj None []) "Timeout 30000ms exceeded."
             [Call 2 (PageLocator (VStr "#go")) "click" []]); reflexivity.
  - exact (Hsame Ha).
Defined.

(** C8, as stated, fails for a stored name that is not the name of any
    placeholder: with white space at an end of the name the placeholder
    names the trimmed name, and with a closing brace in the name the text
    is not a placeholder and is left as it is. *)
Lemma round_trip_fails_for_other_names :
  ({[ " A" := "v" ]} : Env) !! " A" = Some "v" /\
  interpolateSecrets {[ " A" := "v" ]} "${{ A}}" = inl (missingVariable "A") /\
  ({[ "a}b" := "v" ]} : Env) !! "a}b" = Some "v" /\
  interpolateSecrets {[ "a}b" := "v" ]} "${{a}b}}" = inr "${{a}b}}".
Proof. repeat split; vm_compute; reflexivity. Qed.

(** ** The further properties on examples *)

(** X3 on a value whose strings have a dollar sign, closing braces or an
    opening without a closing, but no placeholder. *)
Lemma interpolation_without_placeholder_witness :
  Forall plain_text
    (strings_of (VObj [("url", VStr "https://a.test/${x}"); ("n", VNum 3);
                       ("tags", VArr [VStr "a}}b"; VStr "${{"])])) /\
  interpolateSecretsInObject ∅
    (VObj [("url", VStr "https://a.test/${x}"); ("n", VNum 3);
           ("tags", VArr [VStr "a}}b"; VStr "${{"])])
  = inr (PObj None [("url", PStr "https://a.test/${x}"); ("n", PNum 3);
                    ("tags", PArr [PStr "a}}b"; PStr "${{"])]).
Proof.
  assert (H : Forall plain_text
                (strings_of (VObj [("url", VStr "https://a.test/${x}"); ("n", VNum 3);
                                   ("tags", VArr [VStr "a}}b"; VStr "${{"])]))).
  { simpl. repeat (apply List.Forall_cons; [first [left; reflexivity | right; reflexivity]|]).
    apply List.Forall_nil. }
  split; [exact H|].
  exact (proj2 (proj2 (interpolation_without_placeholder ∅ _ H)) eq_refl).
Defined.

(** X4 on two stores that agree on [HOST], the only name of the value. *)
Lemma interpolation_reads_named_variables_witness :
  (forall n, In n (placeholders_of (VArr [VStr "${{HOST}}/x"; VNull])) ->
     Example.env !! n = ({[ "HOST" := "h" ]} : Env) !! n) /\
  interpolateSecretsInObject Example.env (VArr [VStr "${{HOST}}/x"; VNull])
  = interpolateSecretsInObject {[ "HOST" := "h" ]} (VArr [VStr "${{HOST}}/x"; VNull]).
Proof.
  assert (H : forall n, In n (placeholders_of (VArr [VStr "${{HOST}}/x"; VNull])) ->
                Example.env !! n = ({[ "HOST" := "h" ]} : Env) !! n).
  { intros n Hn. vm_compute in Hn. destruct Hn as [<-|[]]. reflexivity. }
  split; [exact H|].
  exact (interpolation_reads_named_variables Example.env {[ "HOST" := "h" ]} _ H).
Defined.

(** X5 on a URL with two placeholders. *)
Lemma interpolateSecrets_is_local_witness :
  Str.all (fun c => negb (Ascii.eqb c "$")) "https://" = true /\
  " HOST " <> "" /\
  Str.all (fun c => negb (Ascii.eqb c "}")) " HOST " = true /\
  interpolateSecrets Example.env "https://${{ HOST }}/login?p=${{PASSWORD}}"
  = inr "https://h/login?p=p$&${{HOST}} \ %".
Proof.
  assert (H1 : Str.all (fun c => negb (Ascii.eqb c "$")) "https://" = true) by reflexivity.
  assert (H2 : " HOST " <> "") by discriminate.
  assert (H3 : Str.all (fun c => negb (Ascii.eqb c "}")) " HOST " = true) by reflexivity.
  split; [exact H1|]. split; [exact H2|]. split; [exact H3|].
  etransitivity;
    [exact (interpolateSecrets_is_local Example.env "https://" " HOST "
              "/login?p=${{PASSWORD}}" H1 H2 H3)|].
  reflexivity.
Defined.

(** X6 on the login scenario: two successes and one failure. *)
Lemma session_counts_witness :
  exists r,
    fst (browserSession_run Example.engine Example.now 2 (map VObj Example.login) [])
    = inr r /\
    totalCommands r = 3 /\ succeeded r = 2 /\ failed r = 1 /\
    succeeded r + failed r = totalCommands r.
Proof.
  destruct (browserSession_run Example.engine Example.now 2 (map VObj Example.login) [])
    as [[e|r] h'] eqn:E.
  - vm_compute in E. discriminate E.
  - exists r. split; [reflexivity|].
    destruct (session_counts Example.engine Example.now 2 (map VObj Example.login) [] r h' E)
      as (Ht & Hs & Hf & Hsum).
    vm_compute in E. injection E as <- _.
    repeat split; reflexivity.
Defined.



(** X9 on a [fill] command whose value is the empty string. *)
Lemma fill_takes_any_defined_value_witness :
  prop "value" [("type", VStr "fill"); ("selector", VStr "#u"); ("value", VStr "")]
    <> VUndefined /\
  dispatch Example.engine Example.now 2
    [("type", VStr "fill"); ("selector", VStr "#u"); ("value", VStr "")] []
  = (inr (VObj [("filled", VStr "#u")]),
     [Call 2 (OnLocator (Locator_css "#u")) "fill" [VStr ""]]).
Proof.
  assert (Hv : prop "value" [("type", VStr "fill"); ("selector", VStr "#u");
                             ("value", VStr "")] <> VUndefined) by discriminate.
  split; [exact Hv|].
  etransitivity;
    [exact (fill_takes_any_defined_value Example.engine Example.now 2
              [("type", VStr "fill"); ("selector", VStr "#u"); ("value", VStr "")] "#u" []
              eq_refl eq_refl ltac:(discriminate) Hv)|].
  reflexivity.
Defined.

(** X10 on a click whose selector is a number. *)
Lemma selector_must_be_a_string_witness :
  In "click" resolving_types /\
  (forall p, In p (required_params "click") ->
     truthy (prop p [("type", VStr "click"); ("selector", VNum 7)]) = true) /\
  step Example.engine Example.now 2 1 [("type", VStr "click"); ("selector", VNum 7)] []
  = (inr (StepFailed 1 (VStr "click") "selector.match is not a function"), []).
Proof.
  assert (Hin : In "click" resolving_types) by (left; reflexivity).
  assert (Hg : forall p, In p (required_params "click") ->
                 truthy (prop p [("type", VStr "click"); ("selector", VNum 7)]) = true).
  { intros p [<-|[]]. reflexivity. }
  split; [exact Hin|]. split; [exact Hg|].
  apply (selector_must_be_a_string Example.engine Example.now 2 1 "click"
           [("type", VStr "click"); ("selector", VNum 7)] [] Hin eq_refl Hg).
  intros s. discriminate.
Defined.

(** X14 on the first two commands of the login scenario, which succeed. *)
Lemma shortcut_report_is_complete_witness :
  exists result,
    fst (executeShortcut_run Example.engine Example.now Example.env
           (fun _ => inr (Some (take 2 Example.login))) Example.shortcut_file
           {| ctx_input := PObj None [("shortcutPath", PStr "login.yaml")];
              ctx_browser := 0; ctx_context := 1; ctx_page := 2 |} [])
    = inr result /\
    exists log,
      result = shortcut_report ".playwright-mcp/shortcuts/login.yaml" (take 2 Example.login) log /\
      length log = 2.
Proof.
  destruct (executeShortcut_run Example.engine Example.now Example.env
              (fun _ => inr (Some (take 2 Example.login))) Example.shortcut_file
              {| ctx_input := PObj None [("shortcutPath", PStr "login.yaml")];
                 ctx_browser := 0; ctx_context := 1; ctx_page := 2 |} [])
    as [[e|result] h'] eqn:E.
  - vm_compute in E. discriminate E.
  - exists result. split; [reflexivity|].
    destruct (shortcut_report_is_complete _ _ _ _ _ _ _ _ _ E)
      as (resolvedPath & yamlContent & interpolatedYaml & commands & log
          & Hf & _ & Hy & _ & Hr & Hlen & _).
    injection Hf as <- _. injection Hy as <-.
    exists log. split; [exact Hr | exact Hlen].
Defined.

(** X15 on the login scenario, whose run adds four events. *)
Lemma executeShortcut_loads_before_it_acts_witness :
  executeShortcut_run Example.engine Example.now Example.env Example.yaml_commands
    Example.shortcut_file
    {| ctx_input := PObj None [("shortcutPath", PStr "login.yaml")];
       ctx_browser := 0; ctx_context := 1; ctx_page := 2 |} []
  = (inl "Timeout 30000ms exceeded.", Example.login_failed) /\
  Example.login_failed <> [] /\
  exists resolvedPath yamlContent interpolatedYaml commands,
    Example.shortcut_file (PStr "login.yaml") = inr (resolvedPath, yamlContent) /\
    interpolateSecrets Example.env yamlContent = inr interpolatedYaml /\
    Example.yaml_commands interpolatedYaml = inr (Some commands) /\
    commands <> [].
Proof.
  assert (H : executeShortcut_run Example.engine Example.now Example.env
                Example.yaml_commands Example.shortcut_file
                {| ctx_input := PObj None [("shortcutPath", PStr "login.yaml")];
                   ctx_browser := 0; ctx_context := 1; ctx_page := 2 |} []
              = (inl "Timeout 30000ms exceeded.", Example.login_failed)) by reflexivity.
  assert (Hne : Example.login_failed <> []) by discriminate.
  split; [exact H|]. split; [exact Hne|].
  exact (executeShortcut_loads_before_it_acts _ _ _ _ _ _ _ _ _ H Hne).
Defined.

(** X16 on a [wait_for_text] without a timeout, and on a text that cannot
    be converted, for which no call is made. *)
Lemma shortcut_command_always_calls_witness :
  In "wait_for_text" shortcut_types /\
  printable (VArr [VStr "Welcome"; VNum 2]) = true /\
  (exists receiver method args rest,
     snd (shortcut_dispatch Example.engine Example.now 2
            [("type", VStr "wait_for_text"); ("text", VArr [VStr "Welcome"; VNum 2])] [])
     = ([] ++ Call 2 receiver method args :: rest)%list) /\
  shortcut_dispatch Example.engine Example.now 2
    [("type", VStr "wait_for_text"); ("text", VArr [VStr "Welcome"; VNum 2])] []
  = (inr (VObj [("found", VArr [VStr "Welcome"; VNum 2])]),
     [Call 2 Self "waitForSelector"
        [VStr "text=Welcome,2"; VObj [("timeout", VUndefined)]]]) /\
  shortcut_dispatch Example.engine Example.now 2
    [("type", VStr "wait_for_text"); ("text", VObj [("toString", VNull)])] []
  = (inl "Cannot convert object to primitive value", []).
Proof.
  assert (Hin : In "wait_for_text" shortcut_types) by (do 6 right; left; reflexivity).
  split; [exact Hin|]. split; [reflexivity|]. split; [|split; reflexivity].
  exact (shortcut_command_always_calls Example.engine Example.now 2
           [("type", VStr "wait_for_text"); ("text", VArr [VStr "Welcome"; VNum 2])]
           "wait_for_text" [] Hin eq_refl (fun _ => eq_refl)).
Defined.

(** X17 on an engine in which every [close] throws: the page is the only
    thing that close-browser tries to close. *)
Lemma closeBrowser_always_answers_witness :
  session_of Example.running = (Some 0, Some 1, Some 2) /\
  runAction Example.create Example.env Example.playwright_member "chromium" false
    (closeBrowser (fun _ _ => inl "Target page, context or browser has been closed"))
    (VObj []) Example.running
  = (inr {| content := [Text "Browser session closed."];
            structuredContent := None; isError := None |},
     {| persistentBrowser := None; persistentContext := None; persistentPage := None;
        history := [Call 2 Self "close" []] |}).
Proof.
  split; [reflexivity|].
  destruct (closeBrowser_always_answers
              (fun _ _ => inl "Target page, context or browser has been closed")
              Example.create Example.env Example.playwright_member "chromium" false
              (VObj []) (PObj None []) 0 1 2 Example.running eq_refl eq_refl eq_refl)
    as (es & Hrun & _ & Hfail & _).
  rewrite Hrun. now rewrite (Hfail _ eq_refl).
Defined.

(** X18 on the example engine: a Firefox action after close-browser. *)
Lemma session_is_relaunched_after_close_witness :
  session_of Example.running = (Some 0, Some 1, Some 2) /\
  session_of
    (snd (runAction Example.create Example.env Example.playwright_member "chromium" false
            (closeBrowser Example.engine) (VObj []) Example.running))
  = unallocated /\
  exists es,
    history
      (snd (acquire Example.create "chromium" false
              {| name := "click-go"; browser := Some "firefox"; headless := Some true;
                 contextOptions := VUndefined; run := run (Example.failing Example.engine) |}
              (snd (runAction Example.create Example.env Example.playwright_member
                      "chromium" false (closeBrowser Example.engine) (VObj [])
                      Example.running))))
    = ([Call 2 Self "close" []; Call 1 Self "close" []; Call 0 Self "close" []]
       ++ Launch "firefox" None true :: es)%list.
Proof.
  split; [reflexivity|].
  destruct (session_is_relaunched_after_close Example.engine Example.create Example.env
              Example.playwright_member "chromium" false
              {| name := "click-go"; browser := Some "firefox"; headless := Some true;
                 contextOptions := VUndefined; run := run (Example.failing Example.engine) |}
              (VObj []) (PObj None []) 0 1 2 Example.running eq_refl eq_refl eq_refl)
    as (Hclosed & (es & Hes & _) & _).
  split; [exact Hclosed|]. exists es. exact Hes.
Defined.

(** X19 on an engine whose [newContext] throws. *)
Lemma launch_failure_rejects_witness :
  acquire (fun h e => match e with
                      | NewContext _ _ => inl "browser has been closed"
                      | _ => inr (length h)
                      end)
    "chromium" false (Example.failing Example.engine) Example.idle
  = (inl "browser has been closed",
     with_history Example.idle [Launch "chromium" None false; NewContext 0 VUndefined]) /\
  runAction (fun h e => match e with
                        | NewContext _ _ => inl "browser has been closed"
                        | _ => inr (length h)
                        end)
    Example.env Example.playwright_member "chromium" false
    (Example.failing Example.engine) (VObj []) Example.idle
  = (inl "browser has been closed",
     with_history Example.idle [Launch "chromium" None false; NewContext 0 VUndefined]).
Proof.
  assert (H : acquire (fun h e => match e with
                                  | NewContext _ _ => inl "browser has been closed"
                                  | _ => inr (length h)
                                  end)
                "chromium" false (Example.failing Example.engine) Example.idle
              = (inl "browser has been closed",
                 with_history Example.idle
                   [Launch "chromium" None false; NewContext 0 VUndefined]))
    by reflexivity.
  split; [exact H|].
  exact (proj1 (launch_failure_rejects _ Example.env Example.playwright_member "chromium"
                  false (Example.failing Example.engine) (VObj []) Example.idle _ _
                  eq_refl H)).
Defined.

(** X20 on an action that asks for a headless Firefox while the session
    of the example is open. *)
Lemma running_session_ignores_launch_settings_witness :
  allocated Example.running /\
  runAction Example.create Example.env Example.playwright_member "chromium" false
    (Example.failing Example.engine) (VObj []) Example.running
  = runAction Example.create Example.env Example.playwright_member "chromium" false
      {| name := "click-go"; browser := Some "firefox"; headless := Some true;
         contextOptions := VObj [("locale", VStr "fr-FR")];
         run := run (Example.failing Example.engine) |}
      (VObj []) Example.running.
Proof.
  assert (Ha : allocated Example.running) by (exists 0, 1, 2; reflexivity).
  split; [exact Ha|].
  exact (proj1 (running_session_ignores_launch_settings Example.create Example.env
                  Example.playwright_member "chromium" false
                  (Example.failing Example.engine)
                  {| name := "click-go"; browser := Some "firefox"; headless := Some true;
                     contextOptions := VObj [("locale", VStr "fr-FR")];
                     run := run (Example.failing Example.engine) |}
                  (VObj []) Example.running Ha eq_refl eq_refl eq_refl eq_refl)).
Defined.

(** X21 on [--headless=false]. *)
Lemma cli_headless_only_turns_on_witness :
  Cli.includes Cli.headlessAliases "--headless" = true /\
  Cli.headless
    (Cli.parseCliOptions Cli.posix ∅ ["--headless=false"; "--browser"; "firefox"])
  = true.
Proof.
  split; [reflexivity|].
  apply (cli_headless_only_turns_on ∅ Cli.posix _ "--headless" "false").
  right. exists ["--browser"; "firefox"]. split; reflexivity.
Defined.

(** X22 on empty values. *)
Lemma cli_browser_is_never_empty_witness :
  (∅ : Env) !! "PLAYWRIGHIUM_BROWSER" <> Some "" /\
  Cli.browser (Cli.parseCliOptions Cli.posix ∅ ["--browser="; "-b"; ""]) <> "".
Proof.
  assert (H : (∅ : Env) !! "PLAYWRIGHIUM_BROWSER" <> Some "") by discriminate.
  split; [exact H|].
  exact (cli_browser_is_never_empty ∅ Cli.posix ["--browser="; "-b"; ""] H).
Defined.

(** X23 on [--browser=firefox=nightly] and on [--browser --headless]. *)
Lemma cli_option_value_witness :
  Cli.includes Cli.browserAliases "--browser" = true /\
  Cli.parseCliOptions Cli.posix ∅ ["--browser=firefox=nightly"]
  = Cli.parseCliOptions Cli.posix ∅ ["--browser=firefox"] /\
  Cli.browser (Cli.parseCliOptions Cli.posix ∅ ["--browser"; "--headless"]) = "--headless" /\
  Cli.headless (Cli.parseCliOptions Cli.posix ∅ ["--browser"; "--headless"]) = false.
Proof.
  split; [reflexivity|].
  destruct (cli_option_value ∅ Cli.posix "--browser" "firefox" "nightly" "--headless" []
              eq_refl eq_refl ltac:(discriminate) ltac:(discriminate))
    as (Hcut & _ & Hnext).
  split; [exact Hcut|].
  unfold Cli.parseCliOptions. cbn [Cli.browser Cli.headless]. rewrite Hnext.
  split; reflexivity.
Defined.

(** X26 on the template of [create-shortcut] and a task with a price. *)
Lemma promptText_replaces_first_placeholder_witness :
  Str.all (fun c => negb (Ascii.eqb c "{")) "Create a Playwrighium shortcut for: " = true /\
  Prompt.promptText "Create a Playwrighium shortcut for: {{task}} ({{task}})" "pay $$5"
  = "Create a Playwrighium shortcut for: pay $5 ({{task}})".
Proof.
  assert (H : Str.all (fun c => negb (Ascii.eqb c "{"))
                "Create a Playwrighium shortcut for: " = true) by reflexivity.
  split; [exact H|].
  destruct (promptText_replaces_first_placeholder "Create a Playwrighium shortcut for: "
              " ({{task}})" "pay " "5" H eq_refl eq_refl) as (_ & Hdollar & _).
  exact Hdollar.
Defined.

(** X11 on a [navigate] without a URL. *)
Lemma unguarded_command_always_calls_witness :
  In "navigate" unguarded_types /\
  exists receiver method args rest,
    snd (dispatch Example.engine Example.now 2 [("type", VStr "navigate")] [])
    = ([] ++ Call 2 receiver method args :: rest)%list.
Proof.
  assert (Hin : In "navigate" unguarded_types) by (left; reflexivity).
  split; [exact Hin|].
  exact (unguarded_command_always_calls Example.engine Example.now 2
           [("type", VStr "navigate")] "navigate" [] Hin eq_refl).
Defined.

(** X24 on the arguments of the seed command. *)
Lemma cli_ignores_other_arguments_witness :
  Forall (fun arg => Cli.is_alias (fst (Cli.splitAssignment arg)) = false)
    ["seed"; "--loop=copilot"] /\
  Cli.parseCliOptions Cli.posix ∅ ["seed"; "--loop=copilot"]
  = {| Cli.actionRoot := "/repo/.playwright-mcp"; Cli.baseDir := "/repo";
       Cli.verbose := false; Cli.headless := false; Cli.browser := "chromium" |}.
Proof.
  assert (H : Forall (fun arg => Cli.is_alias (fst (Cli.splitAssignment arg)) = false)
                ["seed"; "--loop=copilot"]).
  { repeat (apply List.Forall_cons; [reflexivity|]). apply List.Forall_nil. }
  split; [exact H|].
  etransitivity; [exact (cli_ignores_other_arguments ∅ Cli.posix _ H)|].
  reflexivity.
Defined.
